(** * Quantum circuit factories, statevector replay and sampling

    A shallow embedding of [quantum_utils.py] and [quantum_experiments.py].
    The Python code builds circuits with Qiskit and hands them to Qiskit's
    [Statevector] and [StatevectorSampler]; the circuits, the factories, the
    printing and comparison helpers are translated from the Python source, the
    gate matrices, the replay of a circuit and the sampler from the
    specification (sections 4.1, 4.2 and 4.4), over the real numbers.  The
    module [F64] repeats the replay in binary64, where every operation is
    rounded. *)

From Stdlib Require Import Reals Lra Lia List String Ascii ZArith Bool Arith.
From Stdlib Require Import Permutation FinFun.
From Stdlib Require Import NArith.
From Stdlib Require PrimFloat.
Import ListNotations.

Local Open Scope R_scope.

(* ================================================================= *)
(** ** Exceptions and results *)

(** The exceptions the Python code can end with. [ValueError] is the one the
    source raises itself; the others come from the library calls. *)
Inductive exn : Type :=
| ValueError (msg : string)
| CircuitError (msg : string)
| QiskitError (msg : string)
| AttributeError (msg : string).

(** The error kinds of the specification (section 7). *)
Inductive error_kind : Type :=
| InvalidGateError
| InvalidQubitIndexError
| InvalidParameterError
| NormalizationError
| OtherError.

(** Python's [ValueError] is the exception of a bad argument value: the
    specification's [InvalidParameterError].  A qubit index out of range is a
    [CircuitError]. *)
Definition kind_of (e : exn) : error_kind :=
  match e with
  | ValueError _ => InvalidParameterError
  | CircuitError _ => InvalidQubitIndexError
  | QiskitError _ => OtherError
  | AttributeError _ => OtherError
  end.

Inductive result (A : Type) : Type :=
| Ok (a : A)
| Raise (e : exn).
Arguments Ok {A} a.
Arguments Raise {A} e.

Definition bind {A B : Type} (r : result A) (k : A -> result B) : result B :=
  match r with
  | Ok a => k a
  | Raise e => Raise e
  end.

Notation "x <- r ;; k" := (bind r (fun x => k))
  (at level 61, r at next level, right associativity).

(* ================================================================= *)
(** ** Circuits *)

(** The gate kinds the scripts use, and the measurement of a qubit into a
    classical bit. *)
Module Gate.

Inductive instruction : Type :=
| H (q : nat)
| X (q : nat)
| Z (q : nat)
| CX (c t : nat)
| CZ (a b : nat)
| CH (c t : nat)
| RY (theta : R) (q : nat)
| CRY (theta : R) (c t : nat)
| Measure (q c : nat).

End Gate.

Record QuantumCircuit : Type := mkQC {
  num_qubits : nat;
  num_clbits : nat;
  data : list Gate.instruction
}.

(** [QuantumCircuit(n, m)]: an empty circuit. *)
Definition new_circuit (n m : nat) : QuantumCircuit := mkQC n m [].

(** The indices of an instruction lie in the registers, and a two-qubit gate
    names two different qubits. *)
Definition valid_instruction (n m : nat) (ins : Gate.instruction) : bool :=
  match ins with
  | Gate.H q | Gate.X q | Gate.Z q | Gate.RY _ q => q <? n
  | Gate.CX c t | Gate.CZ c t | Gate.CH c t | Gate.CRY _ c t =>
      (c <? n) && (t <? n) && negb (c =? t)
  | Gate.Measure q c => (q <? n) && (c <? m)
  end%nat.

(** Appending an instruction mutates the circuit in Python; here the circuit
    is threaded through.  A bad index is refused at once, with a
    [CircuitError]; its message stands for Qiskit's, which names the index
    and the size of the register. *)
Definition append (ins : Gate.instruction) (qc : QuantumCircuit)
  : result QuantumCircuit :=
  if valid_instruction (num_qubits qc) (num_clbits qc) ins
  then Ok (mkQC (num_qubits qc) (num_clbits qc) (data qc ++ [ins]))
  else Raise (CircuitError "Index out of range or duplicate qubit arguments.").

(** The builder methods, [qc.h(0)], [qc.cx(0, 1)] and so on. *)
Module Circuit.
Definition h (q : nat) := append (Gate.H q).
Definition x (q : nat) := append (Gate.X q).
Definition z (q : nat) := append (Gate.Z q).
Definition cx (c t : nat) := append (Gate.CX c t).
Definition cz (a b : nat) := append (Gate.CZ a b).
Definition ch (c t : nat) := append (Gate.CH c t).
Definition ry (theta : R) (q : nat) := append (Gate.RY theta q).
Definition cry (theta : R) (c t : nat) := append (Gate.CRY theta c t).
Definition measure (q c : nat) := append (Gate.Measure q c).
End Circuit.
Import Circuit.

(** [qc.measure(range(k), range(k))]. *)
Definition measure_range (k : nat) (qc : QuantumCircuit)
  : result QuantumCircuit :=
  fold_left (fun acc i => qc' <- acc ;; measure i i qc') (seq 0 k) (Ok qc).

(** [qc.h(qubits)] on a list of qubits: one H per qubit, in order.  A gate
    is not broadcast over an empty list of qubits: the call raises
    [CircuitError]. *)
Definition h_list (qubits : list nat) (qc : QuantumCircuit)
  : result QuantumCircuit :=
  match qubits with
  | [] => Raise (CircuitError "One or more of the arguments are empty")
  | _ :: _ => fold_left (fun acc q => qc' <- acc ;; h q qc') qubits (Ok qc)
  end.

(* ================================================================= *)
(** ** State factories ([quantum_utils.py]) *)

Definition create_bell_state (variant : string) : result QuantumCircuit :=
  let qc := new_circuit 2 2 in
  if String.eqb variant "phi_plus" then
    qc <- h 0 qc ;; cx 0 1 qc
  else if String.eqb variant "phi_minus" then
    qc <- h 0 qc ;; qc <- z 0 qc ;; cx 0 1 qc
  else if String.eqb variant "psi_plus" then
    qc <- h 0 qc ;; qc <- cx 0 1 qc ;; x 1 qc
  else if String.eqb variant "psi_minus" then
    qc <- h 0 qc ;; qc <- z 0 qc ;; qc <- cx 0 1 qc ;; x 1 qc
  else
    Raise (ValueError (String.append "Unknown Bell state variant: " variant)).

(** The angle of the controlled rotation of step [i] of the general
    construction: [2 * np.arccos(np.sqrt(1 / (n_qubits - i)))]. *)
Definition w_angle (n_qubits : Z) (i : nat) : R :=
  2 * acos (sqrt (1 / IZR (n_qubits - Z.of_nat i))).

Definition create_w_state (n_qubits : Z) : result QuantumCircuit :=
  if (n_qubits <? 2)%Z then
    Raise (ValueError "W state requires at least 2 qubits")
  else
    let qc := new_circuit (Z.to_nat n_qubits) 0 in
    if (n_qubits =? 3)%Z then
      qc <- x 0 qc ;;
      qc <- ch 0 1 qc ;;
      qc <- ch 0 2 qc ;;
      qc <- cx 1 0 qc ;;
      cx 2 0 qc
    else
      let angle := 2 * acos (sqrt (1 / IZR n_qubits)) in
      qc <- ry angle 0 qc ;;
      fold_left
        (fun acc i => qc' <- acc ;; cry (w_angle n_qubits i) (i - 1) i qc')
        (seq 1 (Z.to_nat n_qubits - 1))
        (Ok qc).

(** [create_superposition_state(n_qubits)]: [qc.h(range(n_qubits))] on a
    new circuit; with no qubit the range is empty and the call raises. *)
Definition create_superposition_state (n_qubits : nat) : result QuantumCircuit :=
  h_list (seq 0 n_qubits) (new_circuit n_qubits 0).

(** [measure_all]: a classical register is added when the circuit has none,
    and every qubit is measured into the classical bit of its index. *)
Definition measure_all (qc : QuantumCircuit) : result QuantumCircuit :=
  let qc :=
    if (num_clbits qc =? 0)%nat
    then mkQC (num_qubits qc) (num_qubits qc) (data qc)
    else qc in
  measure_range (num_qubits qc) qc.

(* ================================================================= *)
(** ** Complex amplitudes *)

Definition C : Type := (R * R)%type.

Definition C0 : C := (0, 0).
Definition C1 : C := (1, 0).
Definition Cplus (a b : C) : C := (fst a + fst b, snd a + snd b).
Definition Cscale (r : R) (a : C) : C := (r * fst a, r * snd a).
Definition Cmult (a b : C) : C :=
  (fst a * fst b - snd a * snd b, fst a * snd b + snd a * fst b).
Definition Cconj (a : C) : C := (fst a, - snd a).

(** [|a|^2] and [abs(a)]. *)
Definition Cnorm2 (a : C) : R := fst a * fst a + snd a * snd a.
Definition Cabs (a : C) : R := sqrt (Cnorm2 a).

(** [np.angle(a)]: the argument of [a] in (-pi, pi], 0 at 0.  A real number
    has no signed zero: where NumPy follows the sign of a zero part (the
    angle of [-1 - 0.0j] is -pi, that of [-0.0 + 0.0j] is pi), [Cangle]
    gives pi and 0. *)
Definition Cangle (a : C) : R :=
  let (re, im) := a in
  if Rlt_dec 0 re then atan (im / re)
  else if Rlt_dec re 0 then
    if Rle_dec 0 im then atan (im / re) + PI else atan (im / re) - PI
  else if Rlt_dec 0 im then PI / 2
  else if Rlt_dec im 0 then - (PI / 2)
  else 0.

(* ================================================================= *)
(** ** Gate library and statevector engine *)

(** A statevector is the array [sv.data] of its amplitudes, indexed by basis
    state; bit [q] of an index is the value of qubit [q].  The amplitudes are
    exact complex numbers here; the code holds them in binary64, rounded
    after every operation, which the module [F64] below replays. *)
Definition Statevector : Type := list C.

Definition amp (sv : Statevector) (i : nat) : C := nth i sv C0.

Record matrix2 : Type := mkM { m00 : R; m01 : R; m10 : R; m11 : R }.

(** Modelled from the spec: the matrices of section 4.1 (Qiskit's, which the
    repository does not contain). *)
Definition H_matrix : matrix2 :=
  let s := 1 / sqrt 2 in mkM s s s (- s).
Definition X_matrix : matrix2 := mkM 0 1 1 0.
Definition Z_matrix : matrix2 := mkM 1 0 0 (-1).
Definition RY_matrix (theta : R) : matrix2 :=
  mkM (cos (theta / 2)) (- sin (theta / 2)) (sin (theta / 2)) (cos (theta / 2)).

(** The other index of the group of [i] for a gate on qubit [t]: the index
    that differs from [i] in bit [t] only. *)
Definition partner (i t : nat) : nat := Nat.lxor i (2 ^ t).

(** Modelled from the spec: the application rule of section 4.1.  The new
    amplitude at index [i] is row [bit t of i] of the matrix applied to the
    pair of amplitudes of the group of [i]. *)
Definition transformed (m : matrix2) (t : nat) (sv : Statevector) (i : nat) : C :=
  if Nat.testbit i t
  then Cplus (Cscale (m10 m) (amp sv (partner i t))) (Cscale (m11 m) (amp sv i))
  else Cplus (Cscale (m00 m) (amp sv i)) (Cscale (m01 m) (amp sv (partner i t))).

Definition apply_gate (m : matrix2) (t : nat) (sv : Statevector) : Statevector :=
  map (transformed m t sv) (seq 0 (List.length sv)).

(** Modelled from the spec: a controlled gate is the same transform on the
    groups whose control bit is 1, and the identity on the others. *)
Definition apply_controlled (m : matrix2) (c t : nat) (sv : Statevector)
  : Statevector :=
  map (fun i => if Nat.testbit i c then transformed m t sv i else amp sv i)
      (seq 0 (List.length sv)).

Definition apply_unitary (ins : Gate.instruction) (sv : Statevector) : Statevector :=
  match ins with
  | Gate.H q => apply_gate H_matrix q sv
  | Gate.X q => apply_gate X_matrix q sv
  | Gate.Z q => apply_gate Z_matrix q sv
  | Gate.CX c t => apply_controlled X_matrix c t sv
  | Gate.CZ a b => apply_controlled Z_matrix a b sv
  | Gate.CH c t => apply_controlled H_matrix c t sv
  | Gate.RY theta q => apply_gate (RY_matrix theta) q sv
  | Gate.CRY theta c t => apply_controlled (RY_matrix theta) c t sv
  | Gate.Measure _ _ => sv
  end.

Definition is_measure (ins : Gate.instruction) : bool :=
  match ins with
  | Gate.Measure _ _ => true
  | _ => false
  end.

(** Modelled from the spec: [apply] of section 4.2.  The engine evolves
    unitary gates only ([Statevector.from_instruction] refuses a measurement)
    and fails on a qubit index outside the register.  The normalization
    check of section 4.2 is not part of this exact replay, in which a gate
    cannot change the norm ([apply_preserves]); the binary64 replay
    [F64.apply] has it. *)
Definition apply (n : nat) (ins : Gate.instruction) (sv : Statevector)
  : result Statevector :=
  if is_measure ins then
    Raise (QiskitError "Cannot apply instruction with classical bits: measure")
  else if valid_instruction n 0 ins then Ok (apply_unitary ins sv)
  else Raise (CircuitError "Index out of range or duplicate qubit arguments.").

(** Modelled from the spec: [initialize] of section 4.2, amplitude 1 at index
    0 and 0 elsewhere. *)
Definition initialize (n : nat) : Statevector := C1 :: repeat C0 (2 ^ n - 1).

Fixpoint evolve (n : nat) (gates : list Gate.instruction) (sv : Statevector)
  : result Statevector :=
  match gates with
  | [] => Ok sv
  | g :: gates' => sv' <- apply n g sv ;; evolve n gates' sv'
  end.

(** [Statevector.from_instruction(qc)]: the circuit replayed against the
    all-zero state. *)
Definition from_instruction (qc : QuantumCircuit) : result Statevector :=
  evolve (num_qubits qc) (data qc) (initialize (num_qubits qc)).

(** [p_i = |a_i|^2]. *)
Definition probabilities (sv : Statevector) : list R := map Cnorm2 sv.

Definition Rsum (l : list R) : R := fold_right Rplus 0 l.

(** The sum of the squared magnitudes of a statevector. *)
Definition norm2 (sv : Statevector) : R := Rsum (probabilities sv).

(* ================================================================= *)
(** ** Bitstrings *)

Definition bit_char (b : bool) : ascii := if b then "1"%char else "0"%char.

Fixpoint string_of_bits (bs : list bool) : string :=
  match bs with
  | [] => EmptyString
  | b :: bs' => String (bit_char b) (string_of_bits bs')
  end.

(** The binary digits of a positive number, most significant first. *)
Fixpoint pos_bits (p : positive) : list bool :=
  match p with
  | xH => [true]
  | xO p' => pos_bits p' ++ [false]
  | xI p' => pos_bits p' ++ [true]
  end.

Definition nat_bits (i : nat) : list bool :=
  match N.of_nat i with
  | N0 => [false]
  | Npos p => pos_bits p
  end.

(** [f"{i:0{width}b}"]: the binary digits of [i], padded with zeros on the
    left up to [width] characters (never truncated). *)
Definition format_b (width i : nat) : string :=
  let bs := nat_bits i in
  string_of_bits (repeat false (width - List.length bs) ++ bs).

(* ================================================================= *)
(** ** Sampler *)

(** Counts: a Python dict from bitstring to count, in insertion order. *)
Definition Counts : Type := list (string * nat).

Fixpoint increment (key : string) (counts : Counts) : Counts :=
  match counts with
  | [] => [(key, 1%nat)]
  | (k, v) :: counts' =>
      if String.eqb key k then (k, S v) :: counts'
      else (k, v) :: increment key counts'
  end.

(** [counts.get(key, 0)]. *)
Fixpoint get (counts : Counts) (key : string) : nat :=
  match counts with
  | [] => 0%nat
  | (k, v) :: counts' => if String.eqb key k then v else get counts' key
  end.

(** [key in counts]. *)
Definition contains (counts : Counts) (key : string) : bool :=
  existsb (fun kv => String.eqb key (fst kv)) counts.

Definition total (counts : Counts) : nat :=
  fold_right (fun kv acc => (snd kv + acc)%nat) 0%nat counts.

(** [bit_array.get_counts()]: the tally of the sampled bitstrings. *)
Definition get_counts (memory : list string) : Counts :=
  fold_left (fun counts key => increment key counts) memory [].

(** Modelled from the spec: the inverse-transform draw of section 4.4.  With
    [acc] the probability mass before [ps], the drawn index is the first one
    whose cumulative probability exceeds the uniform draw [u]. *)
Fixpoint inverse_cdf (ps : list R) (acc u : R) : nat :=
  match ps with
  | [] => 0%nat
  | p :: ps' =>
      if Rlt_dec u (acc + p) then 0%nat
      else S (inverse_cdf ps' (acc + p) u)
  end.

(** The trailing measurements of an instruction list, as (qubit, clbit)
    pairs, and the instructions before them.  Every circuit of the
    repository measures at its very end.  Qiskit also takes a measurement as
    final when only gates on other qubits follow it; such a measurement is
    not final here, and the replay refuses it as a measurement in
    mid-circuit. *)
Fixpoint final_measurements (l : list Gate.instruction)
  : list Gate.instruction * list (nat * nat) :=
  match l with
  | [] => ([], [])
  | ins :: l' =>
      let (gates, meas) := final_measurements l' in
      match ins, gates with
      | Gate.Measure q c, [] => ([], (q, c) :: meas)
      | _, _ => (ins :: gates, meas)
      end
  end.

(** The value of classical bit [c] when basis state [i] is measured: the bit
    of the qubit last measured into [c], 0 when none is. *)
Definition clbit_value (meas : list (nat * nat)) (i c : nat) : bool :=
  match find (fun qc => (snd qc =? c)%nat) (rev meas) with
  | Some (q, _) => Nat.testbit i q
  | None => false
  end.

(** The bitstring of an outcome: classical bit 0 is the rightmost character. *)
Definition outcome (meas : list (nat * nat)) (m i : nat) : string :=
  string_of_bits (map (clbit_value meas i) (rev (seq 0 m))).

(** Modelled from the spec: [sample] of section 4.4, the statevector drawn
    [shots] times by inverse transform.  The generator's uniform draws in
    [0, 1) are the stream [draws]; draw [k] decides shot [k]. *)
Definition sample_memory (sv : Statevector) (meas : list (nat * nat))
    (m shots : nat) (draws : nat -> R) : list string :=
  map (fun k => outcome meas m (inverse_cdf (probabilities sv) 0 (draws k)))
      (seq 0 shots).

(** [run_circuit_sampler(qc, shots)].  The function takes no seed: every
    call makes a fresh [StatevectorSampler()], whose generator is seeded from
    the system's entropy.  The uniform numbers [draws] that this generator
    produces are therefore not an argument a caller can fix: they are an
    input from the environment, different from one call to the next.
    Modelled from the spec: the sampler rejects [shots <= 0]; it evolves the
    circuit without its final measurements, and the result has a field [c]
    only when the circuit has a classical register. *)
Definition run_circuit_sampler (qc : QuantumCircuit) (shots : Z)
    (draws : nat -> R) : result Counts :=
  if (shots <=? 0)%Z then Raise (ValueError "shots must be positive")
  else
    let (gates, meas) := final_measurements (data qc) in
    sv <- evolve (num_qubits qc) gates (initialize (num_qubits qc)) ;;
    if (num_clbits qc =? 0)%nat then
      Raise (AttributeError "'DataBin' object has no attribute 'c'")
    else
      Ok (get_counts
            (sample_memory sv meas (num_clbits qc) (Z.to_nat shots) draws)).

(* ================================================================= *)
(** ** Running and printing ([quantum_experiments.py]) *)

(** [qc.remove_final_measurements(inplace=False)]: the classical register
    goes with the measurements when nothing else uses it.  The measurements
    removed are those of [final_measurements], the trailing ones. *)
Definition remove_final_measurements (qc : QuantumCircuit) : QuantumCircuit :=
  let (gates, meas) := final_measurements (data qc) in
  let idle := negb (existsb is_measure gates) in
  match meas with
  | [] => qc
  | _ :: _ => mkQC (num_qubits qc) (if idle then 0%nat else num_clbits qc) gates
  end.

(** The amplitudes a helper prints: [(index rendered in binary, amplitude)]
    for the amplitudes of magnitude above [1e-10]. *)
Definition amplitude_lines (width : nat) (sv : Statevector)
  : list (string * C) :=
  flat_map
    (fun i => if Rlt_dec 1e-10 (Cabs (amp sv i))
              then [(format_b width i, amp sv i)] else [])
    (seq 0 (List.length sv)).

(** What a run prints and returns. *)
Record run_output : Type := mkOut {
  counts_printed : option Counts;
  amplitudes_printed : list (string * C);
  returned : option Statevector
}.

(** [run_and_print(qc, shots, show_statevector)]. *)
Definition run_and_print (qc : QuantumCircuit) (shots : Z)
    (show_statevector : bool) (draws : nat -> R) : result run_output :=
  counts <- (if (0 <? shots)%Z
             then counts <- run_circuit_sampler qc shots draws ;; Ok (Some counts)
             else Ok None) ;;
  if show_statevector then
    let qc_no_meas := remove_final_measurements qc in
    sv <- from_instruction qc_no_meas ;;
    Ok (mkOut counts (amplitude_lines 3 sv) (Some sv))
  else Ok (mkOut counts [] None).

(** [run_show(qc, shots, show_statevector)]. *)
Definition run_show (qc : QuantumCircuit) (shots : Z)
    (show_statevector : bool) (draws : nat -> R) : result run_output :=
  counts <- run_circuit_sampler qc shots draws ;;
  if show_statevector then
    let qc_nom := remove_final_measurements qc in
    sv <- from_instruction qc_nom ;;
    Ok (mkOut (Some counts) (amplitude_lines (num_qubits qc) sv) (Some sv))
  else Ok (mkOut (Some counts) [] None).

(** [qc.measure(qubits, clbits)] on lists. *)
Definition measure_list (qubits clbits : list nat) (qc : QuantumCircuit)
  : result QuantumCircuit :=
  fold_left (fun acc qc_pair => qc' <- acc ;; measure (fst qc_pair) (snd qc_pair) qc')
            (combine qubits clbits) (Ok qc).

(** The circuits of [ghz_experiments]: the GHZ state measured in the
    computational basis, and the same gates without measurement. *)
Definition qc_ghz : result QuantumCircuit :=
  qc <- h 0 (new_circuit 3 3) ;;
  qc <- cx 0 1 qc ;;
  qc <- cx 0 2 qc ;;
  measure_list [0; 1; 2]%nat [0; 1; 2]%nat qc.

Definition qc_ghz_sv : result QuantumCircuit :=
  qc <- h 0 (new_circuit 3 0) ;;
  qc <- cx 0 1 qc ;;
  cx 0 2 qc.

(** The circuit of [test_identity], [single_qubit_h_h_measurement] and part A
    of [interference_experiments]: H, H, measure. *)
Definition qc_h_h : result QuantumCircuit :=
  qc <- h 0 (new_circuit 1 1) ;;
  qc <- h 0 qc ;;
  measure 0 0 qc.

(** The circuit of [test_basic_measurement]: H, measure. *)
Definition qc_h : result QuantumCircuit :=
  qc <- h 0 (new_circuit 1 1) ;;
  measure 0 0 qc.

(** The circuit of [test_bell_state]: the factory's circuit, measured. *)
Definition qc_bell_measured : result QuantumCircuit :=
  qc <- create_bell_state "phi_plus" ;;
  measure_range 2 qc.

(* ================================================================= *)
(** ** Inspection and comparison ([quantum_utils.py]) *)

(** A line of [print_statevector]: the basis label and the magnitude, and
    the phase when it is printed.  The numbers are kept exact; their
    rendering with four decimals is left out. *)
Record sv_line : Type := mkLine {
  basis : string;
  magnitude : R;
  phase : option R
}.

Definition default_threshold : R := 1e-10.

(** [print_statevector(sv, threshold)]: the number of qubits of the header
    and the lines printed. *)
Definition print_statevector (sv : Statevector) (threshold : R)
  : nat * list sv_line :=
  let n_qubits := Nat.log2 (List.length sv) in
  (n_qubits,
   flat_map
     (fun i =>
        let a := amp sv i in
        if Rlt_dec threshold (Cabs a) then
          let basis := String.append "|" (String.append (format_b n_qubits i) "⟩") in
          let phase := Cangle a in
          let magnitude := Cabs a in
          if Rlt_dec (Rabs phase) threshold
          then [mkLine basis magnitude None]
          else [mkLine basis magnitude (Some phase)]
        else [])
     (seq 0 (List.length sv))).

(** [np.dot(u, v)] on two vectors of one length. *)
Definition dot (u v : list C) : C :=
  fold_right Cplus C0 (map (fun ab => Cmult (fst ab) (snd ab)) (combine u v)).

(** [np.isclose(a, b)] with NumPy's default tolerances. *)
Definition rtol : R := 1e-5.
Definition atol : R := 1e-8.
Definition isclose (a b : R) : bool :=
  if Rle_dec (Rabs (a - b)) (atol + rtol * Rabs b) then true else false.

(** The fidelity [abs(np.dot(np.conj(sv1.data), sv2.data))]. *)
Definition fidelity (sv1 sv2 : Statevector) : R :=
  Cabs (dot (map Cconj sv1) sv2).

(** What [compare_circuits] prints: the two statevectors and the fidelity. *)
Record comparison : Type := mkCmp {
  printed1 : nat * list sv_line;
  printed2 : nat * list sv_line;
  printed_fidelity : R;
  equivalent : bool
}.

(** [compare_circuits(qc1, qc2)].  On statevectors of different lengths
    [np.dot] raises [ValueError]; the message is NumPy's in short. *)
Definition compare_circuits (qc1 qc2 : QuantumCircuit) : result comparison :=
  sv1 <- from_instruction qc1 ;;
  sv2 <- from_instruction qc2 ;;
  if (List.length sv1 =? List.length sv2)%nat then
    let f := fidelity sv1 sv2 in
    Ok (mkCmp (print_statevector sv1 default_threshold)
              (print_statevector sv2 default_threshold)
              f (isclose f 1))
  else Raise (ValueError "shapes not aligned").

(* ================================================================= *)
(** ** Notions used by the statements *)

(** The 2x2 real matrices with orthonormal columns. *)
Definition orthogonal (m : matrix2) : Prop :=
  m00 m * m00 m + m10 m * m10 m = 1 /\
  m01 m * m01 m + m11 m * m11 m = 1 /\
  m00 m * m01 m + m10 m * m11 m = 0.

(** A circuit of unitary gates only, each on qubits of the register. *)
Definition unitary_circuit (qc : QuantumCircuit) : bool :=
  forallb (fun ins => negb (is_measure ins)
                      && valid_instruction (num_qubits qc) 0 ins)
          (data qc).

(** Two statevectors that differ by a global phase. *)
Definition same_up_to_phase (sv1 sv2 : Statevector) : Prop :=
  exists z : C, Cabs z = 1 /\ sv2 = map (Cmult z) sv1.

(** The label [print_statevector] gives basis state [i] of [n] qubits. *)
Definition basis_label (n i : nat) : string :=
  String.append "|" (String.append (format_b n i) "⟩").

(** The line [print_statevector] prints for an amplitude it lists: the phase
    is printed only when its absolute value is not below the threshold. *)
Definition line_of (n : nat) (threshold : R) (sv : Statevector) (i : nat) : sv_line :=
  let a := amp sv i in
  mkLine (basis_label n i) (Cabs a)
         (if Rlt_dec (Rabs (Cangle a)) threshold then None else Some (Cangle a)).

(** The amplitude at index [i] has a magnitude above the threshold. *)
Definition above (threshold : R) (sv : Statevector) (i : nat) : bool :=
  if Rlt_dec threshold (Cabs (amp sv i)) then true else false.

(** The indices [2^i - 1] with [i < n]: the basis states whose [i] lowest
    qubits are 1 and whose other qubits are 0. *)
Definition low_ones (n k : nat) : bool :=
  existsb (fun i => (k =? Nat.ones i)%nat) (seq 0 n).

(** The state of the general W construction after the first rotation and
    [j] controlled rotations: amplitude [sqrt (1 / n_qubits)] on the indices
    [2^i - 1] for [i <= j], the rest of the norm on [2^(j+1) - 1]. *)
Definition w_partial (n_qubits : Z) (j k : nat) : C :=
  if low_ones (S j) k then (sqrt (1 / IZR n_qubits), 0)
  else if (k =? Nat.ones (S j))%nat
       then (sqrt (IZR (n_qubits - Z.of_nat (S j)) / IZR n_qubits), 0)
       else C0.

(** The draws of a generator are uniform numbers in [0, 1). *)
Definition uniform_draws (draws : nat -> R) : Prop :=
  forall k, 0 <= draws k < 1.

(* ================================================================= *)
(** ** The experiments ([quantum_experiments.py]) *)

(** Every experiment prints the counts of its sampler run; each run has its
    own generator, so its own stream of draws. *)
Definition basic_hadamard_measurement (draws : nat -> R) : result Counts :=
  qc <- h 0 (new_circuit 1 1) ;;
  qc <- measure 0 0 qc ;;
  run_circuit_sampler qc 1000 draws.

Definition two_qubit_measurement (draws : nat -> R) : result Counts :=
  qc <- h 0 (new_circuit 2 2) ;;
  qc <- h 1 qc ;;
  qc <- measure_list [0; 1]%nat [0; 1]%nat qc ;;
  run_circuit_sampler qc 1000 draws.

Definition single_qubit_h_h_measurement (draws : nat -> R) : result Counts :=
  qc <- h 0 (new_circuit 1 1) ;;
  qc <- h 0 qc ;;
  qc <- measure 0 0 qc ;;
  run_circuit_sampler qc 1000 draws.

Definition cnot_demonstration (draws : nat -> R) : result Counts :=
  qc <- cx 0 1 (new_circuit 2 2) ;;
  qc <- x 0 qc ;;
  qc <- cx 0 1 qc ;;
  qc <- measure_list [0; 1]%nat [0; 1]%nat qc ;;
  run_circuit_sampler qc 1024 draws.

Definition visualize_circuit_example (draws : nat -> R) : result Counts :=
  qc <- h 0 (new_circuit 2 2) ;;
  qc <- cx 0 1 qc ;;
  qc <- measure_list [0; 1]%nat [0; 1]%nat qc ;;
  run_circuit_sampler qc 1000 draws.

(** The other two circuits of [ghz_experiments]: the GHZ state measured in
    the X basis, without and with a Z on qubit 0. *)
Definition qc_ghz_in_x : result QuantumCircuit :=
  qc <- h 0 (new_circuit 3 3) ;;
  qc <- cx 0 1 qc ;;
  qc <- cx 0 2 qc ;;
  qc <- h_list [0; 1; 2]%nat qc ;;
  measure_list [0; 1; 2]%nat [0; 1; 2]%nat qc.

Definition qc_ghz_phase : result QuantumCircuit :=
  qc <- h 0 (new_circuit 3 3) ;;
  qc <- cx 0 1 qc ;;
  qc <- cx 0 2 qc ;;
  qc <- z 0 qc ;;
  qc <- h_list [0; 1; 2]%nat qc ;;
  measure_list [0; 1; 2]%nat [0; 1; 2]%nat qc.

(** [ghz_experiments()]: the four runs, in order; the second one samples
    nothing. *)
Definition ghz_experiments (draws1 draws3 draws4 : nat -> R)
  : result (run_output * run_output * run_output * run_output) :=
  qc <- qc_ghz ;;
  out1 <- run_and_print qc 2048 false draws1 ;;
  qc <- qc_ghz_sv ;;
  out2 <- run_and_print qc 0 true draws1 ;;
  qc <- qc_ghz_in_x ;;
  out3 <- run_and_print qc 2048 false draws3 ;;
  qc <- qc_ghz_phase ;;
  out4 <- run_and_print qc 2048 false draws4 ;;
  Ok (out1, out2, out3, out4).

(** The two-qubit circuits of part B of [interference_experiments]. *)
Definition qc2_base : result QuantumCircuit :=
  qc <- h_list [0; 1]%nat (new_circuit 2 2) ;;
  qc <- h_list [0; 1]%nat qc ;;
  measure_list [0; 1]%nat [0; 1]%nat qc.

Definition qc2_phase : result QuantumCircuit :=
  qc <- h_list [0; 1]%nat (new_circuit 2 2) ;;
  qc <- z 0 qc ;;
  qc <- z 1 qc ;;
  qc <- h_list [0; 1]%nat qc ;;
  measure_list [0; 1]%nat [0; 1]%nat qc.

Definition qc2_cz : result QuantumCircuit :=
  qc <- h_list [0; 1]%nat (new_circuit 2 2) ;;
  qc <- cz 0 1 qc ;;
  qc <- h_list [0; 1]%nat qc ;;
  measure_list [0; 1]%nat [0; 1]%nat qc.

(** The matrix arithmetic of [interference_experiments]:
    [H = (1 / np.sqrt(2)) * np.array([[1, 1], [1, -1]])] and [H.dot(H)]. *)
Definition mat_scale (r : R) (a : matrix2) : matrix2 :=
  mkM (r * m00 a) (r * m01 a) (r * m10 a) (r * m11 a).

Definition mat_dot (a b : matrix2) : matrix2 :=
  mkM (m00 a * m00 b + m01 a * m10 b) (m00 a * m01 b + m01 a * m11 b)
      (m10 a * m00 b + m11 a * m10 b) (m10 a * m01 b + m11 a * m11 b).

Definition H_numpy : matrix2 := mat_scale (1 / sqrt 2) (mkM 1 1 1 (-1)).

Definition identity_matrix : matrix2 := mkM 1 0 0 1.

(** [interference_experiments()]: the four [run_show] calls and the printed
    product [H.dot(H)] (its rounding to ten decimals is left out). *)
Definition interference_experiments (draws1 draws2 draws3 draws4 : nat -> R)
  : result (run_output * matrix2 * run_output * run_output * run_output) :=
  qc1 <- qc_h_h ;;
  out1 <- run_show qc1 1024 true draws1 ;;
  qc <- qc2_base ;;
  out2 <- run_show qc 2048 true draws2 ;;
  qc <- qc2_phase ;;
  out3 <- run_show qc 2048 true draws3 ;;
  qc <- qc2_cz ;;
  out4 <- run_show qc 2048 true draws4 ;;
  Ok (out1, mat_dot H_numpy H_numpy, out2, out3, out4).

(* ================================================================= *)
(** ** The examples ([examples.py]) *)

Fixpoint for_each {A B : Type} (f : A -> result B) (l : list A)
  : result (list B) :=
  match l with
  | [] => Ok []
  | a :: l' => b <- f a ;; bs <- for_each f l' ;; Ok (b :: bs)
  end.

(** [example_3_custom_bell_state()]: what [print_statevector] prints for
    each of the four Bell states. *)
Definition example_3_custom_bell_state : result (list (nat * list sv_line)) :=
  for_each
    (fun variant =>
       qc <- create_bell_state variant ;;
       sv <- from_instruction qc ;;
       Ok (print_statevector sv default_threshold))
    ["phi_plus"; "phi_minus"; "psi_plus"; "psi_minus"]%string.

(** [example_4_superposition()]: the equal superpositions on 2, 3 and 4
    qubits, printed with threshold 0.1. *)
Definition example_4_superposition : result (list (nat * list sv_line)) :=
  for_each
    (fun n =>
       qc <- create_superposition_state n ;;
       sv <- from_instruction qc ;;
       Ok (print_statevector sv (1 / 10)))
    [2; 3; 4]%nat.

(* ================================================================= *)
(** ** The validation tests ([test_quantum.py]) *)

(** How a test ends: it returns, an [assert] fails, or another exception
    escapes. *)
Inductive verdict : Type :=
| Passed
| AssertionFailed
| Errored (e : exn).

(** [assert b], then the rest of the test. *)
Definition assert_then (b : bool) (rest : verdict) : verdict :=
  if b then rest else AssertionFailed.

Definition Rltb (a b : R) : bool := if Rlt_dec a b then true else false.

Definition test_basic_measurement (draws : nat -> R) : verdict :=
  match (qc <- h 0 (new_circuit 1 1) ;;
         qc <- measure 0 0 qc ;;
         run_circuit_sampler qc 1000 draws) with
  | Raise e => Errored e
  | Ok counts =>
      assert_then (contains counts "0" && contains counts "1")
      (assert_then ((400 <? get counts "0")%nat && (get counts "0" <? 600)%nat)
      (assert_then ((400 <? get counts "1")%nat && (get counts "1" <? 600)%nat)
       Passed))
  end.

Definition test_identity (draws : nat -> R) : verdict :=
  match (qc <- h 0 (new_circuit 1 1) ;;
         qc <- h 0 qc ;;
         qc <- measure 0 0 qc ;;
         run_circuit_sampler qc 1000 draws) with
  | Raise e => Errored e
  | Ok counts => assert_then (get counts "0" =? 1000)%nat Passed
  end.

Definition test_bell_state (draws : nat -> R) : verdict :=
  match (qc <- create_bell_state "phi_plus" ;;
         qc <- measure_range 2 qc ;;
         run_circuit_sampler qc 1000 draws) with
  | Raise e => Errored e
  | Ok counts =>
      assert_then (contains counts "00" && contains counts "11")
      (assert_then (get counts "01" =? 0)%nat
      (assert_then (get counts "10" =? 0)%nat
       Passed))
  end.

Definition test_statevector : verdict :=
  match (qc <- h 0 (new_circuit 2 0) ;;
         qc <- cx 0 1 qc ;;
         from_instruction qc) with
  | Raise e => Errored e
  | Ok sv =>
      let expected_amp := 1 / sqrt 2 in
      assert_then (Rltb (Rabs (Cabs (amp sv 0) - expected_amp)) 1e-6)
      (assert_then (Rltb (Rabs (Cabs (amp sv 3) - expected_amp)) 1e-6)
      (assert_then (Rltb (Cabs (amp sv 1)) 1e-10)
      (assert_then (Rltb (Cabs (amp sv 2)) 1e-10)
       Passed)))
  end.

(** [run_all_tests()]: the four tests in order; True when all of them
    return, False as soon as one raises. *)
Definition run_all_tests (draws1 draws2 draws3 : nat -> R) : bool :=
  match test_basic_measurement draws1 with
  | Passed =>
      match test_identity draws2 with
      | Passed =>
          match test_bell_state draws3 with
          | Passed =>
              match test_statevector with
              | Passed => true
              | _ => false
              end
          | _ => false
          end
      | _ => false
      end
  | _ => false
  end.

(* ================================================================= *)
(** ** Setup verification ([setup_verify.py]) *)

(** [check_python_version()] on [sys.version_info]. *)
Definition check_python_version (major minor : Z) : bool :=
  if ((major <? 3) || ((major =? 3) && (minor <? 8)))%Z%bool
  then false else true.

(** [check_dependencies()]: [importable] tells which modules can be
    imported; a report line is printed for every package. *)
Definition required_packages : list (string * string) :=
  [("qiskit", "Qiskit"); ("matplotlib", "Matplotlib"); ("numpy", "NumPy")]%string.

Definition check_dependencies (importable : string -> bool)
  : list (string * bool) * bool :=
  fold_left
    (fun acc package =>
       let '(report, all_installed) := acc in
       if importable (fst package)
       then (report ++ [(snd package, true)], all_installed)
       else (report ++ [(snd package, false)], false))
    required_packages ([], true).

(** [verify_qiskit()]: H, measure, 100 shots; True when both outcomes
    occur, False otherwise and when anything raises. *)
Definition verify_qiskit (draws : nat -> R) : bool :=
  match (qc <- h 0 (new_circuit 1 1) ;;
         qc <- measure 0 0 qc ;;
         run_circuit_sampler qc 100 draws) with
  | Raise _ => false
  | Ok counts => contains counts "0" && contains counts "1"
  end.

(* ================================================================= *)
(** ** Further notions used by the statements *)

(** The state after H on the qubits below [j]: amplitude [(1 / sqrt 2)^j]
    on the indices below [2^j]. *)
Definition superposition_partial (j k : nat) : C :=
  if (k <? 2 ^ j)%nat then ((1 / sqrt 2) ^ j, 0) else C0.

(** The statevector of basis state [i] of [n] qubits. *)
Definition basis_state (n i : nat) : Statevector :=
  map (fun k => if (k =? i)%nat then C1 else C0) (seq 0 (2 ^ n)).

(** The number of draws among the first [shots] that fall below [p]. *)
Definition draws_below (p : R) (shots : nat) (draws : nat -> R) : nat :=
  List.length (filter (fun k => Rltb (draws k) p) (seq 0 shots)).

(* ================================================================= *)
(** ** The engine in binary64 *)

(** Modelled from the spec: the engine of sections 4.1 and 4.2 with its
    amplitudes in binary64, the format of NumPy's [complex128]: the
    definitions repeat [transformed], [apply_gate], [apply_controlled],
    [initialize] and [evolve] with every product and sum rounded.  The
    matrices are those of section 4.1, the entry of H being [1 / sqrt 2]
    rounded.  The gate kinds with an angle (RY, CRY) are not part of this
    replay: their matrices need the cosine and sine of the platform.  After
    every gate the engine checks the normalization, with the tolerance 1e-6
    of section 4.2. *)
Module F64.
Import PrimFloat.
Local Open Scope float_scope.

Definition C : Type := (float * float)%type.

Definition C0 : C := (0, 0).
Definition C1 : C := (1, 0).
Definition Cplus (a b : C) : C := (fst a + fst b, snd a + snd b).
Definition Cscale (r : float) (a : C) : C := (r * fst a, r * snd a).
Definition Cnorm2 (a : C) : float := fst a * fst a + snd a * snd a.

Definition Statevector : Type := list C.

Definition amp (sv : Statevector) (i : nat) : C := nth i sv C0.

Record matrix2 : Type := mkM { m00 : float; m01 : float; m10 : float; m11 : float }.

Definition H_matrix : matrix2 :=
  mkM (1 / sqrt 2) (1 / sqrt 2) (1 / sqrt 2) (- (1 / sqrt 2)).
Definition X_matrix : matrix2 := mkM 0 1 1 0.
Definition Z_matrix : matrix2 := mkM 1 0 0 (-1).

Definition transformed (m : matrix2) (t : nat) (sv : Statevector) (i : nat) : C :=
  if Nat.testbit i t
  then Cplus (Cscale (m10 m) (amp sv (partner i t))) (Cscale (m11 m) (amp sv i))
  else Cplus (Cscale (m00 m) (amp sv i)) (Cscale (m01 m) (amp sv (partner i t))).

Definition apply_gate (m : matrix2) (t : nat) (sv : Statevector) : Statevector :=
  map (transformed m t sv) (seq 0 (List.length sv)).

Definition apply_controlled (m : matrix2) (c t : nat) (sv : Statevector)
  : Statevector :=
  map (fun i => if Nat.testbit i c then transformed m t sv i else amp sv i)
      (seq 0 (List.length sv)).

(** The gate kinds without an angle. *)
Inductive gate : Type :=
| H (q : nat)
| X (q : nat)
| Z (q : nat)
| CX (c t : nat)
| CZ (a b : nat)
| CH (c t : nat).

Definition to_instruction (g : gate) : Gate.instruction :=
  match g with
  | H q => Gate.H q
  | X q => Gate.X q
  | Z q => Gate.Z q
  | CX c t => Gate.CX c t
  | CZ a b => Gate.CZ a b
  | CH c t => Gate.CH c t
  end.

Definition apply_unitary (g : gate) (sv : Statevector) : Statevector :=
  match g with
  | H q => apply_gate H_matrix q sv
  | X q => apply_gate X_matrix q sv
  | Z q => apply_gate Z_matrix q sv
  | CX c t => apply_controlled X_matrix c t sv
  | CZ a b => apply_controlled Z_matrix a b sv
  | CH c t => apply_controlled H_matrix c t sv
  end.

Definition initialize (n : nat) : Statevector := C1 :: repeat C0 (2 ^ n - 1).

(** The sum of the squared magnitudes, and its distance from 1. *)
Definition norm2 (sv : Statevector) : float := fold_right add 0 (map Cnorm2 sv).
Definition drift (sv : Statevector) : float := abs (norm2 sv - 1).

(** The tolerance 1e-6 of the engine's check and the tolerance 1e-9 of the
    invariant, as binary64 numbers. *)
Definition check_tolerance : float := 0x1.0c6f7a0b5ed8dp-20.
Definition tolerance : float := 0x1.12e0be826d695p-30.

Definition within_tolerance (sv : Statevector) : bool := drift sv <=? tolerance.

(** A replay ends with a statevector or with one of the error kinds of
    section 7. *)
Inductive outcome : Type :=
| Done (sv : Statevector)
| Failed (kind : error_kind).

Definition apply (n : nat) (g : gate) (sv : Statevector) : outcome :=
  if valid_instruction n 0 (to_instruction g) then
    let sv' := apply_unitary g sv in
    if check_tolerance <? drift sv' then Failed NormalizationError else Done sv'
  else Failed InvalidQubitIndexError.

Fixpoint evolve (n : nat) (gates : list gate) (sv : Statevector) : outcome :=
  match gates with
  | [] => Done sv
  | g :: gates' =>
      match apply n g sv with
      | Done sv' => evolve n gates' sv'
      | Failed kind => Failed kind
      end
  end.

(** One more gate [g] on the outcome so far. *)
Definition step (n : nat) (g : gate) (o : outcome) : outcome :=
  match o with
  | Done sv => apply n g sv
  | Failed kind => Failed kind
  end.

(** One qubit with amplitude [c] on |0> and nothing on |1>. *)
Definition state (c : float) : Statevector := [(c, 0); (0, 0)].

(** The amplitude of |0> after one, two, ..., ten million H gates on one
    qubit from the all-zero state; the amplitude of |1> is then 0. *)
Definition after_millions : list float :=
  [0x1.ffffffff535ddp-1; 0x1.fffffffea6bbap-1; 0x1.fffffffdfa197p-1;
   0x1.fffffffd4d775p-1; 0x1.fffffffca0d52p-1; 0x1.fffffffbf432fp-1;
   0x1.fffffffb4790cp-1; 0x1.fffffffa9aeeap-1; 0x1.fffffff9ee4c7p-1;
   0x1.fffffff941aa4p-1].

(** The same amplitude after [i] million gates, 1 before the first gate. *)
Definition after_million (i : nat) : float := nth i (1 :: after_millions) 1.

(** The squared norm after one H gate, [1 - 2^-52], and after ten million,
    about [1 - 1.57e-9]. *)
Definition norm2_after_one : float := 0x1.ffffffffffffep-1.
Definition norm2_after_ten_million : float := 0x1.fffffff283548p-1.

End F64.

(* ================================================================= *)
(** * Properties *)

(** ** The definitions at work *)

Example bell_psi_minus_circuit :
  create_bell_state "psi_minus"
  = Ok (mkQC 2 2 [Gate.H 0; Gate.Z 0; Gate.CX 0 1; Gate.X 1]).
Proof. reflexivity. Qed.

Example w_state_3_circuit :
  create_w_state 3
  = Ok (mkQC 3 0 [Gate.X 0; Gate.CH 0 1; Gate.CH 0 2; Gate.CX 1 0; Gate.CX 2 0]).
Proof. reflexivity. Qed.

Example w_state_4_circuit :
  create_w_state 4
  = Ok (mkQC 4 0 [Gate.RY (2 * acos (sqrt (1 / 4))) 0;
                  Gate.CRY (w_angle 4 1) 0 1;
                  Gate.CRY (w_angle 4 2) 1 2;
                  Gate.CRY (w_angle 4 3) 2 3]).
Proof. reflexivity. Qed.

Example qubit_out_of_range :
  cx 0 5 (new_circuit 3 0)
  = Raise (CircuitError "Index out of range or duplicate qubit arguments.").
Proof. reflexivity. Qed.

Example ghz_measured_circuit :
  qc_ghz
  = Ok (mkQC 3 3 [Gate.H 0; Gate.CX 0 1; Gate.CX 0 2;
                  Gate.Measure 0 0; Gate.Measure 1 1; Gate.Measure 2 2]).
Proof. reflexivity. Qed.

Example ghz_final_measurements :
  final_measurements [Gate.H 0; Gate.CX 0 1; Gate.CX 0 2;
                      Gate.Measure 0 0; Gate.Measure 1 1; Gate.Measure 2 2]
  = ([Gate.H 0; Gate.CX 0 1; Gate.CX 0 2], [(0, 0); (1, 1); (2, 2)]%nat).
Proof. reflexivity. Qed.

Example format_b_5 : format_b 3 5 = "101"%string.
Proof. reflexivity. Qed.

Example format_b_1 : format_b 3 1 = "001"%string.
Proof. reflexivity. Qed.

Example format_b_wide : format_b 2 5 = "101"%string.
Proof. reflexivity. Qed.

(** Qubit 0 is the rightmost character of an outcome. *)
Example outcome_qubit_0 :
  outcome [(0, 0); (1, 1)]%nat 2 1 = "01"%string.
Proof. reflexivity. Qed.

Example get_counts_tally :
  get_counts ["00"; "11"; "00"]%string = [("00", 2); ("11", 1)]%string%nat.
Proof. reflexivity. Qed.

Example partner_of_5 : partner 5 1 = 7%nat /\ partner 7 1 = 5%nat.
Proof. split; reflexivity. Qed.

(** ** Indices and their partners *)

Section Partner.

Variable t : nat.

Lemma partner_involutive (i : nat) : partner (partner i t) t = i.
Proof.
  unfold partner.
  now rewrite Nat.lxor_assoc, Nat.lxor_nilpotent, Nat.lxor_0_r.
Qed.

Lemma partner_bit (i : nat) :
  Nat.testbit (partner i t) t = negb (Nat.testbit i t).
Proof.
  unfold partner.
  rewrite Nat.lxor_spec, Nat.pow2_bits_true.
  now destruct (Nat.testbit i t).
Qed.

Lemma partner_other_bit (i c : nat) :
  c <> t -> Nat.testbit (partner i t) c = Nat.testbit i c.
Proof.
  intros Hc. unfold partner.
  rewrite Nat.lxor_spec, Nat.pow2_bits_false by congruence.
  now destruct (Nat.testbit i c).
Qed.

Lemma partner_lt (n i : nat) :
  (t < n)%nat -> (i < 2 ^ n)%nat -> (partner i t < 2 ^ n)%nat.
Proof.
  intros Ht Hi. unfold partner.
  destruct (Nat.eq_dec (Nat.lxor i (2 ^ t)) 0) as [E | E].
  - rewrite E. apply Nat.neq_0_lt_0, Nat.pow_nonzero. discriminate.
  - apply Nat.log2_lt_pow2; [lia |].
    eapply Nat.le_lt_trans; [apply Nat.log2_lxor |].
    apply Nat.max_lub_lt.
    + destruct (Nat.eq_dec i 0) as [-> | Hi0].
      * rewrite Nat.log2_nonpos by lia. lia.
      * apply Nat.log2_lt_pow2; lia.
    + rewrite Nat.log2_pow2; lia.
Qed.

End Partner.

(** ** Sums over the indices of a statevector *)

Lemma Rsum_app (l1 l2 : list R) : Rsum (l1 ++ l2) = Rsum l1 + Rsum l2.
Proof.
  unfold Rsum. induction l1 as [| a l1 IH]; simpl; [lra | rewrite IH; lra].
Qed.

Lemma Rsum_permutation (l1 l2 : list R) :
  Permutation l1 l2 -> Rsum l1 = Rsum l2.
Proof.
  unfold Rsum. induction 1; simpl; lra.
Qed.

Lemma Rsum_map_plus {A : Type} (f g : A -> R) (l : list A) :
  Rsum (map (fun a => f a + g a) l) = Rsum (map f l) + Rsum (map g l).
Proof.
  unfold Rsum. induction l as [| a l IH]; simpl; [lra | rewrite IH; lra].
Qed.

Lemma Rsum_map_ext_in {A : Type} (f g : A -> R) (l : list A) :
  (forall a, In a l -> f a = g a) -> Rsum (map f l) = Rsum (map g l).
Proof.
  intros E. f_equal. now apply map_ext_in.
Qed.

(** An involution of the indices below [N] permutes them. *)
Lemma involution_permutation (sigma : nat -> nat) (N : nat) :
  (forall i, sigma (sigma i) = i) ->
  (forall i, (i < N)%nat -> (sigma i < N)%nat) ->
  Permutation (map sigma (seq 0 N)) (seq 0 N).
Proof.
  intros Hinv Hlt.
  apply NoDup_Permutation.
  - apply Finite.Injective_map_NoDup; [| apply seq_NoDup].
    intros a b E. rewrite <- (Hinv a), <- (Hinv b). now f_equal.
  - apply seq_NoDup.
  - intros k. rewrite in_map_iff. split.
    + intros [i [<- Hi]]. apply in_seq in Hi. apply in_seq.
      split; [lia |]. simpl. apply Hlt. lia.
    + intros Hk. apply in_seq in Hk. exists (sigma k). split; [apply Hinv |].
      apply in_seq. split; [lia |]. simpl. apply Hlt. lia.
Qed.

(** Two weightings of the indices that agree on every orbit of an involution
    have the same sum. *)
Lemma Rsum_pairing (sigma : nat -> nat) (N : nat) (f g : nat -> R) :
  (forall i, sigma (sigma i) = i) ->
  (forall i, (i < N)%nat -> (sigma i < N)%nat) ->
  (forall i, (i < N)%nat -> g i + g (sigma i) = f i + f (sigma i)) ->
  Rsum (map g (seq 0 N)) = Rsum (map f (seq 0 N)).
Proof.
  intros Hinv Hlt Hpair.
  pose proof (involution_permutation sigma N Hinv Hlt) as P.
  assert (Hshift : forall k : nat -> R,
             Rsum (map (fun i => k (sigma i)) (seq 0 N)) = Rsum (map k (seq 0 N))).
  { intros k. rewrite <- (map_map sigma k).
    apply Rsum_permutation. now apply Permutation_map. }
  assert (E : Rsum (map (fun i => g i + g (sigma i)) (seq 0 N))
              = Rsum (map (fun i => f i + f (sigma i)) (seq 0 N))).
  { apply Rsum_map_ext_in. intros i Hi. apply in_seq in Hi. apply Hpair. lia. }
  rewrite 2 Rsum_map_plus, (Hshift g), (Hshift f) in E. lra.
Qed.

Lemma statevector_as_map (sv : Statevector) :
  sv = map (amp sv) (seq 0 (List.length sv)).
Proof.
  apply nth_ext with (d := C0) (d' := amp sv 0%nat).
  - now rewrite length_map, length_seq.
  - intros i Hi.
    rewrite (map_nth (amp sv) (seq 0 (List.length sv)) 0%nat i).
    now rewrite seq_nth.
Qed.

Lemma norm2_as_index_sum (sv : Statevector) :
  norm2 sv = Rsum (map (fun i => Cnorm2 (amp sv i)) (seq 0 (List.length sv))).
Proof.
  unfold norm2, probabilities.
  rewrite <- (map_map (amp sv) Cnorm2). now rewrite <- statevector_as_map.
Qed.

(** ** Unitary gates preserve the norm *)

Lemma H_matrix_orthogonal : orthogonal H_matrix.
Proof.
  unfold orthogonal, H_matrix; simpl.
  assert (E : 1 / sqrt 2 * (1 / sqrt 2) = 1 / 2).
  { pose proof (sqrt_def 2) as D. pose proof (sqrt_lt_R0 2) as P.
    field_simplify_eq; lra. }
  repeat split; nra.
Qed.

Lemma X_matrix_orthogonal : orthogonal X_matrix.
Proof. unfold orthogonal, X_matrix; simpl. repeat split; lra. Qed.

Lemma Z_matrix_orthogonal : orthogonal Z_matrix.
Proof. unfold orthogonal, Z_matrix; simpl. repeat split; lra. Qed.

Lemma RY_matrix_orthogonal (theta : R) : orthogonal (RY_matrix theta).
Proof.
  unfold orthogonal, RY_matrix; simpl.
  pose proof (sin2_cos2 (theta / 2)) as E. unfold Rsqr in E.
  repeat split; nra.
Qed.

Create HintDb gates.
#[local] Hint Resolve H_matrix_orthogonal X_matrix_orthogonal
  Z_matrix_orthogonal RY_matrix_orthogonal : gates.

Lemma transformed_pair (m : matrix2) (t : nat) (sv : Statevector) (i : nat) :
  orthogonal m ->
  Cnorm2 (transformed m t sv i) + Cnorm2 (transformed m t sv (partner i t))
  = Cnorm2 (amp sv i) + Cnorm2 (amp sv (partner i t)).
Proof.
  intros (E0 & E1 & E2). unfold transformed.
  rewrite partner_bit, partner_involutive.
  destruct (amp sv i) as [x1 y1], (amp sv (partner i t)) as [x2 y2].
  destruct m as [a b c d]; simpl in *.
  destruct (Nat.testbit i t); unfold Cnorm2, Cplus, Cscale; simpl.
  - replace ((c * x2 + d * x1) * (c * x2 + d * x1) + (c * y2 + d * y1) * (c * y2 + d * y1) +
             ((a * x2 + b * x1) * (a * x2 + b * x1) + (a * y2 + b * y1) * (a * y2 + b * y1)))
      with ((a * a + c * c) * (x2 * x2 + y2 * y2) + (b * b + d * d) * (x1 * x1 + y1 * y1)
            + 2 * (a * b + c * d) * (x1 * x2 + y1 * y2)) by ring.
    rewrite E0, E1, E2. ring.
  - replace ((a * x1 + b * x2) * (a * x1 + b * x2) + (a * y1 + b * y2) * (a * y1 + b * y2) +
             ((c * x1 + d * x2) * (c * x1 + d * x2) + (c * y1 + d * y2) * (c * y1 + d * y2)))
      with ((a * a + c * c) * (x1 * x1 + y1 * y1) + (b * b + d * d) * (x2 * x2 + y2 * y2)
            + 2 * (a * b + c * d) * (x1 * x2 + y1 * y2)) by ring.
    rewrite E0, E1, E2. ring.
Qed.

Section Preservation.

Variables (n : nat) (sv : Statevector).
Hypothesis Hlen : List.length sv = (2 ^ n)%nat.

Lemma apply_gate_length (m : matrix2) (t : nat) :
  List.length (apply_gate m t sv) = List.length sv.
Proof. unfold apply_gate. now rewrite length_map, length_seq. Qed.

Lemma apply_controlled_length (m : matrix2) (c t : nat) :
  List.length (apply_controlled m c t sv) = List.length sv.
Proof. unfold apply_controlled. now rewrite length_map, length_seq. Qed.

Lemma apply_gate_norm2 (m : matrix2) (t : nat) :
  orthogonal m -> (t < n)%nat -> norm2 (apply_gate m t sv) = norm2 sv.
Proof.
  intros Hm Ht.
  rewrite (norm2_as_index_sum sv).
  unfold norm2, probabilities, apply_gate. rewrite map_map, Hlen.
  apply Rsum_pairing with (sigma := fun i => partner i t).
  - intros i. apply partner_involutive.
  - intros i. now apply partner_lt.
  - intros i _. now apply transformed_pair.
Qed.

Lemma apply_controlled_norm2 (m : matrix2) (c t : nat) :
  orthogonal m -> (t < n)%nat -> c <> t ->
  norm2 (apply_controlled m c t sv) = norm2 sv.
Proof.
  intros Hm Ht Hc.
  rewrite (norm2_as_index_sum sv).
  unfold norm2, probabilities, apply_controlled. rewrite map_map, Hlen.
  apply Rsum_pairing with (sigma := fun i => partner i t).
  - intros i. apply partner_involutive.
  - intros i. now apply partner_lt.
  - intros i _. rewrite partner_other_bit by assumption.
    destruct (Nat.testbit i c); [now apply transformed_pair | reflexivity].
Qed.

End Preservation.

Lemma apply_unitary_length (ins : Gate.instruction) (sv : Statevector) :
  List.length (apply_unitary ins sv) = List.length sv.
Proof.
  destruct ins; simpl;
    auto using apply_gate_length, apply_controlled_length.
Qed.

(** One step of the engine keeps the length and the norm. *)
Lemma apply_preserves (n : nat) (ins : Gate.instruction) (sv sv' : Statevector) :
  List.length sv = (2 ^ n)%nat ->
  apply n ins sv = Ok sv' ->
  List.length sv' = (2 ^ n)%nat /\ norm2 sv' = norm2 sv.
Proof.
  intros Hlen. unfold apply.
  destruct (is_measure ins) eqn:Hm; [discriminate |].
  destruct (valid_instruction n 0 ins) eqn:Hv; [| discriminate].
  intros [= <-]. split; [now rewrite apply_unitary_length |].
  destruct ins; simpl in Hv |- *; try discriminate;
    repeat match goal with
           | H : (_ && _)%bool = true |- _ => apply andb_prop in H; destruct H
           | H : negb _ = true |- _ => apply negb_true_iff in H
           | H : (_ <? _)%nat = true |- _ => apply Nat.ltb_lt in H
           | H : (_ =? _)%nat = false |- _ => apply Nat.eqb_neq in H
           end;
    first [ apply (apply_gate_norm2 n) | apply (apply_controlled_norm2 n) ];
    auto with gates.
Qed.

Lemma initialize_length (n : nat) : List.length (initialize n) = (2 ^ n)%nat.
Proof.
  unfold initialize. simpl. rewrite repeat_length.
  pose proof (Nat.pow_nonzero 2 n). lia.
Qed.

Lemma initialize_norm2 (n : nat) : norm2 (initialize n) = 1.
Proof.
  unfold initialize, norm2, probabilities, Rsum. simpl.
  induction (2 ^ n - 1)%nat as [| k IH]; simpl.
  - unfold Cnorm2; simpl. lra.
  - unfold Cnorm2 in *; simpl in *. lra.
Qed.

(** Replaying any number of gates keeps the length and the norm. *)
Lemma evolve_preserves (n : nat) (gates : list Gate.instruction) :
  forall sv sv',
    List.length sv = (2 ^ n)%nat ->
    evolve n gates sv = Ok sv' ->
    List.length sv' = (2 ^ n)%nat /\ norm2 sv' = norm2 sv.
Proof.
  induction gates as [| g gates IH]; simpl; intros sv sv' Hlen Hrun.
  - injection Hrun as <-. now split.
  - destruct (apply n g sv) as [sv1 |] eqn:Hstep; simpl in Hrun; [| discriminate].
    destruct (apply_preserves _ _ _ _ Hlen Hstep) as [Hlen1 Hn1].
    destruct (IH _ _ Hlen1 Hrun) as [Hlen' Hn']. split; [assumption | congruence].
Qed.

(** Replaying a prefix of a circuit that runs to the end succeeds too. *)
Lemma evolve_app (n : nat) (g1 g2 : list Gate.instruction) (sv : Statevector) :
  evolve n (g1 ++ g2) sv = (sv1 <- evolve n g1 sv ;; evolve n g2 sv1).
Proof.
  revert sv. induction g1 as [| g g1 IH]; simpl; intros sv; [reflexivity |].
  destruct (apply n g sv); simpl; [apply IH | reflexivity].
Qed.

(** ** The sampler *)

(** A draw below the total mass lands on an index of positive probability. *)
Lemma inverse_cdf_support (ps : list R) :
  forall acc u,
    acc <= u < acc + Rsum ps ->
    (inverse_cdf ps acc u < List.length ps)%nat /\
    0 < nth (inverse_cdf ps acc u) ps 0.
Proof.
  induction ps as [| p ps IH]; intros acc u Hu; simpl in *.
  - unfold Rsum in Hu; simpl in Hu. lra.
  - unfold Rsum in Hu; simpl in Hu. fold (Rsum ps) in Hu.
    destruct (Rlt_dec u (acc + p)) as [Hlt | Hge].
    + split; [lia | lra].
    + destruct (IH (acc + p) u) as [Hi Hp]; [lra |]. split; [lia | assumption].
Qed.

Lemma sample_memory_support (sv : Statevector) (meas : list (nat * nat))
    (m shots : nat) (draws : nat -> R) (key : string) :
  norm2 sv = 1 ->
  uniform_draws draws ->
  In key (sample_memory sv meas m shots draws) ->
  exists i, (i < List.length sv)%nat /\ 0 < Cnorm2 (amp sv i) /\
            key = outcome meas m i.
Proof.
  intros Hnorm Hrng Hin. unfold sample_memory in Hin.
  apply in_map_iff in Hin. destruct Hin as [k [<- _]].
  destruct (inverse_cdf_support (probabilities sv) 0 (draws k)) as [Hi Hp].
  { fold (norm2 sv). rewrite Hnorm. specialize (Hrng k). lra. }
  exists (inverse_cdf (probabilities sv) 0 (draws k)).
  unfold probabilities in Hi, Hp. rewrite length_map in Hi.
  split; [assumption |]. split; [| reflexivity].
  unfold amp.
  rewrite (nth_indep _ 0 (Cnorm2 C0)) in Hp by now rewrite length_map.
  now rewrite map_nth in Hp.
Qed.

Lemma sample_memory_length (sv : Statevector) (meas : list (nat * nat))
    (m shots : nat) (draws : nat -> R) :
  List.length (sample_memory sv meas m shots draws) = shots.
Proof. unfold sample_memory. now rewrite length_map, length_seq. Qed.

(** ** Counts *)

Lemma get_increment (key k : string) (counts : Counts) :
  get (increment key counts) k
  = if String.eqb k key then S (get counts k) else get counts k.
Proof.
  induction counts as [| [k0 v] counts IH]; simpl.
  - destruct (String.eqb k key); reflexivity.
  - destruct (String.eqb key k0) eqn:E0; simpl.
    + apply String.eqb_eq in E0; subst k0.
      destruct (String.eqb k key); reflexivity.
    + rewrite IH. destruct (String.eqb k k0) eqn:E1; [| reflexivity].
      apply String.eqb_eq in E1; subst k0.
      rewrite String.eqb_sym in E0. now rewrite E0.
Qed.

Lemma total_increment (key : string) (counts : Counts) :
  total (increment key counts) = S (total counts).
Proof.
  induction counts as [| [k0 v] counts IH]; simpl; [reflexivity |].
  destruct (String.eqb key k0); simpl; [reflexivity | rewrite IH; lia].
Qed.

Lemma contains_increment (key k : string) (counts : Counts) :
  contains (increment key counts) k = true ->
  k = key \/ contains counts k = true.
Proof.
  unfold contains.
  induction counts as [| [k0 v] counts IH]; simpl.
  - rewrite orb_false_r. intros E. left. now apply String.eqb_eq.
  - destruct (String.eqb key k0) eqn:E0; simpl; [now right |].
    destruct (String.eqb k k0); simpl; [now right | exact IH].
Qed.

Lemma fold_increment_total (memory : list string) :
  forall counts,
    total (fold_left (fun c key => increment key c) memory counts)
    = (List.length memory + total counts)%nat.
Proof.
  induction memory as [| key memory IH]; intros counts; simpl; [reflexivity |].
  rewrite IH, total_increment. lia.
Qed.

Lemma fold_increment_contains (memory : list string) (k : string) :
  forall counts,
    contains (fold_left (fun c key => increment key c) memory counts) k = true ->
    In k memory \/ contains counts k = true.
Proof.
  induction memory as [| key memory IH]; intros counts; simpl; [now right |].
  intros Hc. destruct (IH _ Hc) as [Hin | Hc']; [now left; right |].
  destruct (contains_increment _ _ _ Hc') as [-> | Hc'']; [now left; left | now right].
Qed.

Lemma fold_increment_get_absent (memory : list string) (k : string) :
  ~ In k memory ->
  forall counts,
    get (fold_left (fun c key => increment key c) memory counts) k = get counts k.
Proof.
  induction memory as [| key memory IH]; intros Hin counts; simpl; [reflexivity |].
  rewrite IH by (intros Hk; apply Hin; now right).
  rewrite get_increment.
  destruct (String.eqb k key) eqn:E; [| reflexivity].
  apply String.eqb_eq in E. exfalso. apply Hin. now left.
Qed.

Lemma get_counts_total (memory : list string) :
  total (get_counts memory) = List.length memory.
Proof. unfold get_counts. rewrite fold_increment_total. simpl. lia. Qed.

Lemma get_counts_contains (memory : list string) (k : string) :
  contains (get_counts memory) k = true -> In k memory.
Proof.
  intros Hc. destruct (fold_increment_contains _ _ _ Hc) as [H | H];
    [assumption | discriminate].
Qed.

Lemma get_counts_absent (memory : list string) (k : string) :
  ~ In k memory -> get (get_counts memory) k = 0%nat.
Proof.
  intros H. unfold get_counts. now rewrite fold_increment_get_absent.
Qed.

(** A memory that holds one bitstring only tallies to a single entry. *)
Lemma fold_increment_constant (key : string) (memory : list string) :
  (forall k, In k memory -> k = key) ->
  forall v,
    fold_left (fun c k => increment k c) memory [(key, v)]
    = [(key, (List.length memory + v)%nat)].
Proof.
  induction memory as [| k memory IH]; intros Hall v; simpl; [reflexivity |].
  rewrite (Hall k) by now left. rewrite String.eqb_refl.
  rewrite IH by (intros k' Hk'; apply Hall; now right).
  f_equal. f_equal. lia.
Qed.

Lemma get_counts_constant (key : string) (memory : list string) :
  memory <> [] ->
  (forall k, In k memory -> k = key) ->
  get_counts memory = [(key, List.length memory)].
Proof.
  destruct memory as [| k memory]; [congruence |]. intros _ Hall.
  unfold get_counts. simpl. rewrite (Hall k) by now left.
  rewrite fold_increment_constant by (intros k' Hk'; apply Hall; now right).
  f_equal. f_equal. lia.
Qed.

(** The sampler on a circuit whose gates replay to [sv]. *)
Lemma run_circuit_sampler_ok (qc : QuantumCircuit) (shots : Z) (draws : nat -> R)
    (gates : list Gate.instruction) (meas : list (nat * nat)) (sv : Statevector) :
  (0 < shots)%Z ->
  final_measurements (data qc) = (gates, meas) ->
  evolve (num_qubits qc) gates (initialize (num_qubits qc)) = Ok sv ->
  num_clbits qc <> 0%nat ->
  run_circuit_sampler qc shots draws
  = Ok (get_counts (sample_memory sv meas (num_clbits qc) (Z.to_nat shots) draws)).
Proof.
  intros Hs Hf He Hm. unfold run_circuit_sampler.
  destruct (Z.leb_spec shots 0); [lia |].
  rewrite Hf, He. simpl.
  destruct (Nat.eqb_spec (num_clbits qc) 0); [contradiction | reflexivity].
Qed.

Lemma evolve_norm2 (n : nat) (gates : list Gate.instruction) (sv : Statevector) :
  evolve n gates (initialize n) = Ok sv ->
  List.length sv = (2 ^ n)%nat /\ norm2 sv = 1.
Proof.
  intros Hrun.
  destruct (evolve_preserves n gates _ _ (initialize_length n) Hrun) as [Hl Hn].
  split; [assumption |]. now rewrite Hn, initialize_norm2.
Qed.

(** What the sampler returns on a measured circuit: as many outcomes as
    shots, each the bitstring of a basis state of positive probability. *)
Lemma run_circuit_sampler_outcomes (qc : QuantumCircuit) (shots : Z)
    (draws : nat -> R) (gates : list Gate.instruction) (meas : list (nat * nat))
    (sv : Statevector) :
  (0 < shots)%Z ->
  final_measurements (data qc) = (gates, meas) ->
  evolve (num_qubits qc) gates (initialize (num_qubits qc)) = Ok sv ->
  num_clbits qc <> 0%nat ->
  uniform_draws draws ->
  exists counts,
    run_circuit_sampler qc shots draws = Ok counts /\
    total counts = Z.to_nat shots /\
    (forall key, contains counts key = true ->
       exists i, (i < List.length sv)%nat /\ 0 < Cnorm2 (amp sv i) /\
                 key = outcome meas (num_clbits qc) i) /\
    (forall key,
       (forall i, (i < List.length sv)%nat -> 0 < Cnorm2 (amp sv i) ->
                  key <> outcome meas (num_clbits qc) i) ->
       get counts key = 0%nat).
Proof.
  intros Hs Hf He Hm Hrng.
  destruct (evolve_norm2 _ _ _ He) as [_ Hnorm].
  eexists. split; [now apply (run_circuit_sampler_ok qc shots draws gates meas sv) |].
  split; [now rewrite get_counts_total, sample_memory_length |].
  split.
  - intros key Hc. apply get_counts_contains in Hc.
    now apply (sample_memory_support sv meas _ (Z.to_nat shots) draws).
  - intros key Hkey. apply get_counts_absent. intros Hin.
    destruct (sample_memory_support sv meas _ (Z.to_nat shots) draws key Hnorm Hrng Hin)
      as (i & Hi & Hp & E).
    exact (Hkey i Hi Hp E).
Qed.

(** ** Magnitudes *)

Lemma sqrt2_sq : sqrt 2 * sqrt 2 = 2.
Proof. apply sqrt_def; lra. Qed.

Lemma sqrt2_pos : 0 < sqrt 2.
Proof. apply sqrt_lt_R0; lra. Qed.

Lemma inv_sqrt2_sq : (1 / sqrt 2) * (1 / sqrt 2) = 1 / 2.
Proof.
  pose proof sqrt2_sq. pose proof sqrt2_pos.
  field_simplify_eq; lra.
Qed.

Lemma inv_sqrt2_pos : 0 < 1 / sqrt 2.
Proof. pose proof sqrt2_pos. apply Rdiv_lt_0_compat; lra. Qed.

Lemma Cabs_real (r : R) : 0 <= r -> Cabs (r, 0) = r.
Proof.
  intros Hr. unfold Cabs, Cnorm2; simpl.
  replace (r * r + 0 * 0) with (Rsqr r) by (unfold Rsqr; ring).
  now apply sqrt_Rsqr.
Qed.

Lemma Cabs_C0 : Cabs (0, 0) = 0.
Proof. apply Cabs_real. lra. Qed.

Lemma Cnorm2_nonneg (a : C) : 0 <= Cnorm2 a.
Proof. unfold Cnorm2. nra. Qed.

(** ** Replaying concrete circuits *)

(** The structure of a replay is computed; the real arithmetic is left to
    the amplitudes. *)
Ltac compute_sv :=
  cbv - [Rplus Rmult Rminus Ropp Rinv Rdiv sqrt cos sin acos atan PI IZR
         Rlt_dec Rle_dec].

Ltac solve_amps :=
  repeat (apply f_equal2; [ | try reflexivity ]);
  try reflexivity;
  pose proof inv_sqrt2_sq;
  generalize dependent (1 / sqrt 2); intros; nra.

Lemma bell_statevector :
  evolve 2 [Gate.H 0; Gate.CX 0 1] (initialize 2)
  = Ok [(1 / sqrt 2, 0); (0, 0); (0, 0); (1 / sqrt 2, 0)].
Proof. compute_sv. f_equal. solve_amps. Qed.

Lemma ghz_statevector :
  evolve 3 [Gate.H 0; Gate.CX 0 1; Gate.CX 0 2] (initialize 3)
  = Ok [(1 / sqrt 2, 0); (0, 0); (0, 0); (0, 0);
        (0, 0); (0, 0); (0, 0); (1 / sqrt 2, 0)].
Proof. compute_sv. f_equal. solve_amps. Qed.

Lemma h_h_statevector :
  evolve 1 [Gate.H 0; Gate.H 0] (initialize 1) = Ok [(1, 0); (0, 0)].
Proof. compute_sv. f_equal. solve_amps. Qed.

Lemma h_statevector :
  evolve 1 [Gate.H 0] (initialize 1) = Ok [(1 / sqrt 2, 0); (1 / sqrt 2, 0)].
Proof. compute_sv. f_equal. solve_amps. Qed.

(** Case analysis on an index below a small bound. *)
Ltac index_cases i Hi :=
  repeat (destruct i as [| i]; [ | try (exfalso; simpl in Hi; lia) ]).

(** C2: [create_bell_state('phi_plus')] is the circuit H(0), CX(0,1); its
    statevector has magnitude 1/sqrt 2 at indices 0 and 3 and 0 at indices 1
    and 2; 1000 shots of the measured circuit give only "00" and "11",
    whatever the generator draws. *)
Theorem bell_phi_plus (draws : nat -> R) :
  uniform_draws draws ->
  create_bell_state "phi_plus" = Ok (mkQC 2 2 [Gate.H 0; Gate.CX 0 1]) /\
  (exists sv,
      (qc <- create_bell_state "phi_plus" ;; from_instruction qc) = Ok sv /\
      List.length sv = 4%nat /\
      Cabs (amp sv 0) = 1 / sqrt 2 /\
      Cabs (amp sv 3) = 1 / sqrt 2 /\
      Cabs (amp sv 1) = 0 /\
      Cabs (amp sv 2) = 0) /\
  (exists counts,
      (qc <- qc_bell_measured ;; run_circuit_sampler qc 1000 draws) = Ok counts /\
      total counts = 1000%nat /\
      (forall key, contains counts key = true -> key = "00"%string \/ key = "11"%string) /\
      get counts "01" = 0%nat /\
      get counts "10" = 0%nat).
Proof.
  intros Hrng. split; [reflexivity |]. split.
  - eexists. split; [exact bell_statevector |].
    pose proof inv_sqrt2_pos.
    unfold amp; simpl.
    repeat split; try apply Cabs_C0; apply Cabs_real; lra.
  - destruct (run_circuit_sampler_outcomes
                (mkQC 2 2 [Gate.H 0; Gate.CX 0 1; Gate.Measure 0 0; Gate.Measure 1 1])
                1000 draws [Gate.H 0; Gate.CX 0 1] [(0, 0); (1, 1)]%nat _
                ltac:(lia) eq_refl bell_statevector ltac:(discriminate) Hrng)
      as (counts & Hrun & Htot & Hkeys & Habs).
    exists counts. split; [exact Hrun |]. split; [exact Htot |].
    assert (Hsupp : forall i key,
               (i < 4)%nat ->
               0 < Cnorm2 (amp [(1 / sqrt 2, 0); (0, 0); (0, 0); (1 / sqrt 2, 0)] i) ->
               key = outcome [(0, 0); (1, 1)]%nat 2 i ->
               key = "00"%string \/ key = "11"%string).
    { intros i key Hi Hp ->.
      index_cases i Hi; unfold amp, Cnorm2 in Hp; simpl in Hp;
        try lra; [now left | now right]. }
    split; [| split].
    + intros key Hc. destruct (Hkeys key Hc) as (i & Hi & Hp & E).
      now apply (Hsupp i).
    + apply Habs. intros i Hi Hp E.
      destruct (Hsupp i _ Hi Hp E); discriminate.
    + apply Habs. intros i Hi Hp E.
      destruct (Hsupp i _ Hi Hp E); discriminate.
Qed.

Lemma bell_phi_plus_witness :
  exists counts,
    (qc <- qc_bell_measured ;; run_circuit_sampler qc 1000 (fun _ => 0)) = Ok counts /\
    total counts = 1000%nat /\
    (forall key, contains counts key = true -> key = "00"%string \/ key = "11"%string) /\
    get counts "01" = 0%nat /\
    get counts "10" = 0%nat.
Proof.
  refine (proj2 (proj2 (bell_phi_plus (fun _ => 0) _))).
  intros _. lra.
Defined.

(** C3: the GHZ circuit of [ghz_experiments], H(0), CX(0,1), CX(0,2), has a
    statevector of magnitude 1/sqrt 2 at indices 0 and 7 and 0 at the six
    others; measured in the computational basis, every shot is "000" or
    "111". *)
Theorem ghz_state (shots : Z) (draws : nat -> R) :
  (0 < shots)%Z ->
  uniform_draws draws ->
  qc_ghz_sv = Ok (mkQC 3 0 [Gate.H 0; Gate.CX 0 1; Gate.CX 0 2]) /\
  (exists sv,
      (qc <- qc_ghz_sv ;; from_instruction qc) = Ok sv /\
      List.length sv = 8%nat /\
      Cabs (amp sv 0) = 1 / sqrt 2 /\
      Cabs (amp sv 7) = 1 / sqrt 2 /\
      (forall i, i <> 0%nat -> i <> 7%nat -> Cabs (amp sv i) = 0)) /\
  (exists counts,
      (qc <- qc_ghz ;; run_and_print qc shots false draws)
      = Ok (mkOut (Some counts) [] None) /\
      total counts = Z.to_nat shots /\
      (forall key, contains counts key = true ->
                   key = "000"%string \/ key = "111"%string)).
Proof.
  intros Hs Hrng. split; [reflexivity |]. split.
  - eexists. split; [exact ghz_statevector |].
    pose proof inv_sqrt2_pos.
    split; [reflexivity |]. split; [apply Cabs_real; lra |].
    split; [apply Cabs_real; lra |].
    intros i H0 H7. unfold amp.
    do 8 (destruct i as [| i]; [try congruence; apply Cabs_C0 |]).
    simpl. destruct i; apply Cabs_C0.
  - destruct (run_circuit_sampler_outcomes
                (mkQC 3 3 [Gate.H 0; Gate.CX 0 1; Gate.CX 0 2;
                           Gate.Measure 0 0; Gate.Measure 1 1; Gate.Measure 2 2])
                shots draws [Gate.H 0; Gate.CX 0 1; Gate.CX 0 2]
                [(0, 0); (1, 1); (2, 2)]%nat _
                Hs eq_refl ghz_statevector ltac:(discriminate) Hrng)
      as (counts & Hrun & Htot & Hkeys & _).
    exists counts. split; [| split; [exact Htot |]].
    + change (qc_ghz) with
        (Ok (mkQC 3 3 [Gate.H 0; Gate.CX 0 1; Gate.CX 0 2;
                       Gate.Measure 0 0; Gate.Measure 1 1; Gate.Measure 2 2])).
      unfold bind at 1. unfold run_and_print.
      destruct (Z.ltb_spec 0 shots); [| lia].
      now rewrite Hrun.
    + intros key Hc. destruct (Hkeys key Hc) as (i & Hi & Hp & ->).
      index_cases i Hi; unfold amp, Cnorm2 in Hp; simpl in Hp;
        try lra; [now left | now right].
Qed.

Lemma ghz_state_witness :
  exists counts,
    (qc <- qc_ghz ;; run_and_print qc 2048 false (fun _ => 0))
    = Ok (mkOut (Some counts) [] None) /\
    total counts = Z.to_nat 2048 /\
    (forall key, contains counts key = true ->
                 key = "000"%string \/ key = "111"%string).
Proof.
  refine (proj2 (proj2 (ghz_state 2048 (fun _ => 0) _ _))).
  - reflexivity.
  - intros _. lra.
Defined.

(** C8: H applied twice to one qubit at |0> gives the statevector [1, 0],
    and 1000 shots of that circuit give exactly the counts {"0": 1000},
    whatever the generator draws. *)
Theorem h_h_identity (draws : nat -> R) :
  uniform_draws draws ->
  qc_h_h = Ok (mkQC 1 1 [Gate.H 0; Gate.H 0; Gate.Measure 0 0]) /\
  (qc <- qc_h_h ;; from_instruction (remove_final_measurements qc))
  = Ok [(1, 0); (0, 0)] /\
  (qc <- qc_h_h ;; run_circuit_sampler qc 1000 draws) = Ok [("0"%string, 1000%nat)].
Proof.
  intros Hrng. split; [reflexivity |]. split; [exact h_h_statevector |].
  change qc_h_h with (Ok (mkQC 1 1 [Gate.H 0; Gate.H 0; Gate.Measure 0 0])).
  unfold bind at 1.
  rewrite (run_circuit_sampler_ok _ 1000 draws [Gate.H 0; Gate.H 0] [(0, 0)]%nat
             [(1, 0); (0, 0)]) by (try reflexivity; try exact h_h_statevector;
                                    try lia; discriminate).
  f_equal.
  rewrite (get_counts_constant "0").
  - now rewrite sample_memory_length.
  - intros E. apply (f_equal (@List.length string)) in E.
    rewrite sample_memory_length in E. discriminate E.
  - intros key Hin.
    simpl num_clbits in Hin.
    destruct (sample_memory_support [(1, 0); (0, 0)] [(0, 0)]%nat 1 (Z.to_nat 1000)
                draws key) as (i & Hi & Hp & ->);
      [ | exact Hrng | exact Hin | ].
    + unfold norm2, probabilities, Rsum, Cnorm2; simpl. lra.
    + index_cases i Hi; unfold amp, Cnorm2 in Hp; simpl in Hp; try lra.
      reflexivity.
Qed.

Lemma h_h_identity_witness :
  (qc <- qc_h_h ;; run_circuit_sampler qc 1000 (fun _ => 1 / 2))
  = Ok [("0"%string, 1000%nat)].
Proof.
  refine (proj2 (proj2 (h_h_identity (fun _ => 1 / 2) _))).
  intros _. lra.
Defined.

(** ** Errors of the factories *)

(** C7: a Bell variant outside the four names, and a W state on fewer than
    two qubits, raise [ValueError] (the invalid-parameter error); no circuit
    is returned. *)
Theorem factories_reject_invalid_parameters (variant : string) (n_qubits : Z) :
  ~ In variant ["phi_plus"; "phi_minus"; "psi_plus"; "psi_minus"]%string ->
  (n_qubits < 2)%Z ->
  create_bell_state variant
  = Raise (ValueError (String.append "Unknown Bell state variant: " variant)) /\
  create_w_state n_qubits
  = Raise (ValueError "W state requires at least 2 qubits") /\
  (forall e, create_bell_state variant = Raise e \/ create_w_state n_qubits = Raise e ->
             kind_of e = InvalidParameterError).
Proof.
  intros Hv Hn.
  assert (Hb : create_bell_state variant
               = Raise (ValueError (String.append "Unknown Bell state variant: " variant))).
  { unfold create_bell_state.
    repeat match goal with
           | |- context [String.eqb variant ?s] =>
               destruct (String.eqb_spec variant s) as [-> | _];
               [exfalso; apply Hv; simpl; tauto |]
           end.
    reflexivity. }
  assert (Hw : create_w_state n_qubits
               = Raise (ValueError "W state requires at least 2 qubits")).
  { unfold create_w_state. destruct (Z.ltb_spec n_qubits 2); [reflexivity | lia]. }
  split; [exact Hb |]. split; [exact Hw |].
  intros e [He | He]; rewrite ?Hb, ?Hw in He; injection He as <-; reflexivity.
Qed.

Lemma factories_reject_invalid_parameters_witness :
  create_bell_state "unknown"
  = Raise (ValueError "Unknown Bell state variant: unknown") /\
  create_w_state 1
  = Raise (ValueError "W state requires at least 2 qubits").
Proof.
  destruct (factories_reject_invalid_parameters "unknown" 1) as (Hb & Hw & _).
  - simpl. intros [H | [H | [H | [H | []]]]]; discriminate H.
  - reflexivity.
  - split; [exact Hb | exact Hw].
Defined.

(** ** Normalization *)

Lemma evolve_total (n : nat) (gates : list Gate.instruction) :
  forallb (fun ins => negb (is_measure ins) && valid_instruction n 0 ins) gates = true ->
  forall sv, exists sv', evolve n gates sv = Ok sv'.
Proof.
  induction gates as [| g gates IH]; simpl; intros Hv sv; [now eexists |].
  apply andb_prop in Hv. destruct Hv as [Hg Hv].
  apply andb_prop in Hg. destruct Hg as [Hm Hg].
  unfold apply. apply negb_true_iff in Hm. rewrite Hm, Hg. simpl.
  now apply IH.
Qed.

Lemma forallb_firstn {A : Type} (f : A -> bool) (k : nat) (l : list A) :
  forallb f l = true -> forallb f (firstn k l) = true.
Proof.
  revert k. induction l as [| a l IH]; intros [| k]; simpl; auto.
  intros H. apply andb_prop in H. destruct H as [-> H]. simpl. now apply IH.
Qed.

(** C4, in exact arithmetic: the replay of a circuit of supported gates from
    the all-zero state succeeds, and the squared magnitudes of the
    statevector sum to 1, exactly, at the end and after every gate (every
    prefix of the circuit).  The gates are unitary; what rounding does to
    the sum is the subject of the binary64 replay below. *)
Theorem statevector_normalized (qc : QuantumCircuit) :
  unitary_circuit qc = true ->
  (exists sv, from_instruction qc = Ok sv /\
              norm2 sv = 1 /\ Rabs (norm2 sv - 1) <= 1e-9) /\
  (forall k, exists sv,
      evolve (num_qubits qc) (firstn k (data qc)) (initialize (num_qubits qc)) = Ok sv /\
      norm2 sv = 1 /\ Rabs (norm2 sv - 1) <= 1e-9).
Proof.
  intros Hu.
  assert (Hpre : forall gates,
             forallb (fun ins => negb (is_measure ins)
                                 && valid_instruction (num_qubits qc) 0 ins) gates = true ->
             exists sv,
               evolve (num_qubits qc) gates (initialize (num_qubits qc)) = Ok sv /\
               norm2 sv = 1 /\ Rabs (norm2 sv - 1) <= 1e-9).
  { intros gates Hg.
    destruct (evolve_total _ _ Hg (initialize (num_qubits qc))) as [sv Hsv].
    exists sv. split; [exact Hsv |].
    destruct (evolve_norm2 _ _ _ Hsv) as [_ Hn].
    split; [exact Hn |]. rewrite Hn.
    replace (1 - 1) with 0 by ring. rewrite Rabs_R0. lra. }
  split.
  - apply Hpre. exact Hu.
  - intros k. apply Hpre. now apply forallb_firstn.
Qed.

Lemma statevector_normalized_witness :
  exists sv,
    evolve 2 (firstn 1 [Gate.H 0; Gate.CX 0 1]) (initialize 2) = Ok sv /\
    norm2 sv = 1 /\ Rabs (norm2 sv - 1) <= 1e-9.
Proof.
  exact (proj2 (statevector_normalized (mkQC 2 0 [Gate.H 0; Gate.CX 0 1]) eq_refl) 1%nat).
Defined.

(** ** Normalization in binary64 *)

Lemma F64_iter_failed (n : nat) (g : F64.gate) (m : nat) (kind : error_kind) :
  Nat.iter m (F64.step n g) (F64.Failed kind) = F64.Failed kind.
Proof. induction m as [| m IH]; simpl; [reflexivity | now rewrite IH]. Qed.

(** A circuit of [k] copies of one gate is [k] steps of the engine. *)
Lemma F64_evolve_repeat (n : nat) (g : F64.gate) (k : N) (sv : F64.Statevector) :
  F64.evolve n (repeat g (N.to_nat k)) sv = N.iter k (F64.step n g) (F64.Done sv).
Proof.
  rewrite N2Nat.inj_iter. generalize (N.to_nat k) as m. intros m. revert sv.
  induction m as [| m IH]; intros sv; [reflexivity |].
  rewrite Nat.iter_succ_r. cbn [repeat F64.evolve].
  change (F64.step n g (F64.Done sv)) with (F64.apply n g sv).
  destruct (F64.apply n g sv) as [sv' | kind].
  - apply IH.
  - symmetry. apply F64_iter_failed.
Qed.

(** One million H gates take each recorded amplitude to the next one, the
    check of the engine never firing. *)
Lemma F64_million_H_gates (i : nat) :
  (i < 10)%nat ->
  N.iter 1000000 (F64.step 1 (F64.H 0)) (F64.Done (F64.state (F64.after_million i)))
  = F64.Done (F64.state (F64.after_million (S i))).
Proof.
  intros Hi.
  do 10 (destruct i as [| i]; [vm_compute; reflexivity |]).
  lia.
Qed.

Lemma F64_ten_million_H_gates :
  F64.evolve 1 (repeat (F64.H 0) (N.to_nat 10000000)) (F64.initialize 1)
  = F64.Done (F64.state (F64.after_million 10)).
Proof.
  rewrite F64_evolve_repeat.
  change (F64.initialize 1) with (F64.state (F64.after_million 0)).
  replace 10000000%N
    with (1000000 + (1000000 + (1000000 + (1000000 + (1000000
          + (1000000 + (1000000 + (1000000 + (1000000 + 1000000)))))))))%N
    by reflexivity.
  rewrite !N.iter_add.
  now rewrite !F64_million_H_gates by lia.
Qed.

(** C4, counterexample: in binary64 the sum of the squared magnitudes is
    [1 - 2^-52] after one H gate on one qubit, and after ten million H gates
    it is about [1 - 1.57e-9], farther from 1 than the tolerance 1e-9; the
    replay ends normally, the engine's own check (1e-6) never firing. *)
Lemma binary64_norm_drifts :
  (exists sv,
      F64.evolve 1 [F64.H 0] (F64.initialize 1) = F64.Done sv /\
      F64.norm2 sv = F64.norm2_after_one /\
      F64.within_tolerance sv = true) /\
  (exists sv,
      F64.evolve 1 (repeat (F64.H 0) (N.to_nat 10000000)) (F64.initialize 1)
      = F64.Done sv /\
      F64.norm2 sv = F64.norm2_after_ten_million /\
      F64.within_tolerance sv = false).
Proof.
  split.
  - eexists. split; [vm_compute; reflexivity |].
    split; vm_compute; reflexivity.
  - exists (F64.state (F64.after_million 10)).
    split; [exact F64_ten_million_H_gates |].
    split; vm_compute; reflexivity.
Qed.

(** ** Reproducibility of the sampler *)

Lemma all_equal_repeat {A : Type} (a : A) (l : list A) :
  (forall b, In b l -> b = a) -> l = repeat a (List.length l).
Proof.
  induction l as [| b l IH]; simpl; intros Hall; [reflexivity |].
  rewrite (Hall b) by now left.
  f_equal. apply IH. intros b' Hb'. apply Hall. now right.
Qed.

(** On a statevector with a single basis state, every draw gives that
    state. *)
Lemma sample_memory_basis_state (sv : Statevector) (meas : list (nat * nat))
    (m shots : nat) (draws : nat -> R) (k : nat) :
  norm2 sv = 1 ->
  uniform_draws draws ->
  (forall i, i <> k -> amp sv i = C0) ->
  sample_memory sv meas m shots draws = repeat (outcome meas m k) shots.
Proof.
  intros Hnorm Hrng Hk.
  rewrite <- (sample_memory_length sv meas m shots draws) at 2.
  apply all_equal_repeat. intros key Hin.
  destruct (sample_memory_support sv meas m shots draws key Hnorm Hrng Hin)
    as (i & _ & Hp & ->).
  destruct (Nat.eq_dec i k) as [-> | Hne]; [reflexivity |].
  rewrite (Hk i Hne) in Hp. unfold Cnorm2, C0 in Hp; simpl in Hp. lra.
Qed.

(** The sampler with a generator that always draws [u]. *)
Lemma sample_memory_constant (sv : Statevector) (meas : list (nat * nat))
    (m shots : nat) (u : R) :
  sample_memory sv meas m shots (fun _ => u)
  = repeat (outcome meas m (inverse_cdf (probabilities sv) 0 u)) shots.
Proof.
  rewrite <- (sample_memory_length sv meas m shots (fun _ => u)) at 2.
  apply all_equal_repeat. intros key Hin.
  unfold sample_memory in Hin. apply in_map_iff in Hin.
  now destruct Hin as [k [<- _]].
Qed.

Lemma get_counts_repeat (key : string) (shots : nat) :
  get_counts (repeat key (S shots)) = [(key, S shots)].
Proof.
  rewrite (get_counts_constant key).
  - now rewrite repeat_length.
  - discriminate.
  - intros k Hk. now apply repeat_spec in Hk.
Qed.

(** On a circuit whose measured statevector is a single basis state the
    counts do not depend on the draws at all. *)
Lemma sampler_reproducible_on_basis_state
    (qc : QuantumCircuit) (shots : Z) (draws1 draws2 : nat -> R)
    (gates : list Gate.instruction) (meas : list (nat * nat))
    (sv : Statevector) (k : nat) :
  uniform_draws draws1 ->
  uniform_draws draws2 ->
  final_measurements (data qc) = (gates, meas) ->
  evolve (num_qubits qc) gates (initialize (num_qubits qc)) = Ok sv ->
  (forall i, i <> k -> amp sv i = C0) ->
  run_circuit_sampler qc shots draws1 = run_circuit_sampler qc shots draws2.
Proof.
  intros H1 H2 Hf He Hk.
  destruct (evolve_norm2 _ _ _ He) as [_ Hnorm].
  unfold run_circuit_sampler.
  destruct (shots <=? 0)%Z; [reflexivity |].
  rewrite Hf, He. simpl.
  destruct (num_clbits qc =? 0)%nat; [reflexivity |].
  now rewrite (sample_memory_basis_state sv meas _ _ draws1 k),
              (sample_memory_basis_state sv meas _ _ draws2 k).
Qed.




(** ** Shot counts that are not positive *)

(** C6, as the code has it: with [shots <= 0] the sampler itself (and
    [run_show], which calls it unguarded) raises [ValueError], while
    [run_and_print] skips the sampling, prints no counts and goes on to the
    statevector part. *)
Theorem nonpositive_shots (qc : QuantumCircuit) (shots : Z)
    (show_statevector : bool) (draws : nat -> R) :
  (shots <= 0)%Z ->
  run_circuit_sampler qc shots draws = Raise (ValueError "shots must be positive") /\
  run_show qc shots show_statevector draws
  = Raise (ValueError "shots must be positive") /\
  run_and_print qc shots show_statevector draws
  = (if show_statevector then
       sv <- from_instruction (remove_final_measurements qc) ;;
       Ok (mkOut None (amplitude_lines 3 sv) (Some sv))
     else Ok (mkOut None [] None)).
Proof.
  intros Hs.
  assert (E : run_circuit_sampler qc shots draws
              = Raise (ValueError "shots must be positive")).
  { unfold run_circuit_sampler. destruct (Z.leb_spec shots 0); [reflexivity | lia]. }
  split; [exact E |]. split.
  - unfold run_show. now rewrite E.
  - unfold run_and_print. destruct (Z.ltb_spec 0 shots); [lia | reflexivity].
Qed.

Lemma nonpositive_shots_witness :
  run_circuit_sampler (mkQC 3 0 [Gate.H 0; Gate.CX 0 1; Gate.CX 0 2]) 0 (fun _ => 0)
  = Raise (ValueError "shots must be positive").
Proof.
  refine (proj1 (nonpositive_shots (mkQC 3 0 [Gate.H 0; Gate.CX 0 1; Gate.CX 0 2])
                   0 true (fun _ => 0) _)).
  discriminate.
Defined.

(** C6, counterexample: [run_and_print(qc_ghz_sv, shots=0,
    show_statevector=True)], the call of [ghz_experiments], raises nothing:
    it prints no counts and returns the statevector. *)
Lemma run_and_print_skips_sampling :
  exists lines,
    (qc <- qc_ghz_sv ;; run_and_print qc 0 true (fun _ => 0))
    = Ok (mkOut None lines
                (Some [(1 / sqrt 2, 0); (0, 0); (0, 0); (0, 0);
                       (0, 0); (0, 0); (0, 0); (1 / sqrt 2, 0)])).
Proof.
  eexists.
  change qc_ghz_sv with (Ok (mkQC 3 0 [Gate.H 0; Gate.CX 0 1; Gate.CX 0 2])).
  unfold bind at 1. unfold run_and_print.
  change (0 <? 0)%Z with false. cbv iota. unfold bind at 1.
  change (from_instruction
            (remove_final_measurements (mkQC 3 0 [Gate.H 0; Gate.CX 0 1; Gate.CX 0 2])))
    with (evolve 3 [Gate.H 0; Gate.CX 0 1; Gate.CX 0 2] (initialize 3)).
  rewrite ghz_statevector. reflexivity.
Qed.

(** ** Bitstrings of basis indices *)

Lemma pos_bits_testbit (p : positive) :
  forall q, nth q (rev (pos_bits p)) false = Nat.testbit (Pos.to_nat p) q.
Proof.
  induction p as [p IH | p IH |]; intros q; simpl pos_bits.
  - rewrite rev_app_distr. simpl rev. simpl app.
    rewrite Pos2Nat.inj_xI.
    replace (S (2 * Pos.to_nat p)) with (2 * Pos.to_nat p + 1)%nat by lia.
    destruct q as [| q].
    + now rewrite Nat.testbit_odd_0.
    + rewrite Nat.testbit_odd_succ by lia. apply IH.
  - rewrite rev_app_distr. simpl rev. simpl app.
    rewrite Pos2Nat.inj_xO.
    destruct q as [| q].
    + now rewrite Nat.testbit_even_0.
    + rewrite Nat.testbit_even_succ by lia. apply IH.
  - destruct q as [| q]; [reflexivity |].
    change (Pos.to_nat 1) with (2 * 0 + 1)%nat.
    rewrite Nat.testbit_odd_succ by lia. rewrite Nat.bits_0.
    now destruct q.
Qed.

Lemma nat_bits_testbit (i q : nat) :
  nth q (rev (nat_bits i)) false = Nat.testbit i q.
Proof.
  unfold nat_bits. destruct (N.of_nat i) as [| p] eqn:E.
  - assert (i = 0%nat) by lia. subst i.
    rewrite Nat.bits_0. now destruct q as [| [| q]].
  - assert (i = Pos.to_nat p) by lia. subst i. apply pos_bits_testbit.
Qed.

Lemma pos_bits_length (p : positive) :
  forall n, (Pos.to_nat p < 2 ^ n)%nat -> (List.length (pos_bits p) <= n)%nat.
Proof.
  induction p as [p IH | p IH |]; intros n Hn; simpl pos_bits.
  - rewrite length_app. simpl. rewrite Pos2Nat.inj_xI in Hn.
    destruct n as [| n]; simpl in Hn; [lia |].
    specialize (IH n). lia.
  - rewrite length_app. simpl. rewrite Pos2Nat.inj_xO in Hn.
    destruct n as [| n]; simpl in Hn; [lia |].
    specialize (IH n). lia.
  - destruct n; simpl in *; lia.
Qed.

Lemma nat_bits_length (n i : nat) :
  (i < 2 ^ n)%nat ->
  (1 <= List.length (nat_bits i) <= Nat.max n 1)%nat.
Proof.
  intros Hi. unfold nat_bits. destruct (N.of_nat i) as [| p] eqn:E.
  - simpl. lia.
  - assert (i = Pos.to_nat p) by lia. subst i.
    pose proof (pos_bits_length p n Hi).
    assert (1 <= List.length (pos_bits p))%nat.
    { destruct p; simpl; rewrite ?length_app; simpl; lia. }
    lia.
Qed.

Lemma string_of_bits_length (bs : list bool) :
  String.length (string_of_bits bs) = List.length bs.
Proof. induction bs as [| b bs IH]; simpl; congruence. Qed.

Lemma string_of_bits_get (bs : list bool) :
  forall k, (k < List.length bs)%nat ->
            String.get k (string_of_bits bs) = Some (bit_char (nth k bs false)).
Proof.
  induction bs as [| b bs IH]; simpl; intros k Hk; [lia |].
  destruct k as [| k]; [reflexivity |]. apply IH. lia.
Qed.

(** The binary rendering of an index of an [n]-qubit register has [n]
    characters (one for [n = 0]), and qubit [q] is the character at
    position [q] from the right. *)
Lemma format_b_length (n i : nat) :
  (i < 2 ^ n)%nat -> String.length (format_b n i) = Nat.max n 1.
Proof.
  intros Hi. unfold format_b.
  rewrite string_of_bits_length, length_app, repeat_length.
  pose proof (nat_bits_length n i Hi). lia.
Qed.

Lemma format_b_qubit (n i q : nat) :
  (i < 2 ^ n)%nat -> (q < n)%nat ->
  String.get (n - 1 - q) (format_b n i) = Some (bit_char (Nat.testbit i q)).
Proof.
  intros Hi Hq. unfold format_b.
  pose proof (nat_bits_length n i Hi) as Hb.
  set (bs := nat_bits i) in *.
  set (l := repeat false (n - List.length bs) ++ bs).
  assert (Hl : List.length l = n).
  { unfold l. rewrite length_app, repeat_length. lia. }
  rewrite string_of_bits_get by lia. do 2 f_equal.
  rewrite <- (nat_bits_testbit i q). fold bs.
  replace (n - 1 - q)%nat with (List.length l - S q)%nat by lia.
  rewrite <- rev_nth by lia.
  unfold l. rewrite rev_app_distr.
  destruct (Nat.lt_ge_cases q (List.length (rev bs))) as [Hlt | Hge].
  - now rewrite app_nth1.
  - rewrite app_nth2 by assumption.
    rewrite (nth_overflow (rev bs)) by assumption.
    destruct (nth_in_or_default (q - List.length (rev bs))
                (rev (repeat false (n - List.length bs))) false) as [Hin | E];
      [| exact E].
    apply in_rev in Hin. now apply repeat_spec in Hin.
Qed.

(** ** [print_statevector] *)

Lemma flat_map_if_singleton {A B : Type} (keep : A -> bool) (f : A -> B)
    (l : list A) :
  flat_map (fun a => if keep a then [f a] else []) l = map f (filter keep l).
Proof.
  induction l as [| a l IH]; simpl; [reflexivity |].
  destruct (keep a); simpl; now rewrite IH.
Qed.

Lemma print_statevector_lines (n : nat) (sv : Statevector) (threshold : R) :
  List.length sv = (2 ^ n)%nat ->
  print_statevector sv threshold
  = (n, map (line_of n threshold sv) (filter (above threshold sv) (seq 0 (2 ^ n)))).
Proof.
  intros Hlen. unfold print_statevector.
  rewrite Hlen, Nat.log2_pow2 by lia. f_equal.
  rewrite <- flat_map_if_singleton.
  apply flat_map_ext. intros i. unfold above, line_of, basis_label.
  destruct (Rlt_dec threshold (Cabs (amp sv i))); [| reflexivity].
  now destruct (Rlt_dec (Rabs (Cangle (amp sv i))) threshold).
Qed.

(** C9, as the code has it: [print_statevector] lists, in index order,
    exactly the indices whose magnitude is strictly above the threshold
    (1e-10 by default), each with its magnitude, and with its phase only
    when the absolute value of the phase is not below the threshold; the
    label of an index has one character per qubit, qubit 0 rightmost. *)
Theorem print_statevector_lists_amplitudes (n : nat) (sv : Statevector)
    (threshold : R) :
  List.length sv = (2 ^ n)%nat ->
  default_threshold = 1e-10 /\
  print_statevector sv threshold
  = (n, map (line_of n threshold sv) (filter (above threshold sv) (seq 0 (2 ^ n)))) /\
  (forall i, In i (filter (above threshold sv) (seq 0 (2 ^ n))) <->
             (i < 2 ^ n)%nat /\ threshold < Cabs (amp sv i)) /\
  (forall i, magnitude (line_of n threshold sv i) = Cabs (amp sv i) /\
             (phase (line_of n threshold sv i) = None <->
              Rabs (Cangle (amp sv i)) < threshold) /\
             (Rabs (Cangle (amp sv i)) >= threshold ->
              phase (line_of n threshold sv i) = Some (Cangle (amp sv i)))) /\
  (forall i, (i < 2 ^ n)%nat ->
             String.length (format_b n i) = Nat.max n 1 /\
             forall q, (q < n)%nat ->
                       String.get (n - 1 - q) (format_b n i)
                       = Some (bit_char (Nat.testbit i q))).
Proof.
  intros Hlen. split; [reflexivity |].
  split; [now apply print_statevector_lines |]. split; [| split].
  - intros i. rewrite filter_In, in_seq. unfold above.
    destruct (Rlt_dec threshold (Cabs (amp sv i))); split;
      intros [H1 H2]; try discriminate; try contradiction; (split; [lia | auto]).
  - intros i. unfold line_of. simpl.
    destruct (Rlt_dec (Rabs (Cangle (amp sv i))) threshold) as [Hlt | Hge].
    + split; [reflexivity |]. split; [tauto | intros; lra].
    + split; [reflexivity |]. split; [| reflexivity].
      split; [discriminate | contradiction].
  - intros i Hi. split; [now apply format_b_length |].
    intros q Hq. now apply format_b_qubit.
Qed.

Lemma print_statevector_lists_amplitudes_witness :
  print_statevector [(1, 0); (0, 0)] 1e-10
  = (1%nat,
     map (line_of 1 1e-10 [(1, 0); (0, 0)])
         (filter (above 1e-10 [(1, 0); (0, 0)]) (seq 0 (2 ^ 1)))).
Proof.
  exact (proj1 (proj2 (print_statevector_lists_amplitudes 1 [(1, 0); (0, 0)] 1e-10
                         eq_refl))).
Defined.

(** C9, counterexample: on the statevector [1, 0] with the default
    threshold, the only line printed is that of |0>, with its magnitude and
    without a phase. *)
Lemma print_statevector_omits_zero_phase :
  print_statevector [(1, 0); (0, 0)] default_threshold
  = (1%nat, [mkLine "|0⟩" 1 None]).
Proof.
  rewrite (print_statevector_lines 1) by reflexivity. f_equal.
  unfold default_threshold.
  assert (E1 : Cabs (1, 0) = 1) by (apply Cabs_real; lra).
  assert (E0 : Cabs (0, 0) = 0) by apply Cabs_C0.
  simpl. unfold above, amp. simpl nth. rewrite E1, E0.
  destruct (Rlt_dec 1e-10 1) as [_ | H]; [| exfalso; apply H; lra].
  destruct (Rlt_dec 1e-10 0) as [H | _]; [exfalso; lra |].
  simpl. unfold line_of, amp. simpl nth. rewrite E1. f_equal.
  assert (Ea : Cangle (1, 0) = 0).
  { unfold Cangle. destruct (Rlt_dec 0 1) as [_ | H]; [| exfalso; apply H; lra].
    replace (0 / 1) with 0 by field. apply atan_0. }
  rewrite Ea, Rabs_R0.
  destruct (Rlt_dec 0 1e-10) as [_ | H]; [reflexivity | exfalso; apply H; lra].
Qed.

(** ** [compare_circuits] *)

Lemma dot_conj_phase (z : C) (sv : Statevector) :
  dot (map Cconj sv) (map (Cmult z) sv) = (fst z * norm2 sv, snd z * norm2 sv).
Proof.
  unfold dot, norm2, probabilities, Rsum.
  induction sv as [| [x0 y0] sv IH]; simpl.
  - unfold C0. f_equal; ring.
  - rewrite IH. destruct z as [u v]. unfold Cplus, Cmult, Cconj, Cnorm2; simpl.
    f_equal; ring.
Qed.

Lemma Cabs_scaled (z : C) (r : R) :
  0 <= r -> Cabs (fst z * r, snd z * r) = Cabs z * r.
Proof.
  intros Hr. destruct z as [u v]. unfold Cabs, Cnorm2; simpl.
  replace (u * r * (u * r) + v * r * (v * r)) with ((u * u + v * v) * (r * r)) by ring.
  rewrite sqrt_mult by nra.
  f_equal. replace (r * r) with (Rsqr r) by (unfold Rsqr; ring).
  now apply sqrt_Rsqr.
Qed.

Lemma fidelity_same_up_to_phase (sv1 sv2 : Statevector) :
  norm2 sv1 = 1 -> same_up_to_phase sv1 sv2 -> fidelity sv1 sv2 = 1.
Proof.
  intros Hn (z & Hz & ->). unfold fidelity.
  rewrite dot_conj_phase, Cabs_scaled by (rewrite Hn; lra).
  rewrite Hz, Hn. ring.
Qed.

Lemma isclose_spec (a b : R) :
  isclose a b = true <-> Rabs (a - b) <= atol + rtol * Rabs b.
Proof.
  unfold isclose. destruct (Rle_dec (Rabs (a - b)) (atol + rtol * Rabs b));
    split; auto; discriminate.
Qed.

Lemma compare_circuits_ok (qc1 qc2 : QuantumCircuit) (sv1 sv2 : Statevector) :
  from_instruction qc1 = Ok sv1 ->
  from_instruction qc2 = Ok sv2 ->
  List.length sv1 = List.length sv2 ->
  compare_circuits qc1 qc2
  = Ok (mkCmp (print_statevector sv1 default_threshold)
              (print_statevector sv2 default_threshold)
              (fidelity sv1 sv2) (isclose (fidelity sv1 sv2) 1)).
Proof.
  intros H1 H2 Hl. unfold compare_circuits. rewrite H1, H2. simpl.
  now rewrite Hl, Nat.eqb_refl.
Qed.

(** C10, as the code has it: on two measurement-free circuits of one width,
    [compare_circuits] returns True exactly when the fidelity is within
    NumPy's tolerance of 1; it does so whenever the two statevectors are
    equal up to a global phase, and its answer depends on the circuits
    through their statevectors only. *)
Theorem compare_circuits_fidelity (qc1 qc2 : QuantumCircuit) :
  unitary_circuit qc1 = true ->
  unitary_circuit qc2 = true ->
  num_qubits qc1 = num_qubits qc2 ->
  exists sv1 sv2 c,
    from_instruction qc1 = Ok sv1 /\
    from_instruction qc2 = Ok sv2 /\
    compare_circuits qc1 qc2 = Ok c /\
    printed_fidelity c = fidelity sv1 sv2 /\
    (equivalent c = true <-> Rabs (fidelity sv1 sv2 - 1) <= 1e-8 + 1e-5 * Rabs 1) /\
    (same_up_to_phase sv1 sv2 -> equivalent c = true) /\
    (forall qc1' qc2',
        from_instruction qc1' = Ok sv1 ->
        from_instruction qc2' = Ok sv2 ->
        compare_circuits qc1' qc2' = Ok c).
Proof.
  intros Hu1 Hu2 Hn.
  destruct (evolve_total _ _ Hu1 (initialize (num_qubits qc1))) as [sv1 H1].
  destruct (evolve_total _ _ Hu2 (initialize (num_qubits qc2))) as [sv2 H2].
  destruct (evolve_norm2 _ _ _ H1) as [Hl1 Hn1].
  destruct (evolve_norm2 _ _ _ H2) as [Hl2 Hn2].
  assert (Hl : List.length sv1 = List.length sv2) by congruence.
  exists sv1, sv2. eexists.
  split; [exact H1 |]. split; [exact H2 |].
  split; [apply compare_circuits_ok; [exact H1 | exact H2 | exact Hl] |]. simpl.
  split; [reflexivity |]. split; [apply isclose_spec |]. split.
  - intros Hp. apply isclose_spec.
    rewrite (fidelity_same_up_to_phase _ _ Hn1 Hp).
    replace (1 - 1) with 0 by ring. rewrite Rabs_R0, Rabs_R1.
    unfold atol, rtol. lra.
  - intros qc1' qc2' H1' H2'. now apply compare_circuits_ok.
Qed.

Lemma compare_circuits_fidelity_witness :
  exists sv1 sv2 c,
    from_instruction (mkQC 1 0 [Gate.H 0; Gate.H 0]) = Ok sv1 /\
    from_instruction (mkQC 1 0 []) = Ok sv2 /\
    compare_circuits (mkQC 1 0 [Gate.H 0; Gate.H 0]) (mkQC 1 0 []) = Ok c /\
    printed_fidelity c = fidelity sv1 sv2 /\
    (equivalent c = true <-> Rabs (fidelity sv1 sv2 - 1) <= 1e-8 + 1e-5 * Rabs 1) /\
    (same_up_to_phase sv1 sv2 -> equivalent c = true) /\
    (forall qc1' qc2',
        from_instruction qc1' = Ok sv1 ->
        from_instruction qc2' = Ok sv2 ->
        compare_circuits qc1' qc2' = Ok c).
Proof.
  exact (compare_circuits_fidelity (mkQC 1 0 [Gate.H 0; Gate.H 0]) (mkQC 1 0 [])
           eq_refl eq_refl eq_refl).
Defined.

Lemma RY_half_angle (x0 : R) :
  0 <= x0 <= 1 ->
  cos (2 * acos x0 / 2) = x0 /\ sin (2 * acos x0 / 2) = sqrt (1 - x0 * x0).
Proof.
  intros Hx. replace (2 * acos x0 / 2) with (acos x0) by field.
  split; [apply cos_acos; lra |].
  rewrite sin_acos by lra. reflexivity.
Qed.

(** C10, counterexample: the empty one-qubit circuit and the rotation
    RY(2 arccos 0.999999) are judged equivalent, though their statevectors
    [1, 0] and [0.999999, sqrt (1 - 0.999999^2)] differ by more than a
    global phase. *)
Lemma compare_circuits_accepts_different_states :
  exists sv1 sv2 c,
    from_instruction (mkQC 1 0 []) = Ok sv1 /\
    from_instruction (mkQC 1 0 [Gate.RY (2 * acos (999999 / 1000000)) 0]) = Ok sv2 /\
    compare_circuits (mkQC 1 0 []) (mkQC 1 0 [Gate.RY (2 * acos (999999 / 1000000)) 0]) = Ok c /\
    equivalent c = true /\
    ~ same_up_to_phase sv1 sv2.
Proof.
  destruct (RY_half_angle (999999 / 1000000)) as [Ec Es]; [lra |].
  assert (Hs : 0 < sqrt (1 - 999999 / 1000000 * (999999 / 1000000))) by (apply sqrt_lt_R0; lra).
  assert (H2 : from_instruction (mkQC 1 0 [Gate.RY (2 * acos (999999 / 1000000)) 0])
               = Ok [(999999 / 1000000, 0); (sqrt (1 - 999999 / 1000000 * (999999 / 1000000)), 0)]).
  { compute_sv. rewrite Ec, Es.
    generalize dependent (sqrt (1 - 999999 / 1000000 * (999999 / 1000000))).
    intros r _ _. f_equal.
    repeat (apply f_equal2; [ | try reflexivity ]); lra. }
  exists [(1, 0); (0, 0)], [(999999 / 1000000, 0); (sqrt (1 - 999999 / 1000000 * (999999 / 1000000)), 0)].
  eexists. split; [reflexivity |]. split; [exact H2 |].
  split; [apply compare_circuits_ok; [reflexivity | exact H2 | reflexivity] |].
  simpl. split.
  - apply isclose_spec. unfold fidelity, dot, Cmult, Cconj, Cplus, C0; simpl.
    match goal with
    | |- context [Cabs ?z] => replace z with (999999 / 1000000, 0) by (f_equal; lra)
    end.
    rewrite Cabs_real by lra.
    replace (999999 / 1000000 - 1) with (- (1 / 1000000)) by lra.
    rewrite Rabs_Ropp, Rabs_R1, Rabs_pos_eq by lra.
    unfold atol, rtol. lra.
  - intros ([u v] & _ & E). simpl in E. unfold Cmult in E; simpl in E.
    injection E as _ _ E1 _.
    assert (u * 0 - v * 0 = 0) by ring. lra.
Qed.

(** ** The W-state factory *)

(** The circuit the general construction builds. *)
Lemma fold_cry_ok (n : nat) (angle : nat -> R) (l : list nat) :
  (forall i, In i l -> (1 <= i < n)%nat) ->
  forall gates,
    fold_left (fun acc i => qc' <- acc ;; cry (angle i) (i - 1) i qc') l
              (Ok (mkQC n 0 gates))
    = Ok (mkQC n 0 (gates ++ map (fun i => Gate.CRY (angle i) (i - 1) i) l)).
Proof.
  induction l as [| i l IH]; intros Hl gates; simpl.
  - now rewrite app_nil_r.
  - assert (Hi : (1 <= i < n)%nat) by (apply Hl; now left).
    unfold cry at 2, append. simpl.
    replace ((i - 1 <? n)%nat) with true by (symmetry; apply Nat.ltb_lt; lia).
    replace ((i <? n)%nat) with true by (symmetry; apply Nat.ltb_lt; lia).
    replace ((i - 1 =? i)%nat) with false by (symmetry; apply Nat.eqb_neq; lia).
    simpl. rewrite IH by (intros j Hj; apply Hl; now right).
    now rewrite <- app_assoc.
Qed.

Lemma create_w_state_general (n_qubits : Z) :
  (2 <= n_qubits)%Z -> n_qubits <> 3%Z ->
  create_w_state n_qubits
  = Ok (mkQC (Z.to_nat n_qubits) 0
          (Gate.RY (2 * acos (sqrt (1 / IZR n_qubits))) 0
           :: map (fun i => Gate.CRY (w_angle n_qubits i) (i - 1) i)
                  (seq 1 (Z.to_nat n_qubits - 1)))).
Proof.
  intros H2 H3. unfold create_w_state.
  destruct (Z.ltb_spec n_qubits 2); [lia |].
  destruct (Z.eqb_spec n_qubits 3); [contradiction |].
  unfold ry, append, new_circuit. simpl.
  replace ((0 <? Z.to_nat n_qubits)%nat) with true by (symmetry; apply Nat.ltb_lt; lia).
  simpl. rewrite fold_cry_ok; [reflexivity |].
  intros i Hi. apply in_seq in Hi. lia.
Qed.

Lemma sqrt_inv_range (r : R) : 1 <= r -> 0 <= sqrt (1 / r) <= 1.
Proof.
  intros Hr. split; [apply sqrt_pos |].
  rewrite <- sqrt_1 at 2. apply sqrt_le_1_alt.
  apply Rmult_le_reg_r with r; [lra |]. field_simplify; lra.
Qed.

(** The rotation of angle [2 arccos (sqrt (1 / k))]. *)
Lemma w_rotation (k : R) :
  1 <= k ->
  cos (2 * acos (sqrt (1 / k)) / 2) = sqrt (1 / k) /\
  sin (2 * acos (sqrt (1 / k)) / 2) = sqrt (1 - 1 / k).
Proof.
  intros Hk.
  destruct (RY_half_angle (sqrt (1 / k)) (sqrt_inv_range k Hk)) as [Ec Es].
  split; [exact Ec |]. rewrite Es, sqrt_sqrt; [reflexivity |].
  apply Rlt_le, Rdiv_lt_0_compat; lra.
Qed.

Lemma w3_statevector :
  (qc <- create_w_state 3 ;; from_instruction qc)
  = Ok [(0, 0); (1 / 2, 0); (1 / 2, 0); (0, 0);
        (1 / 2, 0); (0, 0); (0, 0); (1 / 2, 0)].
Proof. compute_sv. f_equal. solve_amps. Qed.

Lemma w2_statevector :
  (qc <- create_w_state 2 ;; from_instruction qc)
  = Ok [(sqrt (1 / 2), 0); (sqrt (1 / 2), 0); (0, 0); (0, 0)].
Proof.
  compute_sv.
  destruct (w_rotation 2) as [Ec2 Es2]; [lra |].
  destruct (w_rotation 1) as [Ec1 Es1]; [lra |].
  rewrite Ec2, Es2, Ec1, Es1.
  replace (1 - 1 / 2) with (1 / 2) by field.
  replace (1 - 1 / 1) with 0 by field. replace (1 / 1) with 1 by field.
  rewrite sqrt_0, sqrt_1.
  generalize (sqrt (1 / 2)). intros r. f_equal.
  repeat (apply f_equal2; [ | try reflexivity ]); lra.
Qed.

(** *** The statevector of the general construction *)

Ltac Csolve :=
  unfold Cplus, Cscale, C0, C1; simpl; apply f_equal2; ring.

Lemma amp_map_seq (f : nat -> C) (N k : nat) :
  (k < N)%nat -> amp (map f (seq 0 N)) k = f k.
Proof.
  intros Hk. unfold amp.
  rewrite (nth_indep _ C0 (f 0%nat)) by now rewrite length_map, length_seq.
  rewrite (map_nth f (seq 0 N) 0%nat k). now rewrite seq_nth.
Qed.

Lemma amp_overflow (sv : Statevector) (k : nat) :
  (List.length sv <= k)%nat -> amp sv k = C0.
Proof. intros Hk. unfold amp. now apply nth_overflow. Qed.

Lemma amp_initialize (n k : nat) :
  amp (initialize n) k = if (k =? 0)%nat then C1 else C0.
Proof.
  unfold amp, initialize. destruct k as [| k]; simpl; [reflexivity |].
  destruct (nth_in_or_default k (repeat C0 (2 ^ n - 1)) C0) as [Hin | E];
    [now apply repeat_spec in Hin | exact E].
Qed.

Lemma ones_bit (i m : nat) : Nat.testbit (Nat.ones i) m = (m <? i)%nat.
Proof.
  destruct (Nat.ltb_spec m i).
  - now apply Nat.ones_spec_low.
  - now apply Nat.ones_spec_high.
Qed.

Lemma partner_ones (j : nat) : partner (Nat.ones j) j = Nat.ones (S j).
Proof.
  unfold partner. apply Nat.bits_inj. intros m.
  rewrite Nat.lxor_spec, !ones_bit, Nat.pow2_bits_eqb.
  destruct (Nat.ltb_spec m j), (Nat.eqb_spec j m), (Nat.ltb_spec m (S j));
    simpl; try reflexivity; lia.
Qed.

Lemma low_ones_spec (n k : nat) :
  low_ones n k = true <-> exists i, (i < n)%nat /\ k = Nat.ones i.
Proof.
  unfold low_ones. rewrite existsb_exists. split.
  - intros (i & Hi & E). apply in_seq in Hi. apply Nat.eqb_eq in E.
    exists i. split; [lia | exact E].
  - intros (i & Hi & ->). exists i. split; [apply in_seq; lia | apply Nat.eqb_refl].
Qed.

Lemma low_ones_succ (n k : nat) :
  low_ones (S n) k = (low_ones n k || (k =? Nat.ones n)%nat)%bool.
Proof.
  unfold low_ones. rewrite seq_S, existsb_app. simpl. now rewrite orb_false_r.
Qed.

(** An index with bit [m] set is none of the indices [2^i - 1], [i <= m]. *)
Lemma low_ones_bit_set (m k : nat) :
  Nat.testbit k m = true -> low_ones (S m) k = false.
Proof.
  intros Hb. destruct (low_ones (S m) k) eqn:E; [| reflexivity].
  apply low_ones_spec in E. destruct E as (i & Hi & ->).
  rewrite ones_bit in Hb. apply Nat.ltb_lt in Hb. lia.
Qed.

Lemma ones_bit_clear (m j k : nat) :
  Nat.testbit k m = false -> (m < j)%nat -> (k =? Nat.ones j)%nat = false.
Proof.
  intros Hb Hm. apply Nat.eqb_neq. intros ->.
  rewrite ones_bit in Hb. apply Nat.ltb_ge in Hb. lia.
Qed.

Lemma ones_bit_set (m j k : nat) :
  Nat.testbit k m = true -> (j <= m)%nat -> (k =? Nat.ones j)%nat = false.
Proof.
  intros Hb Hm. apply Nat.eqb_neq. intros ->.
  rewrite ones_bit in Hb. apply Nat.ltb_lt in Hb. lia.
Qed.

Section GeneralW.

Variable n_qubits : Z.
Hypothesis Hn : (2 <= n_qubits)%Z.

Let n : nat := Z.to_nat n_qubits.
Let c : R := sqrt (1 / IZR n_qubits).

Lemma IZR_n_pos : 2 <= IZR n_qubits.
Proof. now apply IZR_le in Hn. Qed.

(** The two products of a rotation step. *)
Lemma w_step_products (j : nat) :
  (1 <= j < n)%nat ->
  let d := IZR (n_qubits - Z.of_nat j) in
  sqrt (1 / d) * sqrt (d / IZR n_qubits) = c /\
  sqrt (1 - 1 / d) * sqrt (d / IZR n_qubits)
  = sqrt (IZR (n_qubits - Z.of_nat (S j)) / IZR n_qubits).
Proof.
  intros Hj d. pose proof IZR_n_pos as HN.
  assert (Hd : 1 <= d).
  { unfold d. apply IZR_le. unfold n in Hj. lia. }
  assert (Hd' : IZR (n_qubits - Z.of_nat (S j)) = d - 1).
  { unfold d.
    replace (n_qubits - Z.of_nat (S j))%Z with (n_qubits - Z.of_nat j - 1)%Z by lia.
    now rewrite (minus_IZR _ 1). }
  split.
  - rewrite <- sqrt_mult_alt by (apply Rlt_le, Rdiv_lt_0_compat; lra).
    unfold c. f_equal. field. lra.
  - rewrite <- sqrt_mult_alt.
    + rewrite Hd'. f_equal. field. lra.
    + apply Rmult_le_reg_r with d; [lra |]. field_simplify; lra.
Qed.

(** The first rotation. *)
Lemma w_first_rotation (k : nat) :
  (k < 2 ^ n)%nat ->
  amp (apply_gate (RY_matrix (2 * acos (sqrt (1 / IZR n_qubits)))) 0 (initialize n)) k
  = w_partial n_qubits 0 k.
Proof.
  intros Hk. pose proof IZR_n_pos as HN.
  unfold apply_gate. rewrite initialize_length, amp_map_seq by assumption.
  destruct (w_rotation (IZR n_qubits)) as [Ec Es]; [lra |].
  unfold transformed, RY_matrix; simpl. rewrite Ec, Es, !amp_initialize.
  unfold w_partial, low_ones, partner. simpl.
  replace (IZR (n_qubits - 1) / IZR n_qubits) with (1 - 1 / IZR n_qubits)
    by (rewrite minus_IZR; field; lra).
  destruct k as [| [| k]]; simpl.
  - Csolve.
  - Csolve.
  - assert (E : (Nat.lxor (S (S k)) 1 =? 0)%nat = false).
    { apply Nat.eqb_neq. intros E.
      apply (f_equal (fun a => Nat.lxor a 1)) in E.
      rewrite Nat.lxor_assoc, Nat.lxor_nilpotent, Nat.lxor_0_r in E.
      discriminate E. }
    rewrite E.
    match goal with
    | |- context [if ?b then _ else _] => destruct b
    end; Csolve.
Qed.

(** One controlled rotation. *)
Lemma w_controlled_rotation (j : nat) (sv : Statevector) (k : nat) :
  (1 <= j < n)%nat ->
  List.length sv = (2 ^ n)%nat ->
  (forall k', (k' < 2 ^ n)%nat -> amp sv k' = w_partial n_qubits (j - 1) k') ->
  (k < 2 ^ n)%nat ->
  amp (apply_controlled (RY_matrix (w_angle n_qubits j)) (j - 1) j sv) k
  = w_partial n_qubits j k.
Proof.
  intros Hj Hlen Hsv Hk.
  destruct (w_step_products j Hj) as [Pc Ps]. cbv zeta in Pc, Ps. unfold c in Pc.
  assert (Hd : 1 <= IZR (n_qubits - Z.of_nat j)).
  { apply IZR_le. unfold n in Hj. lia. }
  destruct (w_rotation _ Hd) as [Ec Es].
  unfold apply_controlled. rewrite Hlen, amp_map_seq by assumption.
  assert (Hkp : (partner k j < 2 ^ n)%nat) by (apply partner_lt; lia).
  unfold transformed, w_angle, RY_matrix; simpl. rewrite Ec, Es.
  rewrite (Hsv k Hk), (Hsv _ Hkp).
  unfold w_partial. replace (S (j - 1)) with j by lia.
  rewrite (low_ones_succ j k).
  destruct (Nat.testbit k (j - 1)) eqn:A.
  - (* the control bit is set *)
    pose proof (low_ones_bit_set (j - 1) k A) as Lk.
    replace (S (j - 1)) with j in Lk by lia.
    destruct (Nat.testbit k j) eqn:B.
    + (* target bit set: only 2^(j+1) - 1 receives amplitude *)
      assert (Bp : Nat.testbit (partner k j) j = false)
        by (rewrite partner_bit, B; reflexivity).
      assert (Ap : Nat.testbit (partner k j) (j - 1) = true)
        by (rewrite partner_other_bit by lia; exact A).
      pose proof (low_ones_bit_set (j - 1) _ Ap) as Lp.
      replace (S (j - 1)) with j in Lp by lia.
      rewrite Lk, Lp, (ones_bit_set j j k B) by lia. cbv [orb].
      destruct (Nat.eqb_spec (partner k j) (Nat.ones j)) as [E | E].
      * assert (Ek : k = Nat.ones (S j)).
        { rewrite <- partner_ones, <- E. symmetry. apply partner_involutive. }
        rewrite Ek, Nat.eqb_refl.
        rewrite <- Ps. Csolve.
      * destruct (Nat.eqb_spec k (Nat.ones (S j))) as [Ek | Ek].
        { exfalso. apply E. rewrite Ek, <- partner_ones. apply partner_involutive. }
        Csolve.
    + (* target bit clear: only 2^j - 1 keeps amplitude *)
      assert (Bp : Nat.testbit (partner k j) j = true)
        by (rewrite partner_bit, B; reflexivity).
      assert (Lp : low_ones j (partner k j) = false).
      { destruct (low_ones j (partner k j)) eqn:E; [| reflexivity].
        apply low_ones_spec in E. destruct E as (i & Hi & E).
        rewrite E, ones_bit in Bp. apply Nat.ltb_lt in Bp. lia. }
      rewrite Lk, Lp, (ones_bit_set j j _ Bp), (ones_bit_clear j (S j) k B) by lia.
      cbv [orb].
      destruct (Nat.eqb_spec k (Nat.ones j)) as [E | E].
      * rewrite <- Pc. Csolve.
      * Csolve.
  - (* the control bit is clear: the amplitude is kept *)
    rewrite (ones_bit_clear (j - 1) j k A), (ones_bit_clear (j - 1) (S j) k A) by lia.
    rewrite orb_false_r. now destruct (low_ones j k).
Qed.

(** The controlled rotations [from .. from + len - 1], one after the other. *)
Lemma w_controlled_rotations (len : nat) :
  forall from sv,
    (1 <= from)%nat -> (from + len <= n)%nat ->
    List.length sv = (2 ^ n)%nat ->
    (forall k, (k < 2 ^ n)%nat -> amp sv k = w_partial n_qubits (from - 1) k) ->
    exists sv',
      evolve n (map (fun i => Gate.CRY (w_angle n_qubits i) (i - 1) i) (seq from len)) sv
      = Ok sv' /\
      List.length sv' = (2 ^ n)%nat /\
      forall k, (k < 2 ^ n)%nat -> amp sv' k = w_partial n_qubits (from + len - 1) k.
Proof.
  induction len as [| len IH]; intros from sv Hf Hl Hlen Hsv; simpl.
  - exists sv. split; [reflexivity |]. split; [assumption |].
    now replace (from + 0 - 1)%nat with (from - 1)%nat by lia.
  - unfold apply. simpl.
    replace ((from - 1 <? n)%nat) with true by (symmetry; apply Nat.ltb_lt; lia).
    replace ((from <? n)%nat) with true by (symmetry; apply Nat.ltb_lt; lia).
    replace ((from - 1 =? from)%nat) with false by (symmetry; apply Nat.eqb_neq; lia).
    simpl.
    destruct (IH (S from)
                (apply_controlled (RY_matrix (w_angle n_qubits from)) (from - 1) from sv))
      as (sv' & Hrun & Hlen' & Hamp).
    + lia.
    + lia.
    + now rewrite apply_controlled_length.
    + intros k Hk. replace (S from - 1)%nat with from by lia.
      apply w_controlled_rotation; auto; lia.
    + exists sv'. split; [exact Hrun |]. split; [exact Hlen' |].
      intros k Hk. replace (from + S len - 1)%nat with (S from + len - 1)%nat by lia.
      now apply Hamp.
Qed.

(** The statevector of [create_w_state(n_qubits)] for [n_qubits] other
    than 3: amplitude [1 / sqrt n_qubits] on the [n_qubits] indices
    [2^i - 1], [i < n_qubits], among them |0...0>, and 0 elsewhere. *)
Lemma create_w_state_statevector :
  n_qubits <> 3%Z ->
  exists sv,
    (qc <- create_w_state n_qubits ;; from_instruction qc) = Ok sv /\
    List.length sv = (2 ^ n)%nat /\
    forall k, (k < 2 ^ n)%nat ->
              amp sv k = if low_ones n k then (sqrt (1 / IZR n_qubits), 0) else C0.
Proof.
  intros H3. rewrite create_w_state_general by assumption.
  unfold bind at 1. unfold from_instruction. simpl num_qubits. simpl data.
  fold n. assert (Hn2 : (2 <= n)%nat) by (unfold n; lia).
  simpl evolve. unfold apply. simpl.
  replace ((0 <? n)%nat) with true by (symmetry; apply Nat.ltb_lt; lia).
  simpl.
  destruct (w_controlled_rotations (n - 1) 1
              (apply_gate (RY_matrix (2 * acos (sqrt (1 / IZR n_qubits)))) 0
                          (initialize n)))
    as (sv & Hrun & Hlen & Hamp).
  - lia.
  - lia.
  - now rewrite apply_gate_length, initialize_length.
  - intros k Hk. now apply w_first_rotation.
  - exists sv. split; [exact Hrun |]. split; [exact Hlen |].
    intros k Hk. rewrite (Hamp k Hk).
    replace (1 + (n - 1) - 1)%nat with (n - 1)%nat by lia.
    unfold w_partial. replace (S (n - 1)) with n by lia.
    destruct (low_ones n k); [reflexivity |].
    destruct (k =? Nat.ones n)%nat; [| reflexivity].
    replace (n_qubits - Z.of_nat n)%Z with 0%Z by (unfold n; lia).
    unfold C0. f_equal. replace (0 / IZR n_qubits) with 0.
    + apply sqrt_0.
    + pose proof IZR_n_pos. field. lra.
Qed.

End GeneralW.

Lemma low_ones_2 (n : nat) : low_ones n 2 = false.
Proof.
  destruct (low_ones n 2) eqn:E; [| reflexivity].
  apply low_ones_spec in E. destruct E as (i & _ & E).
  assert (Hb : Nat.testbit 2 0 = Nat.testbit (Nat.ones i) 0) by now rewrite <- E.
  rewrite ones_bit in Hb. simpl in Hb. symmetry in Hb. apply Nat.ltb_ge in Hb.
  assert (i = 0%nat) by lia. subst i. discriminate E.
Qed.

(** C1: the statevectors of [create_w_state].  The explicit sequence for 3
    qubits gives amplitude 1/2 on indices 1, 2, 4 and 7 (|111> included),
    not 1/sqrt 3 on 1, 2 and 4; the general construction, for every other
    [n_qubits >= 2], gives amplitude [1 / sqrt n_qubits] on the indices
    [2^i - 1], so on |0...0> (index 0, weight 0) and not on |0...010>
    (index 2, weight 1).  Neither is the W state of the docstring. *)
Theorem create_w_state_amplitudes (n_qubits : Z) :
  (2 <= n_qubits)%Z -> n_qubits <> 3%Z ->
  (qc <- create_w_state 3 ;; from_instruction qc)
  = Ok [(0, 0); (1 / 2, 0); (1 / 2, 0); (0, 0);
        (1 / 2, 0); (0, 0); (0, 0); (1 / 2, 0)] /\
  exists sv,
    (qc <- create_w_state n_qubits ;; from_instruction qc) = Ok sv /\
    List.length sv = (2 ^ Z.to_nat n_qubits)%nat /\
    (forall k, (k < 2 ^ Z.to_nat n_qubits)%nat ->
               amp sv k = if low_ones (Z.to_nat n_qubits) k
                          then (sqrt (1 / IZR n_qubits), 0) else C0) /\
    amp sv 0 = (sqrt (1 / IZR n_qubits), 0) /\
    amp sv 2 = C0.
Proof.
  intros H2 H3. split; [exact w3_statevector |].
  destruct (create_w_state_statevector n_qubits H2 H3) as (sv & Hrun & Hlen & Hamp).
  exists sv. split; [exact Hrun |]. split; [exact Hlen |]. split; [exact Hamp |].
  assert (Hpow : (4 <= 2 ^ Z.to_nat n_qubits)%nat).
  { change 4%nat with (2 ^ 2)%nat. apply Nat.pow_le_mono_r; lia. }
  split.
  - rewrite Hamp by lia.
    replace (low_ones (Z.to_nat n_qubits) 0) with true; [reflexivity |].
    symmetry. apply low_ones_spec. exists 0%nat. split; [lia | reflexivity].
  - rewrite Hamp by lia. now rewrite low_ones_2.
Qed.

Lemma create_w_state_amplitudes_witness :
  exists sv,
    (qc <- create_w_state 5 ;; from_instruction qc) = Ok sv /\
    List.length sv = (2 ^ Z.to_nat 5)%nat /\
    (forall k, (k < 2 ^ Z.to_nat 5)%nat ->
               amp sv k = if low_ones (Z.to_nat 5) k
                          then (sqrt (1 / IZR 5), 0) else C0) /\
    amp sv 0 = (sqrt (1 / IZR 5), 0) /\
    amp sv 2 = C0.
Proof.
  refine (proj2 (create_w_state_amplitudes 5 _ _)).
  - discriminate.
  - discriminate.
Defined.

(* ================================================================= *)
(** * Further properties of the code *)

(** ** Gates on one qubit compose as their matrices *)

Lemma amp_apply_gate (m : matrix2) (t : nat) (sv : Statevector) (k : nat) :
  (k < List.length sv)%nat -> amp (apply_gate m t sv) k = transformed m t sv k.
Proof. intros Hk. unfold apply_gate. now rewrite amp_map_seq. Qed.

Lemma amp_apply_controlled (m : matrix2) (c t : nat) (sv : Statevector) (k : nat) :
  (k < List.length sv)%nat ->
  amp (apply_controlled m c t sv) k
  = if Nat.testbit k c then transformed m t sv k else amp sv k.
Proof. intros Hk. unfold apply_controlled. now rewrite amp_map_seq. Qed.

Ltac Calgebra :=
  unfold Cplus, Cscale, Cmult, Cconj, C0, C1; simpl; apply f_equal2; ring.

Lemma apply_gate_compose (n : nat) (m1 m2 : matrix2) (t : nat) (sv : Statevector) :
  List.length sv = (2 ^ n)%nat -> (t < n)%nat ->
  apply_gate m2 t (apply_gate m1 t sv) = apply_gate (mat_dot m2 m1) t sv.
Proof.
  intros Hlen Ht. unfold apply_gate at 1 3.
  rewrite apply_gate_length. apply map_ext_in. intros k Hk.
  apply in_seq in Hk. rewrite Hlen in Hk.
  assert (Hp : (partner k t < 2 ^ n)%nat) by (apply partner_lt; lia).
  unfold transformed at 1.
  rewrite !amp_apply_gate by (rewrite Hlen; lia).
  unfold transformed. rewrite partner_bit, partner_involutive.
  destruct (amp sv k) as [x0 y0], (amp sv (partner k t)) as [x1 y1].
  destruct m1 as [a1 b1 c1 d1], m2 as [a2 b2 c2 d2].
  destruct (Nat.testbit k t); simpl; Calgebra.
Qed.

Lemma apply_gate_identity (t : nat) (sv : Statevector) :
  apply_gate identity_matrix t sv = sv.
Proof.
  rewrite (statevector_as_map sv) at 2. unfold apply_gate.
  apply map_ext. intros k. unfold transformed, identity_matrix; simpl.
  destruct (amp sv k) as [x0 y0], (amp sv (partner k t)) as [x1 y1].
  destruct (Nat.testbit k t); Calgebra.
Qed.

Lemma matrix2_eq (a b : matrix2) :
  m00 a = m00 b -> m01 a = m01 b -> m10 a = m10 b -> m11 a = m11 b -> a = b.
Proof. destruct a, b; simpl; intros; subst; reflexivity. Qed.

Lemma H_numpy_is_H_matrix : H_numpy = H_matrix.
Proof. apply matrix2_eq; unfold H_numpy, H_matrix, mat_scale; simpl; ring. Qed.

Lemma H_dot_H : mat_dot H_matrix H_matrix = identity_matrix.
Proof.
  pose proof inv_sqrt2_sq as E.
  apply matrix2_eq; unfold H_matrix, mat_dot, identity_matrix; simpl; nra.
Qed.

Lemma H_Z_H : mat_dot H_matrix (mat_dot Z_matrix H_matrix) = X_matrix.
Proof.
  pose proof inv_sqrt2_sq as E.
  apply matrix2_eq; unfold H_matrix, Z_matrix, X_matrix, mat_dot; simpl; nra.
Qed.

(** X1: the product [H.dot(H)] that [interference_experiments] prints is
    the identity matrix, and on the engine two gates on one qubit compose
    as the product of their matrices: H after H gives back any statevector,
    and H, Z, H acts as X. *)
Theorem hadamard_twice_is_identity (n q : nat) (sv : Statevector) :
  List.length sv = (2 ^ n)%nat -> (q < n)%nat ->
  mat_dot H_numpy H_numpy = identity_matrix /\
  (forall m1 m2, apply_gate m2 q (apply_gate m1 q sv)
                 = apply_gate (mat_dot m2 m1) q sv) /\
  evolve n [Gate.H q; Gate.H q] sv = Ok sv /\
  evolve n [Gate.H q; Gate.Z q; Gate.H q] sv = evolve n [Gate.X q] sv.
Proof.
  intros Hlen Hq.
  split; [rewrite H_numpy_is_H_matrix; apply H_dot_H |].
  split; [intros m1 m2; now apply (apply_gate_compose n) |].
  assert (Hv : (q <? n)%nat = true) by now apply Nat.ltb_lt.
  split; simpl; unfold apply; simpl; rewrite Hv; simpl.
  - f_equal. rewrite (apply_gate_compose n) by assumption.
    rewrite H_dot_H. apply apply_gate_identity.
  - f_equal.
    rewrite (apply_gate_compose n Z_matrix H_matrix)
      by (rewrite ?apply_gate_length; assumption).
    rewrite (apply_gate_compose n) by assumption.
    replace (mat_dot (mat_dot H_matrix Z_matrix) H_matrix) with X_matrix; [reflexivity |].
    rewrite <- H_Z_H.
    apply matrix2_eq; unfold mat_dot, H_matrix, Z_matrix; simpl; ring.
Qed.

Lemma hadamard_twice_is_identity_witness :
  evolve 1 [Gate.H 0; Gate.H 0] [(0, 0); (1, 0)] = Ok [(0, 0); (1, 0)].
Proof.
  exact (proj1 (proj2 (proj2 (hadamard_twice_is_identity 1 0 [(0, 0); (1, 0)]
                                eq_refl ltac:(lia))))).
Defined.

(** ** The four Bell states *)

Lemma bell_phi_minus_statevector :
  evolve 2 [Gate.H 0; Gate.Z 0; Gate.CX 0 1] (initialize 2)
  = Ok [(1 / sqrt 2, 0); (0, 0); (0, 0); (- (1 / sqrt 2), 0)].
Proof. compute_sv. f_equal. solve_amps. Qed.

Lemma bell_psi_plus_statevector :
  evolve 2 [Gate.H 0; Gate.CX 0 1; Gate.X 1] (initialize 2)
  = Ok [(0, 0); (1 / sqrt 2, 0); (1 / sqrt 2, 0); (0, 0)].
Proof. compute_sv. f_equal. solve_amps. Qed.

Lemma bell_psi_minus_statevector :
  evolve 2 [Gate.H 0; Gate.Z 0; Gate.CX 0 1; Gate.X 1] (initialize 2)
  = Ok [(0, 0); (- (1 / sqrt 2), 0); (1 / sqrt 2, 0); (0, 0)].
Proof. compute_sv. f_equal. solve_amps. Qed.

Lemma create_bell_state_cases (variant : string) (qc : QuantumCircuit) :
  create_bell_state variant = Ok qc ->
  (variant = "phi_plus"%string /\ qc = mkQC 2 2 [Gate.H 0; Gate.CX 0 1]) \/
  (variant = "phi_minus"%string /\ qc = mkQC 2 2 [Gate.H 0; Gate.Z 0; Gate.CX 0 1]) \/
  (variant = "psi_plus"%string /\ qc = mkQC 2 2 [Gate.H 0; Gate.CX 0 1; Gate.X 1]) \/
  (variant = "psi_minus"%string /\
   qc = mkQC 2 2 [Gate.H 0; Gate.Z 0; Gate.CX 0 1; Gate.X 1]).
Proof.
  unfold create_bell_state.
  destruct (String.eqb_spec variant "phi_plus") as [-> | _].
  { intros [= <-]. now left. }
  destruct (String.eqb_spec variant "phi_minus") as [-> | _].
  { intros [= <-]. right. now left. }
  destruct (String.eqb_spec variant "psi_plus") as [-> | _].
  { intros [= <-]. do 2 right. now left. }
  destruct (String.eqb_spec variant "psi_minus") as [-> | _].
  { intros [= <-]. now do 3 right. }
  discriminate.
Qed.

(** X2: [create_bell_state] returns a circuit for the four variant names
    and for no other; the statevectors are those of the comments in the
    code, (|00> + |11>)/sqrt 2, (|00> - |11>)/sqrt 2, (|01> + |10>)/sqrt 2,
    and for [psi_minus] (|10> - |01>)/sqrt 2, the state of the comment up
    to the global phase -1. *)
Theorem create_bell_state_variants :
  (forall variant,
      (exists qc, create_bell_state variant = Ok qc) <->
      In variant ["phi_plus"; "phi_minus"; "psi_plus"; "psi_minus"]%string) /\
  (qc <- create_bell_state "phi_plus" ;; from_instruction qc)
  = Ok [(1 / sqrt 2, 0); (0, 0); (0, 0); (1 / sqrt 2, 0)] /\
  (qc <- create_bell_state "phi_minus" ;; from_instruction qc)
  = Ok [(1 / sqrt 2, 0); (0, 0); (0, 0); (- (1 / sqrt 2), 0)] /\
  (qc <- create_bell_state "psi_plus" ;; from_instruction qc)
  = Ok [(0, 0); (1 / sqrt 2, 0); (1 / sqrt 2, 0); (0, 0)] /\
  (qc <- create_bell_state "psi_minus" ;; from_instruction qc)
  = Ok [(0, 0); (- (1 / sqrt 2), 0); (1 / sqrt 2, 0); (0, 0)] /\
  same_up_to_phase
    [(0, 0); (1 / sqrt 2, 0); (- (1 / sqrt 2), 0); (0, 0)]
    [(0, 0); (- (1 / sqrt 2), 0); (1 / sqrt 2, 0); (0, 0)].
Proof.
  split.
  { intros variant. split.
    - intros [qc Hqc]. apply create_bell_state_cases in Hqc. simpl.
      destruct Hqc as [[-> _] | [[-> _] | [[-> _] | [-> _]]]]; tauto.
    - simpl. intros [<- | [<- | [<- | [<- | []]]]]; eexists; reflexivity. }
  split; [exact bell_statevector |].
  split; [exact bell_phi_minus_statevector |].
  split; [exact bell_psi_plus_statevector |].
  split; [exact bell_psi_minus_statevector |].
  exists (-1, 0). split.
  - unfold Cabs, Cnorm2; simpl.
    replace (-1 * -1 + 0 * 0) with 1 by ring. apply sqrt_1.
  - simpl. unfold Cmult; simpl.
    repeat (apply f_equal2; [ | try reflexivity ]); ring.
Qed.

(** X3: measured after any of the four factories' circuits, the two qubits
    are perfectly correlated for the [phi] variants (every shot is "00" or
    "11") and perfectly anti-correlated for the [psi] variants (every shot
    is "01" or "10"), for any number of shots and any draws. *)
Theorem bell_measurements_correlated (variant : string) (qc : QuantumCircuit)
    (shots : Z) (draws : nat -> R) :
  create_bell_state variant = Ok qc ->
  (0 < shots)%Z ->
  uniform_draws draws ->
  exists counts,
    (qc' <- measure_range 2 qc ;; run_circuit_sampler qc' shots draws) = Ok counts /\
    total counts = Z.to_nat shots /\
    forall key, contains counts key = true ->
                if String.prefix "phi" variant
                then key = "00"%string \/ key = "11"%string
                else key = "01"%string \/ key = "10"%string.
Proof.
  intros Hqc Hs Hd. apply create_bell_state_cases in Hqc.
  destruct Hqc as [[-> ->] | [[-> ->] | [[-> ->] | [-> ->]]]].
  - destruct (run_circuit_sampler_outcomes
                (mkQC 2 2 [Gate.H 0; Gate.CX 0 1; Gate.Measure 0 0; Gate.Measure 1 1])
                shots draws _ [(0, 0); (1, 1)]%nat _
                Hs eq_refl bell_statevector ltac:(discriminate) Hd)
      as (counts & Hrun & Htot & Hkeys & _).
    exists counts. split; [exact Hrun |]. split; [exact Htot |].
    intros key Hc. destruct (Hkeys key Hc) as (i & Hi & Hp & ->).
    index_cases i Hi; unfold amp, Cnorm2 in Hp; simpl in Hp;
      try lra; simpl; [now left | now right].
  - destruct (run_circuit_sampler_outcomes
                (mkQC 2 2 [Gate.H 0; Gate.Z 0; Gate.CX 0 1;
                           Gate.Measure 0 0; Gate.Measure 1 1])
                shots draws _ [(0, 0); (1, 1)]%nat _
                Hs eq_refl bell_phi_minus_statevector ltac:(discriminate) Hd)
      as (counts & Hrun & Htot & Hkeys & _).
    exists counts. split; [exact Hrun |]. split; [exact Htot |].
    intros key Hc. destruct (Hkeys key Hc) as (i & Hi & Hp & ->).
    index_cases i Hi; unfold amp, Cnorm2 in Hp; simpl in Hp;
      try lra; simpl; [now left | now right].
  - destruct (run_circuit_sampler_outcomes
                (mkQC 2 2 [Gate.H 0; Gate.CX 0 1; Gate.X 1;
                           Gate.Measure 0 0; Gate.Measure 1 1])
                shots draws _ [(0, 0); (1, 1)]%nat _
                Hs eq_refl bell_psi_plus_statevector ltac:(discriminate) Hd)
      as (counts & Hrun & Htot & Hkeys & _).
    exists counts. split; [exact Hrun |]. split; [exact Htot |].
    intros key Hc. destruct (Hkeys key Hc) as (i & Hi & Hp & ->).
    index_cases i Hi; unfold amp, Cnorm2 in Hp; simpl in Hp;
      try lra; simpl; [now left | now right].
  - destruct (run_circuit_sampler_outcomes
                (mkQC 2 2 [Gate.H 0; Gate.Z 0; Gate.CX 0 1; Gate.X 1;
                           Gate.Measure 0 0; Gate.Measure 1 1])
                shots draws _ [(0, 0); (1, 1)]%nat _
                Hs eq_refl bell_psi_minus_statevector ltac:(discriminate) Hd)
      as (counts & Hrun & Htot & Hkeys & _).
    exists counts. split; [exact Hrun |]. split; [exact Htot |].
    intros key Hc. destruct (Hkeys key Hc) as (i & Hi & Hp & ->).
    index_cases i Hi; unfold amp, Cnorm2 in Hp; simpl in Hp;
      try lra; simpl; [now left | now right].
Qed.

Lemma bell_measurements_correlated_witness :
  exists counts,
    (qc' <- measure_range 2 (mkQC 2 2 [Gate.H 0; Gate.Z 0; Gate.CX 0 1; Gate.X 1]) ;;
     run_circuit_sampler qc' 1000 (fun _ => 1 / 3)) = Ok counts /\
    total counts = Z.to_nat 1000 /\
    forall key, contains counts key = true ->
                if String.prefix "phi" "psi_minus"
                then key = "00"%string \/ key = "11"%string
                else key = "01"%string \/ key = "10"%string.
Proof.
  apply (bell_measurements_correlated "psi_minus" _ 1000 (fun _ => 1 / 3)).
  - reflexivity.
  - reflexivity.
  - intros _. lra.
Defined.

(** ** The equal superposition *)

Lemma testbit_below (k j : nat) : (k < 2 ^ j)%nat -> Nat.testbit k j = false.
Proof.
  intros Hk. apply Nat.testbit_false. now rewrite Nat.div_small.
Qed.

Lemma testbit_top (k j : nat) :
  (2 ^ j <= k < 2 ^ S j)%nat -> Nat.testbit k j = true.
Proof.
  intros [Hl Hu]. apply Nat.testbit_true.
  replace (k / 2 ^ j)%nat with 1%nat; [reflexivity |].
  apply Nat.div_unique with (r := (k - 2 ^ j)%nat);
    simpl in Hu; lia.
Qed.

Lemma partner_clear (k j : nat) :
  Nat.testbit k j = false -> partner k j = (k + 2 ^ j)%nat.
Proof.
  intros Hb. unfold partner. symmetry. apply Nat.add_nocarry_lxor.
  apply Nat.bits_inj. intros m.
  rewrite Nat.land_spec, Nat.pow2_bits_eqb, Nat.bits_0.
  destruct (Nat.eqb_spec j m) as [<- | _]; [now rewrite Hb | apply andb_false_r].
Qed.

Lemma partner_set (k j : nat) :
  Nat.testbit k j = true -> (partner k j + 2 ^ j)%nat = k.
Proof.
  intros Hb. rewrite <- (partner_involutive j k) at 2.
  symmetry. apply partner_clear. now rewrite partner_bit, Hb.
Qed.

Lemma fold_h_ok (n : nat) (l : list nat) :
  (forall q, In q l -> (q < n)%nat) ->
  forall m gates,
    fold_left (fun acc q => qc' <- acc ;; h q qc') l (Ok (mkQC n m gates))
    = Ok (mkQC n m (gates ++ map Gate.H l)).
Proof.
  induction l as [| q l IH]; intros Hl m gates; simpl.
  - now rewrite app_nil_r.
  - assert (Hq : (q < n)%nat) by (apply Hl; now left).
    unfold h at 2, append. simpl.
    replace ((q <? n)%nat) with true by (symmetry; now apply Nat.ltb_lt).
    rewrite IH by (intros q' Hq'; apply Hl; now right).
    now rewrite <- app_assoc.
Qed.

Lemma create_superposition_state_circuit (n : nat) :
  (0 < n)%nat ->
  create_superposition_state n = Ok (mkQC n 0 (map Gate.H (seq 0 n))).
Proof.
  intros Hn. unfold create_superposition_state, h_list, new_circuit.
  destruct (seq 0 n) as [| q l] eqn:E.
  - apply (f_equal (@List.length nat)) in E. rewrite length_seq in E.
    simpl in E. lia.
  - rewrite <- E. rewrite fold_h_ok; [reflexivity |].
    intros q' Hq. apply in_seq in Hq. lia.
Qed.

(** One more Hadamard doubles the range of the superposition. *)
Lemma superposition_step (n j : nat) (sv : Statevector) (k : nat) :
  (j < n)%nat ->
  List.length sv = (2 ^ n)%nat ->
  (forall k', (k' < 2 ^ n)%nat -> amp sv k' = superposition_partial j k') ->
  (k < 2 ^ n)%nat ->
  amp (apply_gate H_matrix j sv) k = superposition_partial (S j) k.
Proof.
  intros Hj Hlen Hsv Hk.
  assert (Hp : (partner k j < 2 ^ n)%nat) by (apply partner_lt; lia).
  rewrite amp_apply_gate by lia. unfold transformed.
  rewrite (Hsv k Hk), (Hsv _ Hp). unfold superposition_partial, H_matrix.
  cbn [m00 m01 m10 m11].
  assert (H2 : (2 ^ S j = 2 * 2 ^ j)%nat) by reflexivity.
  destruct (Nat.testbit k j) eqn:B.
  - pose proof (partner_set k j B) as E.
    assert (Hge : (2 ^ j <= k)%nat) by lia.
    destruct (Nat.ltb_spec k (2 ^ j)); [lia |].
    destruct (Nat.ltb_spec (partner k j) (2 ^ j)), (Nat.ltb_spec k (2 ^ S j));
      try lia; Calgebra.
  - pose proof (partner_clear k j B) as E. rewrite E.
    destruct (Nat.ltb_spec (k + 2 ^ j) (2 ^ j)); [lia |].
    destruct (Nat.ltb_spec k (2 ^ j)) as [Hlt | Hge].
    + destruct (Nat.ltb_spec k (2 ^ S j)); [| lia]. Calgebra.
    + destruct (Nat.ltb_spec k (2 ^ S j)) as [Hlt' | _]; [| Calgebra].
      rewrite (testbit_top k j) in B by lia. discriminate B.
Qed.

Lemma superposition_steps (n len : nat) :
  forall from sv,
    (from + len <= n)%nat ->
    List.length sv = (2 ^ n)%nat ->
    (forall k, (k < 2 ^ n)%nat -> amp sv k = superposition_partial from k) ->
    exists sv',
      evolve n (map Gate.H (seq from len)) sv = Ok sv' /\
      List.length sv' = (2 ^ n)%nat /\
      forall k, (k < 2 ^ n)%nat -> amp sv' k = superposition_partial (from + len) k.
Proof.
  induction len as [| len IH]; intros from sv Hl Hlen Hsv; simpl.
  - exists sv. split; [reflexivity |]. split; [assumption |].
    now rewrite Nat.add_0_r.
  - unfold apply. simpl.
    replace ((from <? n)%nat) with true by (symmetry; apply Nat.ltb_lt; lia).
    simpl.
    destruct (IH (S from) (apply_gate H_matrix from sv)) as (sv' & Hrun & Hlen' & Hamp).
    + lia.
    + now rewrite apply_gate_length.
    + intros k Hk. apply (superposition_step n); auto; lia.
    + exists sv'. split; [exact Hrun |]. split; [exact Hlen' |].
      intros k Hk. replace (from + S len)%nat with (S from + len)%nat by lia.
      now apply Hamp.
Qed.

Lemma initialize_partial (n k : nat) :
  amp (initialize n) k = superposition_partial 0 k.
Proof.
  rewrite amp_initialize. unfold superposition_partial. simpl.
  destruct k as [| k]; reflexivity.
Qed.

Lemma inv_sqrt2_pow_pos (n : nat) : 0 < (1 / sqrt 2) ^ n.
Proof. apply pow_lt. apply inv_sqrt2_pos. Qed.

(** The statevector of the circuit [create_superposition_state] builds. *)
Lemma superposition_statevector (n : nat) :
  (0 < n)%nat ->
  exists sv,
    (qc <- create_superposition_state n ;; from_instruction qc) = Ok sv /\
    List.length sv = (2 ^ n)%nat /\
    forall k, (k < 2 ^ n)%nat ->
              amp sv k = ((1 / sqrt 2) ^ n, 0) /\ Cabs (amp sv k) = (1 / sqrt 2) ^ n.
Proof.
  intros Hn.
  rewrite create_superposition_state_circuit by exact Hn.
  unfold bind, from_instruction.
  simpl num_qubits. simpl data.
  destruct (superposition_steps n n 0 (initialize n)) as (sv & Hrun & Hlen & Hamp).
  - lia.
  - apply initialize_length.
  - intros k _. apply initialize_partial.
  - exists sv. split; [exact Hrun |]. split; [exact Hlen |].
    intros k Hk. rewrite (Hamp k Hk). unfold superposition_partial. simpl.
    destruct (Nat.ltb_spec k (2 ^ n)); [| lia].
    split; [reflexivity |]. apply Cabs_real. apply Rlt_le, inv_sqrt2_pow_pos.
Qed.

(** X4: [create_superposition_state(0)] raises [CircuitError], the range of
    qubits given to [h] being empty.  For every positive number of qubits,
    [create_superposition_state(n)] builds H on each qubit, and its
    statevector has the same amplitude [(1 / sqrt 2)^n] at every one of the
    [2^n] indices. *)
Theorem create_superposition_state_uniform (n : nat) :
  (0 < n)%nat ->
  create_superposition_state 0
  = Raise (CircuitError "One or more of the arguments are empty") /\
  create_superposition_state n = Ok (mkQC n 0 (map Gate.H (seq 0 n))) /\
  exists sv,
    (qc <- create_superposition_state n ;; from_instruction qc) = Ok sv /\
    List.length sv = (2 ^ n)%nat /\
    forall k, (k < 2 ^ n)%nat ->
              amp sv k = ((1 / sqrt 2) ^ n, 0) /\ Cabs (amp sv k) = (1 / sqrt 2) ^ n.
Proof.
  intros Hn. split; [reflexivity |]. split.
  - now apply create_superposition_state_circuit.
  - now apply superposition_statevector.
Qed.

Lemma create_superposition_state_uniform_witness :
  create_superposition_state 2 = Ok (mkQC 2 0 [Gate.H 0; Gate.H 1]).
Proof.
  refine (proj1 (proj2 (create_superposition_state_uniform 2 _))). lia.
Defined.

Lemma filter_all {A : Type} (f : A -> bool) (l : list A) :
  (forall a, In a l -> f a = true) -> filter f l = l.
Proof.
  induction l as [| a l IH]; simpl; intros Hall; [reflexivity |].
  rewrite (Hall a) by now left. f_equal. apply IH. intros b Hb. apply Hall. now right.
Qed.

Lemma filter_none {A : Type} (f : A -> bool) (l : list A) :
  (forall a, In a l -> f a = false) -> filter f l = [].
Proof.
  induction l as [| a l IH]; simpl; intros Hall; [reflexivity |].
  rewrite (Hall a) by now left. apply IH. intros b Hb. apply Hall. now right.
Qed.

Lemma Cangle_positive_real (r : R) : 0 < r -> Cangle (r, 0) = 0.
Proof.
  intros Hr. unfold Cangle. destruct (Rlt_dec 0 r); [| contradiction].
  replace (0 / r) with 0 by (field; lra). apply atan_0.
Qed.

Lemma bind_assoc {A B D : Type} (r : result A) (f : A -> result B)
    (g : B -> result D) :
  (b <- (a <- r ;; f a) ;; g b) = (a <- r ;; b <- f a ;; g b).
Proof. now destruct r. Qed.

Lemma for_each_cons {A B : Type} (f : A -> result B) (a : A) (l : list A)
    (b : B) (bs : list B) :
  f a = Ok b -> for_each f l = Ok bs -> for_each f (a :: l) = Ok (b :: bs).
Proof. intros Ha Hl. simpl. now rewrite Ha, Hl. Qed.

(** What [print_statevector] shows of a statevector whose amplitudes are all
    the positive real [r]. *)
Lemma print_statevector_flat (n : nat) (sv : Statevector) (r threshold : R) :
  List.length sv = (2 ^ n)%nat ->
  (forall k, (k < 2 ^ n)%nat -> amp sv k = (r, 0)) ->
  0 < r -> 0 < threshold ->
  print_statevector sv threshold
  = (n, if Rlt_dec threshold r
        then map (fun i => mkLine (basis_label n i) r None) (seq 0 (2 ^ n))
        else []).
Proof.
  intros Hlen Hamp Hr Ht.
  rewrite (print_statevector_lines n) by assumption. f_equal.
  destruct (Rlt_dec threshold r) as [Hlt | Hge].
  - rewrite filter_all.
    + apply map_ext_in. intros i Hi. apply in_seq in Hi.
      unfold line_of. rewrite Hamp by lia.
      rewrite Cabs_real, Cangle_positive_real, Rabs_R0 by lra.
      now destruct (Rlt_dec 0 threshold).
    + intros i Hi. apply in_seq in Hi. unfold above.
      rewrite Hamp, Cabs_real by (lra || lia).
      now destruct (Rlt_dec threshold r).
  - rewrite filter_none; [reflexivity |].
    intros i Hi. apply in_seq in Hi. unfold above.
    rewrite Hamp, Cabs_real by (lra || lia).
    now destruct (Rlt_dec threshold r).
Qed.

(** X5: [print_statevector] on the equal superposition of [n >= 1] qubits,
    with a positive threshold: below the magnitude [(1 / sqrt 2)^n] it
    prints all [2^n] basis states, each with that magnitude and no phase;
    above it, nothing.  A threshold within one part in 10^9 of the magnitude
    is left out: there the rounding of the amplitudes decides.  With the
    threshold 0.1 of [example_4_superposition] it prints 4, 8 and 16 lines
    for 2, 3 and 4 qubits. *)
Theorem superposition_printed_all_or_nothing (n : nat) (threshold : R) :
  (0 < n)%nat ->
  0 < threshold ->
  (exists sv,
      (qc <- create_superposition_state n ;; from_instruction qc) = Ok sv /\
      (threshold <= (1 - 1e-9) * (1 / sqrt 2) ^ n ->
       print_statevector sv threshold
       = (n, map (fun i => mkLine (basis_label n i) ((1 / sqrt 2) ^ n) None)
                 (seq 0 (2 ^ n)))) /\
      ((1 + 1e-9) * (1 / sqrt 2) ^ n <= threshold ->
       print_statevector sv threshold = (n, []))) /\
  exists lines2 lines3 lines4,
    example_4_superposition = Ok [(2%nat, lines2); (3%nat, lines3); (4%nat, lines4)] /\
    List.length lines2 = 4%nat /\
    List.length lines3 = 8%nat /\
    List.length lines4 = 16%nat.
Proof.
  intros Hn Ht.
  assert (Hgen : forall m t, (0 < m)%nat -> 0 < t ->
             exists sv,
               (qc <- create_superposition_state m ;; from_instruction qc) = Ok sv /\
               print_statevector sv t
               = (m, if Rlt_dec t ((1 / sqrt 2) ^ m)
                     then map (fun i => mkLine (basis_label m i) ((1 / sqrt 2) ^ m) None)
                              (seq 0 (2 ^ m))
                     else [])).
  { intros m t Hm Hpos.
    destruct (superposition_statevector m Hm) as (sv & Hrun & Hlen & Hamp).
    exists sv. split; [exact Hrun |].
    apply print_statevector_flat; auto using inv_sqrt2_pow_pos.
    intros k Hk. now apply Hamp. }
  split.
  { destruct (Hgen n threshold Hn Ht) as (sv & Hrun & Hprint).
    pose proof (inv_sqrt2_pow_pos n) as Hmag.
    exists sv. split; [exact Hrun |]. split; intros Hthr; rewrite Hprint.
    - destruct (Rlt_dec threshold ((1 / sqrt 2) ^ n)) as [_ | Hge];
        [reflexivity | exfalso; apply Hge; nra].
    - destruct (Rlt_dec threshold ((1 / sqrt 2) ^ n)) as [Hlt | _];
        [exfalso; nra | reflexivity]. }
  assert (Hthr : 0 < 1 / 10) by lra.
  destruct (Hgen 2%nat (1 / 10) ltac:(lia) Hthr) as (sv2 & R2 & P2).
  destruct (Hgen 3%nat (1 / 10) ltac:(lia) Hthr) as (sv3 & R3 & P3).
  destruct (Hgen 4%nat (1 / 10) ltac:(lia) Hthr) as (sv4 & R4 & P4).
  pose proof inv_sqrt2_sq as Esq. pose proof inv_sqrt2_pos as Epos.
  assert (B2 : 1 / 10 < (1 / sqrt 2) ^ 2) by (simpl; nra).
  assert (B3 : 1 / 10 < (1 / sqrt 2) ^ 3) by (simpl; nra).
  assert (B4 : 1 / 10 < (1 / sqrt 2) ^ 4) by (simpl; nra).
  destruct (Rlt_dec (1 / 10) ((1 / sqrt 2) ^ 2)); [| contradiction].
  destruct (Rlt_dec (1 / 10) ((1 / sqrt 2) ^ 3)); [| contradiction].
  destruct (Rlt_dec (1 / 10) ((1 / sqrt 2) ^ 4)); [| contradiction].
  assert (Hone : forall m sv,
             (qc <- create_superposition_state m ;; from_instruction qc) = Ok sv ->
             (qc <- create_superposition_state m ;;
              sv' <- from_instruction qc ;;
              Ok (print_statevector sv' (1 / 10)))
             = Ok (print_statevector sv (1 / 10))).
  { intros m sv Hm. rewrite <- bind_assoc, Hm. reflexivity. }
  do 3 eexists. split.
  - unfold example_4_superposition.
    apply for_each_cons; [rewrite (Hone _ _ R2), P2; reflexivity |].
    apply for_each_cons; [rewrite (Hone _ _ R3), P3; reflexivity |].
    apply for_each_cons; [rewrite (Hone _ _ R4), P4; reflexivity |].
    reflexivity.
  - now rewrite !length_map, !length_seq.
Qed.

Lemma superposition_printed_all_or_nothing_witness :
  exists sv,
    (qc <- create_superposition_state 2 ;; from_instruction qc) = Ok sv /\
    print_statevector sv (3 / 4) = (2%nat, []).
Proof.
  destruct (proj1 (superposition_printed_all_or_nothing 2 (3 / 4)
                     ltac:(lia) ltac:(lra)))
    as (sv & Hrun & _ & Hnone).
  exists sv. split; [exact Hrun |]. apply Hnone.
  pose proof inv_sqrt2_sq as Esq. simpl. nra.
Defined.

(** ** [measure_all] *)

Lemma fold_raise {A B : Type} (f : A -> B -> result B) (l : list A) (e : exn) :
  fold_left (fun acc a => b <- acc ;; f a b) l (Raise e) = Raise e.
Proof. induction l as [| a l IH]; simpl; [reflexivity | exact IH]. Qed.

Lemma fold_measure_ok (n m : nat) (l : list nat) :
  (forall i, In i l -> (i < n)%nat /\ (i < m)%nat) ->
  forall gates,
    fold_left (fun acc i => qc' <- acc ;; measure i i qc') l (Ok (mkQC n m gates))
    = Ok (mkQC n m (gates ++ map (fun i => Gate.Measure i i) l)).
Proof.
  induction l as [| i l IH]; intros Hl gates; simpl.
  - now rewrite app_nil_r.
  - destruct (Hl i (or_introl eq_refl)) as [Hn Hm].
    unfold measure at 2, append. simpl.
    replace ((i <? n)%nat) with true by (symmetry; now apply Nat.ltb_lt).
    replace ((i <? m)%nat) with true by (symmetry; now apply Nat.ltb_lt).
    simpl. rewrite IH by (intros j Hj; apply Hl; now right).
    now rewrite <- app_assoc.
Qed.

Lemma measure_range_ok (n m : nat) (gates : list Gate.instruction) :
  (n <= m)%nat ->
  measure_range n (mkQC n m gates)
  = Ok (mkQC n m (gates ++ map (fun i => Gate.Measure i i) (seq 0 n))).
Proof.
  intros Hnm. unfold measure_range. apply fold_measure_ok.
  intros i Hi. apply in_seq in Hi. lia.
Qed.

Lemma measure_range_short (n m : nat) (gates : list Gate.instruction) :
  (m < n)%nat ->
  measure_range n (mkQC n m gates)
  = Raise (CircuitError "Index out of range or duplicate qubit arguments.").
Proof.
  intros Hmn. unfold measure_range.
  replace n with (m + S (n - m - 1))%nat at 1 by lia.
  rewrite seq_app, fold_left_app.
  rewrite fold_measure_ok by (intros i Hi; apply in_seq in Hi; lia).
  simpl. unfold measure at 2, append. simpl.
  replace ((m <? n)%nat) with true by (symmetry; now apply Nat.ltb_lt).
  rewrite Nat.ltb_irrefl. simpl.
  apply (fold_raise (fun i qc' => measure i i qc')).
Qed.

(** X6: [measure_all] succeeds exactly when the circuit has no classical
    bit (a register as wide as the circuit is added) or at least as many
    classical bits as qubits; it then appends one measurement per qubit,
    qubit [i] into classical bit [i].  With fewer classical bits than qubits
    (and at least one) the measurement is refused. *)
Theorem measure_all_behaviour (qc : QuantumCircuit) :
  let n := num_qubits qc in
  let measurements := map (fun i => Gate.Measure i i) (seq 0 n) in
  (measure_all qc
   = if (num_clbits qc =? 0)%nat
     then Ok (mkQC n n (data qc ++ measurements))
     else if (n <=? num_clbits qc)%nat
          then Ok (mkQC n (num_clbits qc) (data qc ++ measurements))
          else Raise (CircuitError "Index out of range or duplicate qubit arguments.")) /\
  ((exists qc', measure_all qc = Ok qc') <->
   num_clbits qc = 0%nat \/ (n <= num_clbits qc)%nat).
Proof.
  intros n measurements.
  assert (E : measure_all qc
              = if (num_clbits qc =? 0)%nat
                then Ok (mkQC n n (data qc ++ measurements))
                else if (n <=? num_clbits qc)%nat
                     then Ok (mkQC n (num_clbits qc) (data qc ++ measurements))
                     else Raise (CircuitError
                                   "Index out of range or duplicate qubit arguments.")).
  { unfold measure_all. destruct qc as [nq m gates]. simpl in *. subst n measurements.
    destruct (Nat.eqb_spec m 0) as [-> | Hm]; simpl.
    - now apply measure_range_ok.
    - destruct (Nat.leb_spec nq m).
      + now apply measure_range_ok.
      + now apply measure_range_short. }
  split; [exact E |]. rewrite E.
  destruct (Nat.eqb_spec (num_clbits qc) 0) as [Hz | Hz].
  - split; [now left | intros _; now eexists].
  - destruct (Nat.leb_spec n (num_clbits qc)).
    + split; [now right | intros _; now eexists].
    + split; [intros [qc' Hq]; discriminate Hq | intros [? | ?]; [contradiction | lia]].
Qed.

Lemma final_measurements_appended (gates : list Gate.instruction) (l : list nat) :
  forallb (fun ins => negb (is_measure ins)) gates = true ->
  final_measurements (gates ++ map (fun i => Gate.Measure i i) l)
  = (gates, map (fun i => (i, i)) l).
Proof.
  intros Hg. induction gates as [| g gates IH]; simpl.
  - induction l as [| i l IHl]; simpl; [reflexivity | now rewrite IHl].
  - simpl in Hg. apply andb_prop in Hg. destruct Hg as [Hm Hg].
    rewrite (IH Hg). destruct g; try reflexivity. discriminate Hm.
Qed.

(** X7: on a circuit of gates without classical bits, removing the final
    measurements undoes [measure_all]: the circuit comes back as it was, so
    the statevector [run_and_print] shows for the measured circuit is the
    statevector of the gates. *)
Theorem measure_all_then_remove (qc : QuantumCircuit) :
  num_clbits qc = 0%nat ->
  forallb (fun ins => negb (is_measure ins)) (data qc) = true ->
  exists qc',
    measure_all qc = Ok qc' /\
    final_measurements (data qc')
    = (data qc, map (fun i => (i, i)) (seq 0 (num_qubits qc))) /\
    remove_final_measurements qc' = qc /\
    from_instruction (remove_final_measurements qc') = from_instruction qc.
Proof.
  intros Hm Hg. destruct qc as [n m gates]. simpl in *. subst m.
  exists (mkQC n n (gates ++ map (fun i => Gate.Measure i i) (seq 0 n))).
  split; [unfold measure_all; simpl; now apply measure_range_ok |].
  assert (Hf := final_measurements_appended gates (seq 0 n) Hg).
  split; [exact Hf |].
  assert (Hr : remove_final_measurements
                 (mkQC n n (gates ++ map (fun i => Gate.Measure i i) (seq 0 n)))
               = mkQC n 0 gates).
  { unfold remove_final_measurements. simpl data. rewrite Hf.
    destruct n as [| n]; simpl.
    - now rewrite app_nil_r.
    - replace (existsb is_measure gates) with false; [reflexivity |].
      symmetry. apply not_true_is_false. intros Hex.
      apply existsb_exists in Hex. destruct Hex as (g & Hin & Hgm).
      rewrite forallb_forall in Hg. specialize (Hg g Hin).
      now rewrite Hgm in Hg. }
  split; [exact Hr | now rewrite Hr].
Qed.

Lemma measure_all_then_remove_witness :
  exists qc',
    measure_all (mkQC 2 0 [Gate.H 0; Gate.CX 0 1]) = Ok qc' /\
    final_measurements (data qc')
    = ([Gate.H 0; Gate.CX 0 1], map (fun i => (i, i)) (seq 0 2)) /\
    remove_final_measurements qc' = mkQC 2 0 [Gate.H 0; Gate.CX 0 1] /\
    from_instruction (remove_final_measurements qc')
    = from_instruction (mkQC 2 0 [Gate.H 0; Gate.CX 0 1]).
Proof.
  exact (measure_all_then_remove (mkQC 2 0 [Gate.H 0; Gate.CX 0 1]) eq_refl eq_refl).
Defined.

(** ** One bit order for counts and labels *)

Lemma clbit_value_diagonal (n i c : nat) :
  (c < n)%nat ->
  clbit_value (map (fun j => (j, j)) (seq 0 n)) i c = Nat.testbit i c.
Proof.
  intros Hc. unfold clbit_value.
  destruct (find (fun qc => (snd qc =? c)%nat) (rev (map (fun j => (j, j)) (seq 0 n))))
    as [[q c'] |] eqn:F.
  - apply find_some in F. destruct F as [Hin E]. simpl in E.
    apply Nat.eqb_eq in E. subst c'.
    apply in_rev, in_map_iff in Hin. destruct Hin as (j & [= <- <-] & _).
    reflexivity.
  - exfalso.
    assert (Hin : In (c, c) (rev (map (fun j => (j, j)) (seq 0 n)))).
    { apply -> in_rev. apply in_map_iff. exists c. split; [reflexivity |].
      apply in_seq. lia. }
    pose proof (find_none _ _ F _ Hin) as E. simpl in E.
    now rewrite Nat.eqb_refl in E.
Qed.

Lemma padded_bits (n i : nat) :
  (0 < n)%nat -> (i < 2 ^ n)%nat ->
  repeat false (n - List.length (nat_bits i)) ++ nat_bits i
  = map (Nat.testbit i) (rev (seq 0 n)).
Proof.
  intros Hn Hi.
  pose proof (nat_bits_length n i Hi) as Hb.
  set (bs := nat_bits i) in *.
  set (l := repeat false (n - List.length bs) ++ bs).
  assert (Hl : List.length l = n).
  { unfold l. rewrite length_app, repeat_length. lia. }
  apply nth_ext with (d := false) (d' := false).
  - now rewrite Hl, length_map, length_rev, length_seq.
  - intros p Hp. rewrite Hl in Hp.
    rewrite (nth_indep (map (Nat.testbit i) (rev (seq 0 n))) false (Nat.testbit i 0))
      by now rewrite length_map, length_rev, length_seq.
    rewrite (map_nth (Nat.testbit i)).
    rewrite rev_nth, length_seq, seq_nth by (rewrite ?length_seq; lia).
    simpl.
    assert (Hq := format_b_qubit n i (n - S p) Hi ltac:(lia)).
    unfold format_b in Hq. fold bs in Hq. fold l in Hq.
    rewrite string_of_bits_get in Hq by lia.
    replace (n - 1 - (n - S p))%nat with p in Hq by lia.
    injection Hq as Hq.
    destruct (nth p l false), (Nat.testbit i (n - S p)); simpl in Hq;
      try reflexivity; discriminate Hq.
Qed.

(** X8: after [measure_all], the bitstring under which the sampler counts
    basis state [i] is the binary label that [print_statevector] and
    [run_show] give index [i]: [n] characters, qubit 0 rightmost. *)
Theorem outcome_is_basis_label (n i : nat) :
  (0 < n)%nat -> (i < 2 ^ n)%nat ->
  outcome (map (fun j => (j, j)) (seq 0 n)) n i = format_b n i /\
  basis_label n i
  = String.append "|"
      (String.append (outcome (map (fun j => (j, j)) (seq 0 n)) n i) "⟩").
Proof.
  intros Hn Hi.
  assert (E : outcome (map (fun j => (j, j)) (seq 0 n)) n i = format_b n i).
  { unfold outcome, format_b. f_equal. rewrite padded_bits by assumption.
    apply map_ext_in. intros c Hc. apply in_rev, in_seq in Hc.
    apply clbit_value_diagonal. lia. }
  split; [exact E | now rewrite E].
Qed.

Lemma outcome_is_basis_label_witness :
  outcome (map (fun j => (j, j)) (seq 0 3)) 3 5 = format_b 3 5 /\
  basis_label 3 5
  = String.append "|"
      (String.append (outcome (map (fun j => (j, j)) (seq 0 3)) 3 5) "⟩").
Proof.
  apply (outcome_is_basis_label 3 5).
  - lia.
  - simpl. lia.
Defined.

(** ** Invariants of the counts *)

Lemma increment_keys (key : string) (counts : Counts) :
  NoDup (map fst counts) ->
  NoDup (map fst (increment key counts)) /\
  forall k, In k (map fst (increment key counts)) <-> k = key \/ In k (map fst counts).
Proof.
  induction counts as [| [k0 v] counts IH]; simpl; intros Hnd.
  - split; [repeat constructor; intros [] | intros k; split; intros [H | H]; auto].
  - inversion Hnd as [| ? ? Hnot Hnd']; subst.
    destruct (String.eqb_spec key k0) as [-> | Hne]; simpl.
    + split; [assumption |]. intros k. split; [tauto |].
      intros [-> | H]; [now left | exact H].
    + destruct (IH Hnd') as [IH1 IH2]. split.
      * constructor; [| assumption]. rewrite IH2.
        intros [E | Hin]; [now subst | contradiction].
      * intros k. rewrite IH2. tauto.
Qed.

Lemma increment_positive (key : string) (counts : Counts) :
  Forall (fun kv => (0 < snd kv)%nat) counts ->
  Forall (fun kv => (0 < snd kv)%nat) (increment key counts).
Proof.
  induction counts as [| [k0 v] counts IH]; simpl; intros Hall.
  - repeat constructor.
  - inversion Hall; subst. destruct (String.eqb key k0); constructor; simpl in *;
      auto; lia.
Qed.

Lemma fold_increment_invariants (memory : list string) :
  forall counts,
    NoDup (map fst counts) ->
    Forall (fun kv => (0 < snd kv)%nat) counts ->
    let counts' := fold_left (fun c key => increment key c) memory counts in
    NoDup (map fst counts') /\ Forall (fun kv => (0 < snd kv)%nat) counts' /\
    forall k, In k (map fst counts') <-> In k memory \/ In k (map fst counts).
Proof.
  induction memory as [| key memory IH]; intros counts Hnd Hpos; simpl.
  - split; [assumption |]. split; [assumption |]. intros k. tauto.
  - destruct (increment_keys key counts Hnd) as [Hnd' Hkeys].
    destruct (IH _ Hnd' (increment_positive key counts Hpos)) as (I1 & I2 & I3).
    split; [exact I1 |]. split; [exact I2 |].
    intros k. rewrite I3, Hkeys. split; intros H; intuition (subst; auto).
Qed.

Lemma get_in (counts : Counts) (key : string) (v : nat) :
  NoDup (map fst counts) -> In (key, v) counts -> get counts key = v.
Proof.
  induction counts as [| [k0 v0] counts IH]; simpl; intros Hnd Hin; [contradiction |].
  inversion Hnd as [| ? ? Hnot Hnd']; subst.
  destruct Hin as [[= -> ->] | Hin].
  - now rewrite String.eqb_refl.
  - destruct (String.eqb_spec key k0) as [-> | _]; [| now apply IH].
    exfalso. apply Hnot. apply in_map_iff. now exists (k0, v).
Qed.

Lemma outcome_length (meas : list (nat * nat)) (m i : nat) :
  String.length (outcome meas m i) = m.
Proof.
  unfold outcome. now rewrite string_of_bits_length, length_map, length_rev, length_seq.
Qed.

(** X9: whenever [run_circuit_sampler] returns counts, the shot count was
    positive, the counts add up to it, no bitstring appears twice, every
    bitstring listed was drawn at least once and has one character per
    classical bit; the function needs no assumption on the draws for
    this. *)
Theorem sampler_counts_invariants (qc : QuantumCircuit) (shots : Z)
    (draws : nat -> R) (counts : Counts) :
  run_circuit_sampler qc shots draws = Ok counts ->
  (0 < shots)%Z /\
  total counts = Z.to_nat shots /\
  NoDup (map fst counts) /\
  forall key v, In (key, v) counts ->
                (0 < v)%nat /\ get counts key = v /\
                contains counts key = true /\
                String.length key = num_clbits qc.
Proof.
  unfold run_circuit_sampler.
  destruct (Z.leb_spec shots 0) as [| Hs]; [discriminate |].
  destruct (final_measurements (data qc)) as [gates meas].
  destruct (evolve (num_qubits qc) gates (initialize (num_qubits qc))) as [sv |];
    simpl; [| discriminate].
  destruct (num_clbits qc =? 0)%nat; [discriminate |].
  intros [= <-].
  set (memory := sample_memory sv meas (num_clbits qc) (Z.to_nat shots) draws).
  destruct (fold_increment_invariants memory [] (NoDup_nil _) (Forall_nil _))
    as (Hnd & Hpos & Hkeys).
  fold (get_counts memory) in Hnd, Hpos, Hkeys.
  split; [assumption |].
  split; [unfold memory; now rewrite get_counts_total, sample_memory_length |].
  split; [exact Hnd |].
  intros key v Hin.
  split; [exact (proj1 (Forall_forall _ _) Hpos _ Hin) |].
  split; [now apply get_in |]. split.
  - unfold contains. apply existsb_exists. exists (key, v).
    split; [assumption | apply String.eqb_refl].
  - assert (Hk : In key (map fst (get_counts memory))).
    { apply in_map_iff. now exists (key, v). }
    apply Hkeys in Hk. destruct Hk as [Hk | []].
    unfold memory, sample_memory in Hk. apply in_map_iff in Hk.
    destruct Hk as (k & <- & _). apply outcome_length.
Qed.

Lemma sampler_counts_invariants_witness :
  let counts :=
    get_counts (sample_memory [(1, 0); (0, 0)] [(0, 0)]%nat 1 (Z.to_nat 500)
                              (fun _ => 0)) in
  (0 < 500)%Z /\
  total counts = Z.to_nat 500 /\
  NoDup (map fst counts) /\
  forall key v, In (key, v) counts ->
                (0 < v)%nat /\ get counts key = v /\
                contains counts key = true /\
                String.length key
                = num_clbits (mkQC 1 1 [Gate.H 0; Gate.H 0; Gate.Measure 0 0]).
Proof.
  exact (sampler_counts_invariants
           (mkQC 1 1 [Gate.H 0; Gate.H 0; Gate.Measure 0 0]) 500 (fun _ => 0) _
           (run_circuit_sampler_ok
              (mkQC 1 1 [Gate.H 0; Gate.H 0; Gate.Measure 0 0]) 500 (fun _ => 0)
              [Gate.H 0; Gate.H 0] [(0, 0)]%nat [(1, 0); (0, 0)]
              eq_refl eq_refl h_h_statevector ltac:(discriminate))).
Defined.

(** ** [compare_circuits] as a relation *)

Lemma dot_conj_swap (u : list C) :
  forall v, dot (map Cconj v) u = Cconj (dot (map Cconj u) v).
Proof.
  unfold dot. induction u as [| a u IH]; intros [| b v]; simpl;
    try (unfold Cconj, C0; simpl; apply f_equal2; ring).
  rewrite IH. destruct a as [a1 a2], b as [b1 b2].
  destruct (fold_right Cplus C0
              (map (fun ab => Cmult (fst ab) (snd ab)) (combine (map Cconj u) v)))
    as [p q].
  Calgebra.
Qed.

Lemma Cabs_conj (z : C) : Cabs (Cconj z) = Cabs z.
Proof.
  destruct z as [a b]. unfold Cabs, Cnorm2, Cconj; simpl. f_equal. ring.
Qed.

Lemma fidelity_sym (sv1 sv2 : Statevector) : fidelity sv1 sv2 = fidelity sv2 sv1.
Proof. unfold fidelity. now rewrite (dot_conj_swap sv2 sv1), Cabs_conj. Qed.

Lemma fidelity_self (sv : Statevector) : norm2 sv = 1 -> fidelity sv sv = 1.
Proof.
  intros Hn. apply fidelity_same_up_to_phase; [assumption |].
  exists (1, 0). split.
  - rewrite Cabs_real; lra.
  - rewrite <- (map_id sv) at 1. apply map_ext. intros [a b]. Calgebra.
Qed.

Lemma compare_circuits_inv (qc1 qc2 : QuantumCircuit) (c : comparison) :
  compare_circuits qc1 qc2 = Ok c ->
  exists sv1 sv2,
    from_instruction qc1 = Ok sv1 /\ from_instruction qc2 = Ok sv2 /\
    List.length sv1 = List.length sv2 /\
    c = mkCmp (print_statevector sv1 default_threshold)
              (print_statevector sv2 default_threshold)
              (fidelity sv1 sv2) (isclose (fidelity sv1 sv2) 1).
Proof.
  unfold compare_circuits.
  destruct (from_instruction qc1) as [sv1 |]; simpl; [| discriminate].
  destruct (from_instruction qc2) as [sv2 |]; simpl; [| discriminate].
  destruct (Nat.eqb_spec (List.length sv1) (List.length sv2)); [| discriminate].
  intros [= <-]. now exists sv1, sv2.
Qed.

(** X10: [compare_circuits] is symmetric, swapping the two circuits swaps
    the two printed statevectors and keeps the fidelity and the answer, and
    reflexive, a circuit compared with itself has fidelity 1 and is judged
    equivalent. *)
Theorem compare_circuits_symmetric_reflexive (qc1 qc2 : QuantumCircuit)
    (c : comparison) :
  compare_circuits qc1 qc2 = Ok c ->
  compare_circuits qc2 qc1
  = Ok (mkCmp (printed2 c) (printed1 c) (printed_fidelity c) (equivalent c)) /\
  exists c1,
    compare_circuits qc1 qc1 = Ok c1 /\
    printed_fidelity c1 = 1 /\ equivalent c1 = true.
Proof.
  intros Hc. apply compare_circuits_inv in Hc.
  destruct Hc as (sv1 & sv2 & H1 & H2 & Hl & ->). simpl. split.
  - rewrite (compare_circuits_ok qc2 qc1 sv2 sv1) by auto.
    now rewrite (fidelity_sym sv2 sv1).
  - eexists. split; [now apply (compare_circuits_ok qc1 qc1 sv1 sv1) |].
    destruct (evolve_norm2 _ _ _ H1) as [_ Hn]. simpl.
    rewrite (fidelity_self sv1 Hn). split; [reflexivity |].
    apply isclose_spec. replace (1 - 1) with 0 by ring.
    rewrite Rabs_R0, Rabs_R1. unfold atol, rtol. lra.
Qed.

Lemma compare_circuits_symmetric_reflexive_witness :
  exists c1,
    compare_circuits (mkQC 1 0 [Gate.H 0]) (mkQC 1 0 [Gate.H 0]) = Ok c1 /\
    printed_fidelity c1 = 1 /\ equivalent c1 = true.
Proof.
  exact (proj2 (compare_circuits_symmetric_reflexive
                  (mkQC 1 0 [Gate.H 0]) (mkQC 1 0 [])
                  _ (compare_circuits_ok (mkQC 1 0 [Gate.H 0]) (mkQC 1 0 [])
                       [(1 / sqrt 2, 0); (1 / sqrt 2, 0)] [(1, 0); (0, 0)]
                       h_statevector eq_refl eq_refl))).
Defined.

Lemma evolve_measure_raises (n : nat) (gates : list Gate.instruction) :
  existsb is_measure gates = true ->
  forall sv, exists e, evolve n gates sv = Raise e.
Proof.
  induction gates as [| g gates IH]; simpl; [discriminate |].
  intros Hex sv. unfold apply.
  destruct (is_measure g) eqn:Hg; simpl; [now eexists |].
  simpl in Hex.
  destruct (valid_instruction n 0 g); simpl; [now apply IH | now eexists].
Qed.

(** X11: [compare_circuits] raises instead of answering when one of the
    circuits still contains a measurement (it does not strip measurements
    as [run_and_print] does), and raises [ValueError] when the two circuits
    of gates have different numbers of qubits. *)
Theorem compare_circuits_raises (qc1 qc2 : QuantumCircuit) :
  (existsb is_measure (data qc1) = true \/ existsb is_measure (data qc2) = true ->
   exists e, compare_circuits qc1 qc2 = Raise e) /\
  (unitary_circuit qc1 = true -> unitary_circuit qc2 = true ->
   num_qubits qc1 <> num_qubits qc2 ->
   compare_circuits qc1 qc2 = Raise (ValueError "shapes not aligned")).
Proof.
  split.
  - intros [Hm | Hm]; unfold compare_circuits, from_instruction.
    + destruct (evolve_measure_raises (num_qubits qc1) _ Hm
                  (initialize (num_qubits qc1))) as [e He].
      rewrite He. now eexists.
    + destruct (evolve_measure_raises (num_qubits qc2) _ Hm
                  (initialize (num_qubits qc2))) as [e He].
      rewrite He.
      destruct (evolve (num_qubits qc1) (data qc1) (initialize (num_qubits qc1)));
        simpl; now eexists.
  - intros Hu1 Hu2 Hne.
    destruct (evolve_total _ _ Hu1 (initialize (num_qubits qc1))) as [sv1 H1].
    destruct (evolve_total _ _ Hu2 (initialize (num_qubits qc2))) as [sv2 H2].
    destruct (evolve_norm2 _ _ _ H1) as [Hl1 _].
    destruct (evolve_norm2 _ _ _ H2) as [Hl2 _].
    unfold compare_circuits, from_instruction. rewrite H1, H2. simpl.
    rewrite Hl1, Hl2.
    destruct (Nat.eqb_spec (2 ^ num_qubits qc1) (2 ^ num_qubits qc2)) as [E | _];
      [| reflexivity].
    apply Nat.pow_inj_r in E; [contradiction | lia].
Qed.

Lemma compare_circuits_raises_witness :
  compare_circuits (mkQC 1 0 [Gate.H 0]) (mkQC 2 0 [Gate.H 0; Gate.CX 0 1])
  = Raise (ValueError "shapes not aligned").
Proof.
  apply (proj2 (compare_circuits_raises
                  (mkQC 1 0 [Gate.H 0]) (mkQC 2 0 [Gate.H 0; Gate.CX 0 1]))).
  - reflexivity.
  - reflexivity.
  - discriminate.
Defined.

(** ** The fidelity never exceeds 1 *)

Lemma norm2_nonneg (sv : Statevector) : 0 <= norm2 sv.
Proof.
  unfold norm2, probabilities, Rsum.
  induction sv as [| a sv IH]; simpl; [lra |].
  pose proof (Cnorm2_nonneg a). lra.
Qed.

(** The Cauchy-Schwarz inequality for the inner product of the code. *)
Lemma dot_conj_bound (u : list C) :
  forall v, Cnorm2 (dot (map Cconj u) v) <= norm2 u * norm2 v.
Proof.
  induction u as [| a u IH]; intros v.
  - unfold dot, norm2, probabilities, Rsum, Cnorm2, C0; simpl. lra.
  - destruct v as [| b v].
    + pose proof (norm2_nonneg (a :: u)).
      unfold dot, Cnorm2, C0; simpl.
      replace (norm2 []) with 0 by reflexivity. lra.
    + specialize (IH v).
      pose proof (norm2_nonneg u) as HA. pose proof (norm2_nonneg v) as HB.
      change (norm2 (a :: u)) with (Cnorm2 a + norm2 u).
      change (norm2 (b :: v)) with (Cnorm2 b + norm2 v).
      change (dot (map Cconj (a :: u)) (b :: v))
        with (Cplus (Cmult (Cconj a) b) (dot (map Cconj u) v)).
      destruct (dot (map Cconj u) v) as [p q].
      destruct a as [a1 a2], b as [b1 b2].
      unfold Cnorm2, Cplus, Cmult, Cconj in *; simpl in *.
      set (A := norm2 u) in *. set (B := norm2 v) in *.
      set (alpha := a1 * a1 + a2 * a2). set (beta := b1 * b1 + b2 * b2).
      set (c1 := a1 * b1 - - a2 * b2). set (c2 := a1 * b2 + - a2 * b1).
      assert (Hc : c1 * c1 + c2 * c2 = alpha * beta)
        by (unfold c1, c2, alpha, beta; ring).
      assert (Ha : 0 <= alpha) by (unfold alpha; nra).
      assert (Hb : 0 <= beta) by (unfold beta; nra).
      set (Y := c1 * p + c2 * q). set (X := alpha * B + beta * A).
      assert (HX : 0 <= X) by (unfold X; nra).
      assert (HY : Y * Y <= alpha * beta * (A * B)).
      { assert (E : (c1 * c1 + c2 * c2) * (p * p + q * q) - Y * Y
                    = (c1 * q - c2 * p) * (c1 * q - c2 * p)) by (unfold Y; ring).
        pose proof (Rle_0_sqr (c1 * q - c2 * p)) as Hsq. unfold Rsqr in Hsq.
        rewrite Hc in E.
        assert (Hab : 0 <= alpha * beta) by (apply Rmult_le_pos; assumption).
        assert (Hm : alpha * beta * (p * p + q * q) <= alpha * beta * (A * B))
          by (apply Rmult_le_compat_l; assumption).
        lra. }
      assert (HXY : 4 * (Y * Y) <= X * X).
      { assert (E : X * X - 4 * (alpha * beta * (A * B))
                    = (alpha * B - beta * A) * (alpha * B - beta * A))
          by (unfold X; ring).
        pose proof (Rle_0_sqr (alpha * B - beta * A)) as Hsq. unfold Rsqr in Hsq.
        lra. }
      assert (H2 : 2 * Y <= X).
      { destruct (Rle_lt_dec (2 * Y) X) as [Hle | Hgt]; [exact Hle |].
        exfalso.
        assert (X * X < 2 * Y * (2 * Y)).
        { apply Rle_lt_trans with (X * (2 * Y)).
          - apply Rmult_le_compat_l; lra.
          - apply Rmult_lt_compat_r; lra. }
        lra. }
      replace ((c1 + p) * (c1 + p) + (c2 + q) * (c2 + q))
        with (c1 * c1 + c2 * c2 + 2 * Y + (p * p + q * q)) by (unfold Y; ring).
      rewrite Hc.
      replace ((alpha + A) * (beta + B)) with (alpha * beta + X + A * B)
        by (unfold X; ring).
      lra.
Qed.

Lemma fidelity_bound (sv1 sv2 : Statevector) :
  norm2 sv1 = 1 -> norm2 sv2 = 1 -> 0 <= fidelity sv1 sv2 <= 1.
Proof.
  intros H1 H2. unfold fidelity, Cabs. split; [apply sqrt_pos |].
  apply Rle_trans with (sqrt 1); [| rewrite sqrt_1; lra].
  apply sqrt_le_1_alt.
  pose proof (dot_conj_bound sv1 sv2) as Hb. rewrite H1, H2 in Hb. lra.
Qed.

(** X12: the fidelity that [compare_circuits] prints lies between 0 and 1,
    so the circuits are judged equivalent exactly when it is at least
    1 - (1e-8 + 1e-5). *)
Theorem compare_circuits_fidelity_range (qc1 qc2 : QuantumCircuit)
    (c : comparison) :
  compare_circuits qc1 qc2 = Ok c ->
  0 <= printed_fidelity c <= 1 /\
  (equivalent c = true <-> 1 - (1e-8 + 1e-5) <= printed_fidelity c).
Proof.
  intros Hc. apply compare_circuits_inv in Hc.
  destruct Hc as (sv1 & sv2 & H1 & H2 & _ & ->). simpl.
  destruct (evolve_norm2 _ _ _ H1) as [_ Hn1].
  destruct (evolve_norm2 _ _ _ H2) as [_ Hn2].
  pose proof (fidelity_bound sv1 sv2 Hn1 Hn2) as Hf.
  split; [exact Hf |].
  rewrite isclose_spec, Rabs_R1. unfold atol, rtol.
  rewrite Rabs_left1 by lra. split; intros; lra.
Qed.

Lemma compare_circuits_fidelity_range_witness :
  0 <= fidelity [(1 / sqrt 2, 0); (1 / sqrt 2, 0)] [(1, 0); (0, 0)] <= 1 /\
  (isclose (fidelity [(1 / sqrt 2, 0); (1 / sqrt 2, 0)] [(1, 0); (0, 0)]) 1 = true <->
   1 - (1e-8 + 1e-5) <= fidelity [(1 / sqrt 2, 0); (1 / sqrt 2, 0)] [(1, 0); (0, 0)]).
Proof.
  exact (compare_circuits_fidelity_range
           (mkQC 1 0 [Gate.H 0]) (mkQC 1 0 []) _
           (compare_circuits_ok (mkQC 1 0 [Gate.H 0]) (mkQC 1 0 [])
              [(1 / sqrt 2, 0); (1 / sqrt 2, 0)] [(1, 0); (0, 0)]
              h_statevector eq_refl eq_refl)).
Defined.

(** ** The validation tests *)

Lemma get_fold_count (memory : list string) (k : string) :
  forall counts,
    get (fold_left (fun c key => increment key c) memory counts) k
    = (count_occ string_dec memory k + get counts k)%nat.
Proof.
  induction memory as [| key memory IH]; intros counts; simpl; [reflexivity |].
  rewrite IH, get_increment.
  destruct (string_dec key k) as [-> | Hne].
  - rewrite String.eqb_refl. lia.
  - destruct (String.eqb_spec k key) as [-> | _]; [contradiction | reflexivity].
Qed.

Lemma get_get_counts (memory : list string) (k : string) :
  get (get_counts memory) k = count_occ string_dec memory k.
Proof. unfold get_counts. rewrite get_fold_count. simpl. lia. Qed.

Lemma contains_spec (counts : Counts) (k : string) :
  contains counts k = true <-> In k (map fst counts).
Proof.
  unfold contains. rewrite existsb_exists, in_map_iff. split.
  - intros (kv & Hin & E). apply String.eqb_eq in E. now exists kv.
  - intros (kv & E & Hin). exists kv. split; [assumption |].
    rewrite E. apply String.eqb_refl.
Qed.

Lemma contains_get_counts (memory : list string) (k : string) :
  contains (get_counts memory) k = (0 <? get (get_counts memory) k)%nat.
Proof.
  rewrite get_get_counts.
  destruct (fold_increment_invariants memory [] (NoDup_nil _) (Forall_nil _))
    as (_ & _ & Hkeys).
  fold (get_counts memory) in Hkeys.
  destruct (Nat.ltb_spec 0 (count_occ string_dec memory k)) as [Hpos | Hz].
  - apply contains_spec, Hkeys. left. now apply (count_occ_In string_dec).
  - apply not_true_is_false. intros Hc. apply contains_spec, Hkeys in Hc.
    destruct Hc as [Hin | []]. apply (count_occ_In string_dec) in Hin. lia.
Qed.

(** The tally of a memory with two outcomes. *)
Lemma count_two_outcomes (b : nat -> bool) (x y : string) (l : list nat) :
  x <> y ->
  let memory := map (fun k => if b k then x else y) l in
  count_occ string_dec memory x = List.length (filter b l) /\
  (count_occ string_dec memory y + List.length (filter b l) = List.length l)%nat /\
  forall z, z <> x -> z <> y -> count_occ string_dec memory z = 0%nat.
Proof.
  intros Hxy memory. subst memory.
  induction l as [| k l IH]; simpl; [repeat split; reflexivity |].
  destruct IH as (I1 & I2 & I3).
  destruct (b k); simpl.
  - destruct (string_dec x x) as [_ | N]; [| contradiction].
    destruct (string_dec x y) as [E | _]; [contradiction |].
    split; [lia |]. split; [lia |].
    intros z Hzx Hzy. destruct (string_dec x z) as [E | _]; [now subst | now apply I3].
  - destruct (string_dec y x) as [E | _]; [now subst |].
    destruct (string_dec y y) as [_ | N]; [| contradiction].
    split; [lia |]. split; [lia |].
    intros z Hzx Hzy. destruct (string_dec y z) as [E | _]; [now subst | now apply I3].
Qed.

(** The draws of the circuit H, measure: below 1/2 gives "0", else "1". *)
Lemma h_memory (shots : nat) (draws : nat -> R) :
  uniform_draws draws ->
  sample_memory [(1 / sqrt 2, 0); (1 / sqrt 2, 0)] [(0, 0)]%nat 1 shots draws
  = map (fun k => if Rltb (draws k) (1 / 2) then "0"%string else "1"%string)
        (seq 0 shots).
Proof.
  intros Hd. unfold sample_memory. apply map_ext. intros k.
  pose proof inv_sqrt2_sq as E. specialize (Hd k).
  unfold probabilities, Cnorm2, Rltb; simpl.
  destruct (Rlt_dec (draws k) (1 / 2)) as [Hlt | Hge].
  - destruct (Rlt_dec (draws k) (0 + (1 / sqrt 2 * (1 / sqrt 2) + 0 * 0)));
      [reflexivity | lra].
  - destruct (Rlt_dec (draws k) (0 + (1 / sqrt 2 * (1 / sqrt 2) + 0 * 0))); [lra |].
    destruct (Rlt_dec (draws k) (0 + (1 / sqrt 2 * (1 / sqrt 2) + 0 * 0)
                                 + (1 / sqrt 2 * (1 / sqrt 2) + 0 * 0)));
      [reflexivity | lra].
Qed.

(** The draws of the measured Bell circuit: below 1/2 gives "00", else
    "11". *)
Lemma bell_memory (shots : nat) (draws : nat -> R) :
  uniform_draws draws ->
  sample_memory [(1 / sqrt 2, 0); (0, 0); (0, 0); (1 / sqrt 2, 0)]
                [(0, 0); (1, 1)]%nat 2 shots draws
  = map (fun k => if Rltb (draws k) (1 / 2) then "00"%string else "11"%string)
        (seq 0 shots).
Proof.
  intros Hd. unfold sample_memory. apply map_ext. intros k.
  pose proof inv_sqrt2_sq as E. specialize (Hd k).
  unfold probabilities, Cnorm2, Rltb; simpl.
  destruct (Rlt_dec (draws k) (1 / 2)) as [Hlt | Hge].
  - destruct (Rlt_dec (draws k) (0 + (1 / sqrt 2 * (1 / sqrt 2) + 0 * 0)));
      [reflexivity | lra].
  - repeat match goal with
           | |- context [Rlt_dec ?a ?b] =>
               destruct (Rlt_dec a b); try lra; try reflexivity
           end.
Qed.

Lemma h_circuit_counts (shots : Z) (draws : nat -> R) :
  (0 < shots)%Z -> uniform_draws draws ->
  exists counts,
    run_circuit_sampler (mkQC 1 1 [Gate.H 0; Gate.Measure 0 0]) shots draws = Ok counts /\
    get counts "0" = draws_below (1 / 2) (Z.to_nat shots) draws /\
    (get counts "1" + draws_below (1 / 2) (Z.to_nat shots) draws = Z.to_nat shots)%nat /\
    contains counts "0" = (0 <? get counts "0")%nat /\
    contains counts "1" = (0 <? get counts "1")%nat.
Proof.
  intros Hs Hd. eexists. split.
  - apply (run_circuit_sampler_ok _ shots draws [Gate.H 0] [(0, 0)]%nat
             [(1 / sqrt 2, 0); (1 / sqrt 2, 0)]);
      [assumption | reflexivity | exact h_statevector | discriminate].
  - simpl num_clbits. rewrite h_memory by assumption.
    rewrite !contains_get_counts, !get_get_counts.
    destruct (count_two_outcomes (fun k => Rltb (draws k) (1 / 2)) "0" "1"
                (seq 0 (Z.to_nat shots)) ltac:(discriminate)) as (C0' & C1' & _).
    rewrite length_seq in C1'. unfold draws_below.
    repeat split; assumption.
Qed.

Lemma bell_circuit_counts (shots : Z) (draws : nat -> R) :
  (0 < shots)%Z -> uniform_draws draws ->
  exists counts,
    run_circuit_sampler
      (mkQC 2 2 [Gate.H 0; Gate.CX 0 1; Gate.Measure 0 0; Gate.Measure 1 1])
      shots draws = Ok counts /\
    get counts "00" = draws_below (1 / 2) (Z.to_nat shots) draws /\
    (get counts "11" + draws_below (1 / 2) (Z.to_nat shots) draws = Z.to_nat shots)%nat /\
    get counts "01" = 0%nat /\ get counts "10" = 0%nat /\
    contains counts "00" = (0 <? get counts "00")%nat /\
    contains counts "11" = (0 <? get counts "11")%nat.
Proof.
  intros Hs Hd. eexists. split.
  - apply (run_circuit_sampler_ok _ shots draws [Gate.H 0; Gate.CX 0 1]
             [(0, 0); (1, 1)]%nat
             [(1 / sqrt 2, 0); (0, 0); (0, 0); (1 / sqrt 2, 0)]);
      [assumption | reflexivity | exact bell_statevector | discriminate].
  - simpl num_clbits. rewrite bell_memory by assumption.
    rewrite !contains_get_counts, !get_get_counts.
    destruct (count_two_outcomes (fun k => Rltb (draws k) (1 / 2)) "00" "11"
                (seq 0 (Z.to_nat shots)) ltac:(discriminate)) as (C0' & C1' & Cz).
    rewrite length_seq in C1'. unfold draws_below.
    repeat split; try assumption; apply Cz; discriminate.
Qed.

Lemma h_h_circuit_counts (shots : Z) (draws : nat -> R) :
  (0 < shots)%Z -> uniform_draws draws ->
  run_circuit_sampler (mkQC 1 1 [Gate.H 0; Gate.H 0; Gate.Measure 0 0]) shots draws
  = Ok [("0"%string, Z.to_nat shots)].
Proof.
  intros Hs Hd.
  rewrite (run_circuit_sampler_ok _ shots draws [Gate.H 0; Gate.H 0] [(0, 0)]%nat
             [(1, 0); (0, 0)]) by (try reflexivity; try exact h_h_statevector;
                                    try assumption; discriminate).
  simpl num_clbits.
  rewrite (sample_memory_basis_state _ _ _ _ draws 0).
  - destruct (Z.to_nat shots) as [| s] eqn:E; [lia |].
    now rewrite get_counts_repeat.
  - unfold norm2, probabilities, Rsum, Cnorm2; simpl. lra.
  - assumption.
  - intros i Hi. destruct i as [| [| i]]; [congruence | reflexivity |].
    unfold amp. simpl. now destruct i.
Qed.

Lemma test_identity_passes (draws : nat -> R) :
  uniform_draws draws -> test_identity draws = Passed.
Proof.
  intros Hd. unfold test_identity.
  change (qc <- h 0 (new_circuit 1 1) ;; qc <- h 0 qc ;; qc <- measure 0 0 qc ;;
          run_circuit_sampler qc 1000 draws)
    with (run_circuit_sampler (mkQC 1 1 [Gate.H 0; Gate.H 0; Gate.Measure 0 0])
                              1000 draws).
  rewrite h_h_circuit_counts by (assumption || lia). reflexivity.
Qed.

Lemma test_statevector_passes : test_statevector = Passed.
Proof.
  unfold test_statevector.
  change (qc <- h 0 (new_circuit 2 0) ;; qc <- cx 0 1 qc ;; from_instruction qc)
    with (evolve 2 [Gate.H 0; Gate.CX 0 1] (initialize 2)).
  rewrite bell_statevector. unfold amp, nth.
  pose proof inv_sqrt2_pos as Hp.
  rewrite Cabs_C0, Cabs_real by lra.
  replace (1 / sqrt 2 - 1 / sqrt 2) with 0 by ring. rewrite Rabs_R0.
  unfold assert_then, Rltb.
  destruct (Rlt_dec 0 1e-6) as [_ | N]; [| exfalso; apply N; lra].
  destruct (Rlt_dec 0 1e-10) as [_ | N]; [| exfalso; apply N; lra].
  reflexivity.
Qed.

(** X13: [test_identity] and [test_statevector] pass whatever the sampler
    draws: their assertions follow from the circuits alone. *)
Theorem deterministic_tests_pass (draws : nat -> R) :
  uniform_draws draws ->
  test_identity draws = Passed /\ test_statevector = Passed.
Proof.
  intros Hd. split.
  - now apply test_identity_passes.
  - exact test_statevector_passes.
Qed.

Lemma deterministic_tests_pass_witness :
  test_identity (fun _ => 9 / 10) = Passed /\ test_statevector = Passed.
Proof.
  apply (deterministic_tests_pass (fun _ => 9 / 10)). intros _. lra.
Defined.

Lemma to_nat_1000 : Z.to_nat 1000 = 1000%nat.
Proof. reflexivity. Qed.

Lemma test_basic_measurement_verdict (draws : nat -> R) :
  uniform_draws draws ->
  test_basic_measurement draws
  = (if ((400 <? draws_below (1 / 2) 1000 draws)
         && (draws_below (1 / 2) 1000 draws <? 600))%nat%bool
     then Passed else AssertionFailed).
Proof.
  intros H1. unfold test_basic_measurement.
  change (qc <- h 0 (new_circuit 1 1) ;; qc <- measure 0 0 qc ;;
          run_circuit_sampler qc 1000 draws)
    with (run_circuit_sampler (mkQC 1 1 [Gate.H 0; Gate.Measure 0 0]) 1000 draws).
  destruct (h_circuit_counts 1000 draws ltac:(lia) H1)
    as (counts & -> & G0 & G1 & K0 & K1).
  rewrite to_nat_1000 in G0, G1.
  rewrite K0, K1, G0.
  revert G1. generalize (draws_below (1 / 2) 1000 draws) as z1. intros z1 G1.
  assert (E1 : get counts "1" = (1000 - z1)%nat) by (clear - G1; lia).
  assert (Hz : (z1 <= 1000)%nat) by (clear - G1; lia).
  rewrite E1. unfold assert_then. clear - Hz.
  destruct (Nat.ltb_spec 400 z1), (Nat.ltb_spec z1 600),
    (Nat.ltb_spec 0 z1), (Nat.ltb_spec 0 (1000 - z1)),
    (Nat.ltb_spec 400 (1000 - z1)), (Nat.ltb_spec (1000 - z1) 600);
    simpl; try reflexivity; lia.
Qed.

Lemma test_bell_state_verdict (draws : nat -> R) :
  uniform_draws draws ->
  test_bell_state draws
  = (if ((0 <? draws_below (1 / 2) 1000 draws)
         && (draws_below (1 / 2) 1000 draws <? 1000))%nat%bool
     then Passed else AssertionFailed).
Proof.
  intros H3. unfold test_bell_state.
  change (qc <- create_bell_state "phi_plus" ;; qc <- measure_range 2 qc ;;
          run_circuit_sampler qc 1000 draws)
    with (run_circuit_sampler
            (mkQC 2 2 [Gate.H 0; Gate.CX 0 1; Gate.Measure 0 0; Gate.Measure 1 1])
            1000 draws).
  destruct (bell_circuit_counts 1000 draws ltac:(lia) H3)
    as (counts & -> & G0 & G1 & G01 & G10 & K0 & K1).
  rewrite to_nat_1000 in G0, G1.
  rewrite K0, K1, G0, G01, G10.
  revert G1. generalize (draws_below (1 / 2) 1000 draws) as z3. intros z3 G1.
  assert (E1 : get counts "11" = (1000 - z3)%nat) by (clear - G1; lia).
  assert (Hz : (z3 <= 1000)%nat) by (clear - G1; lia).
  rewrite E1. unfold assert_then. clear - Hz.
  destruct (Nat.ltb_spec 0 z3), (Nat.ltb_spec z3 1000),
    (Nat.ltb_spec 0 (1000 - z3)); simpl; try reflexivity; lia.
Qed.

(** X14: the other two tests are statistical.  [test_basic_measurement]
    passes exactly when more than 400 and fewer than 600 of its 1000 draws
    fall below 1/2, [test_bell_state] exactly when some but not all of its
    draws do; otherwise an assertion fails.  [run_all_tests] returns True
    exactly when both conditions hold. *)
Theorem statistical_tests (draws1 draws2 draws3 : nat -> R) :
  uniform_draws draws1 -> uniform_draws draws2 -> uniform_draws draws3 ->
  let z1 := draws_below (1 / 2) 1000 draws1 in
  let z3 := draws_below (1 / 2) 1000 draws3 in
  test_basic_measurement draws1
  = (if ((400 <? z1) && (z1 <? 600))%nat%bool then Passed else AssertionFailed) /\
  test_bell_state draws3
  = (if ((0 <? z3) && (z3 <? 1000))%nat%bool then Passed else AssertionFailed) /\
  run_all_tests draws1 draws2 draws3
  = ((400 <? z1) && (z1 <? 600) && ((0 <? z3) && (z3 <? 1000)))%nat%bool.
Proof.
  intros H1 H2 H3 z1 z3. subst z1 z3.
  split; [now apply test_basic_measurement_verdict |].
  split; [now apply test_bell_state_verdict |].
  unfold run_all_tests.
  rewrite (test_basic_measurement_verdict draws1 H1),
    (test_bell_state_verdict draws3 H3),
    (test_identity_passes draws2 H2), test_statevector_passes.
  generalize (draws_below (1 / 2) 1000 draws1) as z1.
  generalize (draws_below (1 / 2) 1000 draws3) as z3.
  intros z3 z1.
  destruct ((400 <? z1) && (z1 <? 600))%nat%bool; [| reflexivity].
  destruct ((0 <? z3) && (z3 <? 1000))%nat%bool; reflexivity.
Qed.

Lemma statistical_tests_witness :
  run_all_tests (fun _ => 0%R) (fun _ => 0%R) (fun _ => 0%R)
  = ((400 <? draws_below (1 / 2) 1000 (fun _ => 0%R))%nat
     && (draws_below (1 / 2) 1000 (fun _ => 0%R) <? 600)%nat
     && ((0 <? draws_below (1 / 2) 1000 (fun _ => 0%R))%nat
         && (draws_below (1 / 2) 1000 (fun _ => 0%R) <? 1000)%nat))%bool.
Proof.
  assert (H : uniform_draws (fun _ => 0)) by (intros _; lra).
  exact (proj2 (proj2 (statistical_tests (fun _ => 0) (fun _ => 0) (fun _ => 0)
                         H H H))).
Defined.

(** ** Setup verification *)

(** X15: [verify_qiskit] answers True exactly when some but not all of
    its 100 draws fall below 1/2: on a working installation it can still
    answer False. *)
Theorem verify_qiskit_needs_both_outcomes (draws : nat -> R) :
  uniform_draws draws ->
  let z := draws_below (1 / 2) 100 draws in
  verify_qiskit draws = ((0 <? z) && (z <? 100))%nat%bool.
Proof.
  intros Hd z. unfold verify_qiskit.
  change (qc <- h 0 (new_circuit 1 1) ;; qc <- measure 0 0 qc ;;
          run_circuit_sampler qc 100 draws)
    with (run_circuit_sampler (mkQC 1 1 [Gate.H 0; Gate.Measure 0 0]) 100 draws).
  destruct (h_circuit_counts 100 draws ltac:(lia) Hd)
    as (counts & -> & G0 & G1 & K0 & K1).
  change (Z.to_nat 100) with 100%nat in G0, G1. fold z in G0, G1.
  rewrite K0, K1, G0. clearbody z.
  assert (E1 : get counts "1" = (100 - z)%nat) by (clear - G1; lia).
  assert (Hz : (z <= 100)%nat) by (clear - G1; lia).
  rewrite E1. clear - Hz.
  destruct (Nat.ltb_spec 0 z), (Nat.ltb_spec z 100), (Nat.ltb_spec 0 (100 - z));
    simpl; try reflexivity; lia.
Qed.

Lemma verify_qiskit_needs_both_outcomes_witness :
  verify_qiskit (fun _ => 0%R)
  = ((0 <? draws_below (1 / 2) 100 (fun _ => 0%R))
     && (draws_below (1 / 2) 100 (fun _ => 0%R) <? 100))%nat%bool.
Proof.
  apply (verify_qiskit_needs_both_outcomes (fun _ => 0)). intros _. lra.
Defined.

(** A generator that always draws 0 makes every shot "0". *)
Lemma draws_below_all (shots : nat) :
  draws_below (1 / 2) shots (fun _ => 0) = shots.
Proof.
  unfold draws_below. rewrite filter_all; [apply length_seq |].
  intros k _. unfold Rltb. destruct (Rlt_dec 0 (1 / 2)); [reflexivity | lra].
Qed.

(** X16: [check_python_version] accepts exactly the versions from 3.8 on,
    in the order of (major, minor): a version after an accepted one is
    accepted.  [check_dependencies] reports on all three packages, also
    after a missing one, and answers True exactly when all three can be
    imported. *)
Theorem setup_checks (major minor major' minor' : Z) (importable : string -> bool) :
  (check_python_version major minor = true <->
   (3 < major)%Z \/ (major = 3%Z /\ (8 <= minor)%Z)) /\
  (check_python_version major minor = true ->
   (major < major')%Z \/ (major = major' /\ (minor <= minor')%Z) ->
   check_python_version major' minor' = true) /\
  fst (check_dependencies importable)
  = [("Qiskit"%string, importable "qiskit"%string);
     ("Matplotlib"%string, importable "matplotlib"%string);
     ("NumPy"%string, importable "numpy"%string)] /\
  snd (check_dependencies importable)
  = (importable "qiskit"%string && importable "matplotlib"%string && importable "numpy"%string)%bool.
Proof.
  assert (V : forall a b, check_python_version a b = true <->
                          (3 < a)%Z \/ (a = 3%Z /\ (8 <= b)%Z)).
  { intros a b. unfold check_python_version.
    destruct (Z.ltb_spec a 3), (Z.eqb_spec a 3), (Z.ltb_spec b 8); simpl;
      split; intros Hv; try discriminate; try reflexivity; lia. }
  split; [apply V |]. split.
  - rewrite !V. lia.
  - unfold check_dependencies, required_packages. simpl.
    destruct (importable "qiskit"%string), (importable "matplotlib"%string), (importable "numpy"%string);
      split; reflexivity.
Qed.

Lemma setup_checks_witness :
  check_python_version 4 0 = true.
Proof.
  apply (proj1 (proj2 (setup_checks 3 8 4 0 (fun _ => true)))).
  - reflexivity.
  - left. reflexivity.
Defined.

(** ** X and CX on basis states *)

Lemma basis_state_length (n i : nat) : List.length (basis_state n i) = (2 ^ n)%nat.
Proof. unfold basis_state. now rewrite length_map, length_seq. Qed.

Lemma amp_basis_state (n i k : nat) :
  (k < 2 ^ n)%nat -> amp (basis_state n i) k = if (k =? i)%nat then C1 else C0.
Proof. intros Hk. unfold basis_state. now rewrite amp_map_seq. Qed.

Lemma initialize_basis_state (n : nat) : initialize n = basis_state n 0.
Proof.
  rewrite (statevector_as_map (initialize n)), initialize_length.
  unfold basis_state. apply map_ext. intros k. apply amp_initialize.
Qed.

Lemma partner_eqb (k i t : nat) :
  (partner k t =? i)%nat = (k =? partner i t)%nat.
Proof.
  destruct (Nat.eqb_spec (partner k t) i) as [<- | Hne].
  - now rewrite partner_involutive, Nat.eqb_refl.
  - symmetry. apply Nat.eqb_neq. intros ->. apply Hne. apply partner_involutive.
Qed.

Lemma apply_X_basis_state (n i t : nat) :
  (t < n)%nat ->
  apply_gate X_matrix t (basis_state n i) = basis_state n (partner i t).
Proof.
  intros Ht. unfold apply_gate. rewrite basis_state_length.
  unfold basis_state at 2. apply map_ext_in. intros k Hk.
  apply in_seq in Hk.
  assert (Hp : (partner k t < 2 ^ n)%nat) by (apply partner_lt; lia).
  unfold transformed. rewrite !amp_basis_state by lia.
  rewrite partner_eqb. unfold X_matrix; simpl.
  destruct (Nat.testbit k t), (k =? partner i t)%nat, (k =? i)%nat; Calgebra.
Qed.

Lemma apply_CX_basis_state (n i c t : nat) :
  (t < n)%nat -> c <> t ->
  apply_controlled X_matrix c t (basis_state n i)
  = basis_state n (if Nat.testbit i c then partner i t else i).
Proof.
  intros Ht Hc. unfold apply_controlled. rewrite basis_state_length.
  unfold basis_state at 3. apply map_ext_in. intros k Hk.
  apply in_seq in Hk.
  assert (Hp : (partner k t < 2 ^ n)%nat) by (apply partner_lt; lia).
  unfold transformed. rewrite !amp_basis_state by lia.
  rewrite partner_eqb. unfold X_matrix; simpl.
  destruct (Nat.testbit k c) eqn:Bk, (Nat.testbit i c) eqn:Bi.
  - destruct (Nat.testbit k t), (k =? partner i t)%nat, (k =? i)%nat; Calgebra.
  - assert (E1 : (k =? partner i t)%nat = false).
    { apply Nat.eqb_neq. intros ->.
      rewrite partner_other_bit in Bk by assumption. congruence. }
    assert (E2 : (k =? i)%nat = false).
    { apply Nat.eqb_neq. intros ->. congruence. }
    rewrite E1, E2. destruct (Nat.testbit k t); Calgebra.
  - assert (E1 : (k =? partner i t)%nat = false).
    { apply Nat.eqb_neq. intros ->.
      rewrite partner_other_bit in Bk by assumption. congruence. }
    assert (E2 : (k =? i)%nat = false).
    { apply Nat.eqb_neq. intros ->. congruence. }
    now rewrite E1, E2.
  - reflexivity.
Qed.

(** X17: on a basis state the gates X and CX act as the classical NOT and
    controlled NOT on the bits of its index: X(t) flips bit [t], CX(c, t)
    flips bit [t] when bit [c] is 1 and does nothing otherwise.  So the
    circuit of [cnot_demonstration], CX(0,1), X(0), CX(0,1), ends in |11>
    and its 1024 shots are all "11". *)
Theorem classical_gates_on_basis_states (n i c t : nat) (draws : nat -> R) :
  (c < n)%nat -> (t < n)%nat -> c <> t -> uniform_draws draws ->
  initialize n = basis_state n 0 /\
  evolve n [Gate.X t] (basis_state n i) = Ok (basis_state n (partner i t)) /\
  evolve n [Gate.CX c t] (basis_state n i)
  = Ok (basis_state n (if Nat.testbit i c then partner i t else i)) /\
  cnot_demonstration draws = Ok [("11"%string, 1024%nat)].
Proof.
  intros Hc Ht Hct Hd.
  split; [apply initialize_basis_state |].
  assert (Vc : (c <? n)%nat = true) by now apply Nat.ltb_lt.
  assert (Vt : (t <? n)%nat = true) by now apply Nat.ltb_lt.
  assert (Vct : (c =? t)%nat = false) by now apply Nat.eqb_neq.
  split; [| split].
  - simpl. unfold apply. simpl. rewrite Vt. simpl.
    now rewrite apply_X_basis_state.
  - simpl. unfold apply. simpl. rewrite Vc, Vt, Vct. simpl.
    now rewrite apply_CX_basis_state.
  - unfold cnot_demonstration.
    change (qc <- cx 0 1 (new_circuit 2 2) ;; qc <- x 0 qc ;; qc <- cx 0 1 qc ;;
            qc <- measure_list [0; 1]%nat [0; 1]%nat qc ;;
            run_circuit_sampler qc 1024 draws)
      with (run_circuit_sampler
              (mkQC 2 2 [Gate.CX 0 1; Gate.X 0; Gate.CX 0 1;
                         Gate.Measure 0 0; Gate.Measure 1 1]) 1024 draws).
    assert (Hsv : evolve 2 [Gate.CX 0 1; Gate.X 0; Gate.CX 0 1] (initialize 2)
                  = Ok (basis_state 2 3)).
    { rewrite initialize_basis_state. simpl. unfold apply. simpl.
      rewrite (apply_CX_basis_state 2 0 0 1) by lia. simpl.
      rewrite (apply_X_basis_state 2 0 0) by lia.
      change (partner 0 0) with 1%nat.
      rewrite (apply_CX_basis_state 2 1 0 1) by lia. reflexivity. }
    rewrite (run_circuit_sampler_ok _ 1024 draws [Gate.CX 0 1; Gate.X 0; Gate.CX 0 1]
               [(0, 0); (1, 1)]%nat (basis_state 2 3))
      by (try reflexivity; try exact Hsv; try lia; discriminate).
    simpl num_clbits.
    rewrite (sample_memory_basis_state _ _ _ _ draws 3).
    + change (Z.to_nat 1024) with (S 1023). now rewrite get_counts_repeat.
    + destruct (evolve_norm2 _ _ _ Hsv) as [_ Hn]. exact Hn.
    + assumption.
    + intros k Hk. destruct (Nat.lt_ge_cases k 4) as [Hlt | Hge].
      * rewrite amp_basis_state by (simpl; lia).
        destruct (Nat.eqb_spec k 3); [contradiction | reflexivity].
      * apply amp_overflow. rewrite basis_state_length. simpl. lia.
Qed.

Lemma classical_gates_on_basis_states_witness :
  cnot_demonstration (fun _ => 1 / 2) = Ok [("11"%string, 1024%nat)].
Proof.
  refine (proj2 (proj2 (proj2 (classical_gates_on_basis_states 2 1 0 1
                                 (fun _ => 1 / 2) _ _ _ _)))).
  - lia.
  - lia.
  - discriminate.
  - intros _. lra.
Defined.

(** ** The GHZ and interference experiments *)

Ltac solve_amps_deep :=
  repeat (apply f_equal2; [ | try reflexivity ]);
  try reflexivity;
  pose proof inv_sqrt2_sq;
  generalize dependent (1 / sqrt 2);
  let r := fresh "r" in
  let Hr := fresh "Hr" in
  intros r Hr;
  ring_simplify;
  repeat (replace (r ^ 4) with ((r * r) * (r * r)) by ring);
  repeat (replace (r ^ 2) with (r * r) by ring);
  rewrite ?Hr; try lra; try nra.

Lemma ghz_in_x_statevector :
  evolve 3 [Gate.H 0; Gate.CX 0 1; Gate.CX 0 2; Gate.H 0; Gate.H 1; Gate.H 2]
         (initialize 3)
  = Ok [(1 / 2, 0); (0, 0); (0, 0); (1 / 2, 0);
        (0, 0); (1 / 2, 0); (1 / 2, 0); (0, 0)].
Proof. compute_sv. f_equal. solve_amps_deep. Qed.

Lemma ghz_phase_statevector :
  evolve 3 [Gate.H 0; Gate.CX 0 1; Gate.CX 0 2; Gate.Z 0;
            Gate.H 0; Gate.H 1; Gate.H 2] (initialize 3)
  = Ok [(0, 0); (1 / 2, 0); (1 / 2, 0); (0, 0);
        (1 / 2, 0); (0, 0); (0, 0); (1 / 2, 0)].
Proof. compute_sv. f_equal. solve_amps_deep. Qed.

Lemma base_statevector :
  evolve 2 [Gate.H 0; Gate.H 1; Gate.H 0; Gate.H 1] (initialize 2)
  = Ok [(1, 0); (0, 0); (0, 0); (0, 0)].
Proof. compute_sv. f_equal. solve_amps_deep. Qed.

Lemma phase_statevector :
  evolve 2 [Gate.H 0; Gate.H 1; Gate.Z 0; Gate.Z 1; Gate.H 0; Gate.H 1] (initialize 2)
  = Ok [(0, 0); (0, 0); (0, 0); (1, 0)].
Proof. compute_sv. f_equal. solve_amps_deep. Qed.

Lemma cz_statevector :
  evolve 2 [Gate.H 0; Gate.H 1; Gate.CZ 0 1; Gate.H 0; Gate.H 1] (initialize 2)
  = Ok [(1 / 2, 0); (1 / 2, 0); (1 / 2, 0); (- (1 / 2), 0)].
Proof. compute_sv. f_equal. solve_amps_deep. Qed.

Lemma run_and_print_counts (qc : QuantumCircuit) (shots : Z) (draws : nat -> R)
    (counts : Counts) :
  (0 < shots)%Z ->
  run_circuit_sampler qc shots draws = Ok counts ->
  run_and_print qc shots false draws = Ok (mkOut (Some counts) [] None).
Proof.
  intros Hs Hrun. unfold run_and_print.
  destruct (Z.ltb_spec 0 shots); [| lia]. now rewrite Hrun.
Qed.

Lemma run_show_counts (qc : QuantumCircuit) (shots : Z) (draws : nat -> R)
    (counts : Counts) (sv : Statevector) :
  run_circuit_sampler qc shots draws = Ok counts ->
  from_instruction (remove_final_measurements qc) = Ok sv ->
  run_show qc shots true draws
  = Ok (mkOut (Some counts) (amplitude_lines (num_qubits qc) sv) (Some sv)).
Proof. intros Hrun Hsv. unfold run_show. now rewrite Hrun; simpl; rewrite Hsv. Qed.

(** The sampler on a circuit that ends in one basis state. *)
Lemma run_circuit_sampler_basis (qc : QuantumCircuit) (shots : Z)
    (draws : nat -> R) (gates : list Gate.instruction) (meas : list (nat * nat))
    (sv : Statevector) (k : nat) :
  (0 < shots)%Z ->
  final_measurements (data qc) = (gates, meas) ->
  evolve (num_qubits qc) gates (initialize (num_qubits qc)) = Ok sv ->
  num_clbits qc <> 0%nat ->
  uniform_draws draws ->
  (forall i, i <> k -> amp sv i = C0) ->
  run_circuit_sampler qc shots draws
  = Ok [(outcome meas (num_clbits qc) k, Z.to_nat shots)].
Proof.
  intros Hs Hf He Hm Hd Hk.
  rewrite (run_circuit_sampler_ok qc shots draws gates meas sv) by assumption.
  destruct (evolve_norm2 _ _ _ He) as [_ Hn].
  rewrite (sample_memory_basis_state sv meas _ _ draws k Hn Hd Hk).
  destruct (Z.to_nat shots) as [| s] eqn:E; [lia |].
  now rewrite get_counts_repeat.
Qed.

(** X18: in [ghz_experiments] the GHZ state measured in the X basis gives
    only the bitstrings with an even number of 1s, and the same state with
    a Z on qubit 0 gives only those with an odd number: the two runs share
    no outcome, which is how the phase shows.  The computational-basis run
    gives only "000" and "111", and the run with [shots=0] samples nothing
    and returns the GHZ statevector. *)
Theorem ghz_experiments_outcomes (draws1 draws3 draws4 : nat -> R) :
  uniform_draws draws1 -> uniform_draws draws3 -> uniform_draws draws4 ->
  exists counts1 lines counts3 counts4,
    ghz_experiments draws1 draws3 draws4
    = Ok (mkOut (Some counts1) [] None,
          mkOut None lines
                (Some [(1 / sqrt 2, 0); (0, 0); (0, 0); (0, 0);
                       (0, 0); (0, 0); (0, 0); (1 / sqrt 2, 0)]),
          mkOut (Some counts3) [] None,
          mkOut (Some counts4) [] None) /\
    total counts1 = 2048%nat /\ total counts3 = 2048%nat /\ total counts4 = 2048%nat /\
    (forall key, contains counts1 key = true ->
                 In key ["000"; "111"]%string) /\
    (forall key, contains counts3 key = true ->
                 In key ["000"; "011"; "101"; "110"]%string) /\
    (forall key, contains counts4 key = true ->
                 In key ["001"; "010"; "100"; "111"]%string).
Proof.
  intros H1 H3 H4.
  set (meas := [(0, 0); (1, 1); (2, 2)]%nat).
  set (m012 := [Gate.Measure 0 0; Gate.Measure 1 1; Gate.Measure 2 2]).
  destruct (run_circuit_sampler_outcomes
              (mkQC 3 3 ([Gate.H 0; Gate.CX 0 1; Gate.CX 0 2] ++ m012))
              2048 draws1 _ meas _
              ltac:(lia) eq_refl ghz_statevector ltac:(discriminate) H1)
    as (counts1 & R1 & T1 & K1 & _).
  destruct (run_circuit_sampler_outcomes
              (mkQC 3 3 ([Gate.H 0; Gate.CX 0 1; Gate.CX 0 2;
                          Gate.H 0; Gate.H 1; Gate.H 2] ++ m012))
              2048 draws3 _ meas _
              ltac:(lia) eq_refl ghz_in_x_statevector ltac:(discriminate) H3)
    as (counts3 & R3 & T3 & K3 & _).
  destruct (run_circuit_sampler_outcomes
              (mkQC 3 3 ([Gate.H 0; Gate.CX 0 1; Gate.CX 0 2; Gate.Z 0;
                          Gate.H 0; Gate.H 1; Gate.H 2] ++ m012))
              2048 draws4 _ meas _
              ltac:(lia) eq_refl ghz_phase_statevector ltac:(discriminate) H4)
    as (counts4 & R4 & T4 & K4 & _).
  exists counts1. eexists. exists counts3, counts4. split.
  - unfold ghz_experiments.
    change qc_ghz with (Ok (mkQC 3 3 ([Gate.H 0; Gate.CX 0 1; Gate.CX 0 2] ++ m012))).
    change qc_ghz_sv with (Ok (mkQC 3 0 [Gate.H 0; Gate.CX 0 1; Gate.CX 0 2])).
    change qc_ghz_in_x
      with (Ok (mkQC 3 3 ([Gate.H 0; Gate.CX 0 1; Gate.CX 0 2;
                           Gate.H 0; Gate.H 1; Gate.H 2] ++ m012))).
    change qc_ghz_phase
      with (Ok (mkQC 3 3 ([Gate.H 0; Gate.CX 0 1; Gate.CX 0 2; Gate.Z 0;
                           Gate.H 0; Gate.H 1; Gate.H 2] ++ m012))).
    unfold bind at 1.
    rewrite (run_and_print_counts _ 2048 draws1 counts1 ltac:(lia) R1).
    unfold bind at 1. unfold bind at 1.
    assert (E2 : run_and_print (mkQC 3 0 [Gate.H 0; Gate.CX 0 1; Gate.CX 0 2]) 0 true draws1
                 = Ok (mkOut None
                         (amplitude_lines 3
                            [(1 / sqrt 2, 0); (0, 0); (0, 0); (0, 0);
                             (0, 0); (0, 0); (0, 0); (1 / sqrt 2, 0)])
                         (Some [(1 / sqrt 2, 0); (0, 0); (0, 0); (0, 0);
                                (0, 0); (0, 0); (0, 0); (1 / sqrt 2, 0)]))).
    { unfold run_and_print. change (0 <? 0)%Z with false. cbv iota.
      unfold bind at 1.
      change (from_instruction
                (remove_final_measurements
                   (mkQC 3 0 [Gate.H 0; Gate.CX 0 1; Gate.CX 0 2])))
        with (evolve 3 [Gate.H 0; Gate.CX 0 1; Gate.CX 0 2] (initialize 3)).
      now rewrite ghz_statevector. }
    rewrite E2. unfold bind at 1. unfold bind at 1.
    rewrite (run_and_print_counts _ 2048 draws3 counts3 ltac:(lia) R3).
    unfold bind at 1. unfold bind at 1.
    rewrite (run_and_print_counts _ 2048 draws4 counts4 ltac:(lia) R4).
    reflexivity.
  - split; [exact T1 |]. split; [exact T3 |]. split; [exact T4 |].
    split; [| split].
    + intros key Hc. destruct (K1 key Hc) as (i & Hi & Hp & ->).
      index_cases i Hi; unfold amp, Cnorm2 in Hp; simpl in Hp; try lra; simpl; tauto.
    + intros key Hc. destruct (K3 key Hc) as (i & Hi & Hp & ->).
      index_cases i Hi; unfold amp, Cnorm2 in Hp; simpl in Hp; try lra; simpl; tauto.
    + intros key Hc. destruct (K4 key Hc) as (i & Hi & Hp & ->).
      index_cases i Hi; unfold amp, Cnorm2 in Hp; simpl in Hp; try lra; simpl; tauto.
Qed.

Lemma ghz_experiments_outcomes_witness :
  exists counts1 lines counts3 counts4,
    ghz_experiments (fun _ => 0) (fun _ => 1 / 2) (fun _ => 3 / 4)
    = Ok (mkOut (Some counts1) [] None,
          mkOut None lines
                (Some [(1 / sqrt 2, 0); (0, 0); (0, 0); (0, 0);
                       (0, 0); (0, 0); (0, 0); (1 / sqrt 2, 0)]),
          mkOut (Some counts3) [] None,
          mkOut (Some counts4) [] None) /\
    total counts1 = 2048%nat /\ total counts3 = 2048%nat /\ total counts4 = 2048%nat /\
    (forall key, contains counts1 key = true ->
                 In key ["000"; "111"]%string) /\
    (forall key, contains counts3 key = true ->
                 In key ["000"; "011"; "101"; "110"]%string) /\
    (forall key, contains counts4 key = true ->
                 In key ["001"; "010"; "100"; "111"]%string).
Proof.
  apply (ghz_experiments_outcomes (fun _ => 0) (fun _ => 1 / 2) (fun _ => 3 / 4));
    intros _; lra.
Defined.

(** X19: [interference_experiments]: H, H gives "0" on every shot; on two
    qubits H, H gives "00" on every shot, with a Z on each qubit between
    the Hadamards "11" on every shot, and with a CZ between them the
    statevector (1/2, 1/2, 1/2, -1/2); the printed product of H with itself
    is the identity matrix. *)
Theorem interference_experiments_outcomes (draws1 draws2 draws3 draws4 : nat -> R) :
  uniform_draws draws1 -> uniform_draws draws2 ->
  uniform_draws draws3 -> uniform_draws draws4 ->
  exists lines1 lines2 lines3 lines4 counts4,
    interference_experiments draws1 draws2 draws3 draws4
    = Ok (mkOut (Some [("0"%string, 1024%nat)]) lines1 (Some [(1, 0); (0, 0)]),
          identity_matrix,
          mkOut (Some [("00"%string, 2048%nat)]) lines2
                (Some [(1, 0); (0, 0); (0, 0); (0, 0)]),
          mkOut (Some [("11"%string, 2048%nat)]) lines3
                (Some [(0, 0); (0, 0); (0, 0); (1, 0)]),
          mkOut (Some counts4) lines4
                (Some [(1 / 2, 0); (1 / 2, 0); (1 / 2, 0); (- (1 / 2), 0)])) /\
    total counts4 = 2048%nat.
Proof.
  intros H1 H2 H3 H4.
  set (m01 := [Gate.Measure 0 0; Gate.Measure 1 1]).
  assert (R1 := h_h_circuit_counts 1024 draws1 ltac:(lia) H1).
  assert (R2 : run_circuit_sampler
                 (mkQC 2 2 ([Gate.H 0; Gate.H 1; Gate.H 0; Gate.H 1] ++ m01))
                 2048 draws2 = Ok [("00"%string, 2048%nat)]).
  { rewrite (run_circuit_sampler_basis
               (mkQC 2 2 ([Gate.H 0; Gate.H 1; Gate.H 0; Gate.H 1] ++ m01))
               2048 draws2 [Gate.H 0; Gate.H 1; Gate.H 0; Gate.H 1]
               [(0, 0); (1, 1)]%nat [(1, 0); (0, 0); (0, 0); (0, 0)] 0);
      [reflexivity | lia | reflexivity | exact base_statevector | discriminate
      | exact H2 |].
    intros i Hi. unfold amp.
    do 4 (destruct i as [| i]; [try congruence; reflexivity |]).
    simpl. now destruct i. }
  assert (R3 : run_circuit_sampler
                 (mkQC 2 2 ([Gate.H 0; Gate.H 1; Gate.Z 0; Gate.Z 1;
                             Gate.H 0; Gate.H 1] ++ m01))
                 2048 draws3 = Ok [("11"%string, 2048%nat)]).
  { rewrite (run_circuit_sampler_basis
               (mkQC 2 2 ([Gate.H 0; Gate.H 1; Gate.Z 0; Gate.Z 1;
                           Gate.H 0; Gate.H 1] ++ m01))
               2048 draws3 [Gate.H 0; Gate.H 1; Gate.Z 0; Gate.Z 1; Gate.H 0; Gate.H 1]
               [(0, 0); (1, 1)]%nat [(0, 0); (0, 0); (0, 0); (1, 0)] 3);
      [reflexivity | lia | reflexivity | exact phase_statevector | discriminate
      | exact H3 |].
    intros i Hi. unfold amp.
    do 4 (destruct i as [| i]; [try congruence; reflexivity |]).
    simpl. now destruct i. }
  destruct (run_circuit_sampler_outcomes
              (mkQC 2 2 ([Gate.H 0; Gate.H 1; Gate.CZ 0 1; Gate.H 0; Gate.H 1] ++ m01))
              2048 draws4 [Gate.H 0; Gate.H 1; Gate.CZ 0 1; Gate.H 0; Gate.H 1]
              [(0, 0); (1, 1)]%nat
              [(1 / 2, 0); (1 / 2, 0); (1 / 2, 0); (- (1 / 2), 0)]
              ltac:(lia) eq_refl cz_statevector ltac:(discriminate) H4)
    as (counts4 & R4 & T4 & _).
  do 4 eexists. exists counts4. split; [| exact T4].
  unfold interference_experiments.
  change qc_h_h with (Ok (mkQC 1 1 [Gate.H 0; Gate.H 0; Gate.Measure 0 0])).
  change qc2_base
    with (Ok (mkQC 2 2 ([Gate.H 0; Gate.H 1; Gate.H 0; Gate.H 1] ++ m01))).
  change qc2_phase
    with (Ok (mkQC 2 2 ([Gate.H 0; Gate.H 1; Gate.Z 0; Gate.Z 1;
                         Gate.H 0; Gate.H 1] ++ m01))).
  change qc2_cz
    with (Ok (mkQC 2 2 ([Gate.H 0; Gate.H 1; Gate.CZ 0 1; Gate.H 0; Gate.H 1] ++ m01))).
  unfold bind at 1.
  rewrite (run_show_counts _ 1024 draws1 _ [(1, 0); (0, 0)] R1 h_h_statevector).
  unfold bind at 1. unfold bind at 1.
  rewrite (run_show_counts _ 2048 draws2 _ _ R2 base_statevector).
  unfold bind at 1. unfold bind at 1.
  rewrite (run_show_counts _ 2048 draws3 _ _ R3 phase_statevector).
  unfold bind at 1. unfold bind at 1.
  rewrite (run_show_counts _ 2048 draws4 _ _ R4 cz_statevector).
  unfold bind at 1.
  rewrite H_numpy_is_H_matrix, H_dot_H. reflexivity.
Qed.

Lemma interference_experiments_outcomes_witness :
  exists lines1 lines2 lines3 lines4 counts4,
    interference_experiments (fun _ => 0) (fun _ => 0) (fun _ => 0) (fun _ => 0)
    = Ok (mkOut (Some [("0"%string, 1024%nat)]) lines1 (Some [(1, 0); (0, 0)]),
          identity_matrix,
          mkOut (Some [("00"%string, 2048%nat)]) lines2
                (Some [(1, 0); (0, 0); (0, 0); (0, 0)]),
          mkOut (Some [("11"%string, 2048%nat)]) lines3
                (Some [(0, 0); (0, 0); (0, 0); (1, 0)]),
          mkOut (Some counts4) lines4
                (Some [(1 / 2, 0); (1 / 2, 0); (1 / 2, 0); (- (1 / 2), 0)])) /\
    total counts4 = 2048%nat.
Proof.
  apply (interference_experiments_outcomes
           (fun _ => 0) (fun _ => 0) (fun _ => 0) (fun _ => 0));
    intros _; lra.
Defined.

(** ** Thresholds and labels of the printed amplitudes *)

Lemma Cnorm2_le_norm2 (sv : Statevector) (i : nat) :
  Cnorm2 (amp sv i) <= norm2 sv.
Proof.
  unfold amp, norm2, probabilities, Rsum. revert i.
  induction sv as [| a sv IH]; intros i; simpl.
  - destruct i; unfold Cnorm2, C0; simpl; lra.
  - pose proof (Cnorm2_nonneg a) as Ha.
    assert (Hs : 0 <= fold_right Rplus 0 (map Cnorm2 sv)) by apply (norm2_nonneg sv).
    destruct i as [| i]; [lra |]. specialize (IH i). lra.
Qed.

Lemma Cabs_le_1 (sv : Statevector) (i : nat) : norm2 sv = 1 -> Cabs (amp sv i) <= 1.
Proof.
  intros Hn. unfold Cabs.
  apply Rle_trans with (sqrt 1); [| rewrite sqrt_1; lra].
  apply sqrt_le_1_alt. rewrite <- Hn. apply Cnorm2_le_norm2.
Qed.

Lemma Cabs_nonneg (a : C) : 0 <= Cabs a.
Proof. apply sqrt_pos. Qed.

Lemma Rsum_le_const (f : nat -> R) (b : R) (l : list nat) :
  (forall i, In i l -> f i <= b) -> Rsum (map f l) <= INR (List.length l) * b.
Proof.
  unfold Rsum. induction l as [| i l IH]; intros Hall.
  - simpl. lra.
  - change (fold_right Rplus 0 (map f (i :: l)))
      with (f i + fold_right Rplus 0 (map f l)).
    change (List.length (i :: l)) with (S (List.length l)). rewrite S_INR.
    pose proof (Hall i (or_introl eq_refl)).
    assert (fold_right Rplus 0 (map f l) <= INR (List.length l) * b)
      by (apply IH; intros j Hj; apply Hall; now right).
    lra.
Qed.

(** X20: the threshold of [print_statevector] at its edges, on a
    normalized statevector of [n] qubits: a threshold of 1 or more prints
    nothing; a negative threshold prints all [2^n] basis states, zero
    amplitudes included, each with its phase; and whenever
    [threshold^2 * 2^n < 1] at least one line is printed. *)
Theorem print_statevector_threshold_edges (n : nat) (sv : Statevector)
    (threshold : R) :
  List.length sv = (2 ^ n)%nat ->
  norm2 sv = 1 ->
  (1 <= threshold -> print_statevector sv threshold = (n, [])) /\
  (threshold < 0 ->
   print_statevector sv threshold
   = (n, map (fun i => mkLine (basis_label n i) (Cabs (amp sv i))
                              (Some (Cangle (amp sv i))))
             (seq 0 (2 ^ n)))) /\
  (0 <= threshold -> threshold * threshold * INR (2 ^ n) < 1 ->
   snd (print_statevector sv threshold) <> []).
Proof.
  intros Hlen Hn.
  rewrite (print_statevector_lines n sv threshold Hlen).
  split; [| split].
  - intros Ht. f_equal. rewrite filter_none; [reflexivity |].
    intros i _. unfold above. pose proof (Cabs_le_1 sv i Hn).
    destruct (Rlt_dec threshold (Cabs (amp sv i))); [lra | reflexivity].
  - intros Ht. f_equal. rewrite filter_all.
    + apply map_ext. intros i. unfold line_of.
      pose proof (Rabs_pos (Cangle (amp sv i))).
      destruct (Rlt_dec (Rabs (Cangle (amp sv i))) threshold); [lra | reflexivity].
    + intros i _. unfold above. pose proof (Cabs_nonneg (amp sv i)).
      destruct (Rlt_dec threshold (Cabs (amp sv i))); [reflexivity | lra].
  - intros Ht Hsmall. simpl. intros Hnil.
    apply map_eq_nil in Hnil.
    assert (Hall : forall i, In i (seq 0 (2 ^ n)) ->
                             Cnorm2 (amp sv i) <= threshold * threshold).
    { intros i Hi.
      assert (Hf : above threshold sv i = false).
      { destruct (above threshold sv i) eqn:E; [| reflexivity].
        assert (Hin : In i (filter (above threshold sv) (seq 0 (2 ^ n))))
          by (apply filter_In; now split).
        rewrite Hnil in Hin. destruct Hin. }
      unfold above in Hf.
      destruct (Rlt_dec threshold (Cabs (amp sv i))) as [| Hle]; [discriminate |].
      apply Rnot_lt_le in Hle. unfold Cabs in Hle.
      pose proof (Cnorm2_nonneg (amp sv i)) as Hnn.
      rewrite <- (sqrt_sqrt (Cnorm2 (amp sv i))) by assumption.
      apply Rmult_le_compat; try apply sqrt_pos; assumption. }
    pose proof (Rsum_le_const (fun i => Cnorm2 (amp sv i)) _ _ Hall) as Hsum.
    rewrite length_seq in Hsum.
    rewrite <- Hlen, <- norm2_as_index_sum, Hn in Hsum.
    rewrite Hlen in Hsum. lra.
Qed.

Lemma print_statevector_threshold_edges_witness :
  print_statevector [(1, 0); (0, 0)] 2 = (1%nat, []).
Proof.
  refine (proj1 (print_statevector_threshold_edges 1 [(1, 0); (0, 0)] 2 eq_refl _) _).
  - unfold norm2, probabilities, Rsum, Cnorm2; simpl. lra.
  - lra.
Defined.

Lemma amplitude_lines_spec (width : nat) (sv : Statevector) :
  amplitude_lines width sv
  = map (fun i => (format_b width i, amp sv i))
        (filter (above 1e-10 sv) (seq 0 (List.length sv))).
Proof.
  unfold amplitude_lines. rewrite <- flat_map_if_singleton.
  apply flat_map_ext. intros i. unfold above.
  now destruct (Rlt_dec 1e-10 (Cabs (amp sv i))).
Qed.

Lemma format_b_length_general (width i : nat) :
  String.length (format_b width i) = Nat.max width (List.length (nat_bits i)).
Proof.
  unfold format_b. rewrite string_of_bits_length, length_app, repeat_length. lia.
Qed.

(** X21: the amplitude lines of [run_and_print] and of [run_show] list the
    same amplitudes, those of magnitude above 1e-10, but label them
    differently: [run_and_print] pads every index to three characters
    whatever the register, so on at most three qubits its labels have
    three characters and on more they have between three and [n], while the
    labels of [run_show] have one character per qubit. *)
Theorem run_helpers_label_width (n : nat) (sv : Statevector) :
  List.length sv = (2 ^ n)%nat ->
  map snd (amplitude_lines 3 sv) = map snd (amplitude_lines n sv) /\
  (forall label a, In (label, a) (amplitude_lines n sv) ->
                   String.length label = Nat.max n 1) /\
  (forall label a, In (label, a) (amplitude_lines 3 sv) ->
                   (3 <= String.length label <= Nat.max n 3)%nat) /\
  ((n <= 3)%nat ->
   forall label a, In (label, a) (amplitude_lines 3 sv) -> String.length label = 3%nat).
Proof.
  intros Hlen. rewrite !amplitude_lines_spec, Hlen.
  assert (Hin : forall w label a,
             In (label, a)
                (map (fun i => (format_b w i, amp sv i))
                     (filter (above 1e-10 sv) (seq 0 (2 ^ n)))) ->
             exists i, (i < 2 ^ n)%nat /\ label = format_b w i).
  { intros w label a H. apply in_map_iff in H. destruct H as (i & [= <- _] & Hi).
    apply filter_In in Hi. destruct Hi as [Hi _]. apply in_seq in Hi.
    exists i. split; [lia | reflexivity]. }
  split; [now rewrite !map_map |]. split; [| split].
  - intros label a H. destruct (Hin _ _ _ H) as (i & Hi & ->).
    now apply format_b_length.
  - intros label a H. destruct (Hin _ _ _ H) as (i & Hi & ->).
    rewrite format_b_length_general.
    pose proof (nat_bits_length n i Hi). lia.
  - intros Hn label a H. destruct (Hin _ _ _ H) as (i & Hi & ->).
    rewrite format_b_length_general.
    pose proof (nat_bits_length n i Hi). lia.
Qed.

Lemma run_helpers_label_width_witness :
  map snd (amplitude_lines 3 [(1, 0); (0, 0)])
  = map snd (amplitude_lines 1 [(1, 0); (0, 0)]).
Proof.
  exact (proj1 (run_helpers_label_width 1 [(1, 0); (0, 0)] eq_refl)).
Defined.

(** ** The printed Bell states *)

Lemma Cangle_negative_real (r : R) : 0 < r -> Cangle (- r, 0) = PI.
Proof.
  intros Hr. unfold Cangle.
  destruct (Rlt_dec 0 (- r)); [lra |].
  destruct (Rlt_dec (- r) 0); [| lra].
  destruct (Rle_dec 0 0); [| lra].
  replace (0 / - r) with 0 by (field; lra). rewrite atan_0. ring.
Qed.

Lemma Cabs_negative_real (r : R) : 0 <= r -> Cabs (- r, 0) = r.
Proof.
  intros Hr. unfold Cabs, Cnorm2; simpl.
  replace (- r * - r + 0 * 0) with (Rsqr r) by (unfold Rsqr; ring).
  now apply sqrt_Rsqr.
Qed.

(** The lines of a two-qubit statevector with real amplitudes [0] or
    [+- 1 / sqrt 2]. *)
Ltac print_bell :=
  rewrite (print_statevector_lines 2) by reflexivity; f_equal;
  unfold default_threshold; simpl seq; unfold filter, above, amp, nth;
  pose proof inv_sqrt2_pos as Hpos;
  assert (Hmag : 1e-10 < 1 / sqrt 2)
    by (pose proof inv_sqrt2_sq; assert (1 / 2 <= 1 / sqrt 2) by nra; lra);
  rewrite ?Cabs_C0, ?Cabs_negative_real, ?Cabs_real by lra;
  repeat match goal with
         | |- context [Rlt_dec 1e-10 0] =>
             destruct (Rlt_dec 1e-10 0); [exfalso; lra |]
         | |- context [Rlt_dec 1e-10 (1 / sqrt 2)] =>
             destruct (Rlt_dec 1e-10 (1 / sqrt 2)); [| contradiction]
         end;
  unfold map, line_of, amp, nth;
  rewrite ?Cabs_negative_real, ?Cabs_real, ?Cangle_negative_real,
    ?Cangle_positive_real, ?Rabs_R0 by lra;
  pose proof PI_RGT_0 as Hpi; pose proof PI2_3_2 as Hpi2;
  rewrite ?(Rabs_pos_eq PI) by lra;
  repeat match goal with
         | |- context [Rlt_dec 0 1e-10] =>
             destruct (Rlt_dec 0 1e-10); [| exfalso; lra]
         | |- context [Rlt_dec PI 1e-10] =>
             destruct (Rlt_dec PI 1e-10); [exfalso; lra |]
         end;
  reflexivity.

(** What [example_3_custom_bell_state] prints. *)
Lemma example_3_output :
  let s := 1 / sqrt 2 in
  example_3_custom_bell_state
  = Ok [(2%nat, [mkLine "|00⟩" s None; mkLine "|11⟩" s None]);
        (2%nat, [mkLine "|00⟩" s None; mkLine "|11⟩" s (Some PI)]);
        (2%nat, [mkLine "|01⟩" s None; mkLine "|10⟩" s None]);
        (2%nat, [mkLine "|01⟩" s (Some PI); mkLine "|10⟩" s None])].
Proof.
  intros s. subst s. unfold example_3_custom_bell_state.
  apply for_each_cons.
  { change (create_bell_state "phi_plus")
      with (Ok (mkQC 2 2 [Gate.H 0; Gate.CX 0 1])).
    unfold bind at 1. unfold from_instruction. simpl num_qubits. simpl data.
    rewrite bell_statevector. unfold bind. f_equal. print_bell. }
  apply for_each_cons.
  { change (create_bell_state "phi_minus")
      with (Ok (mkQC 2 2 [Gate.H 0; Gate.Z 0; Gate.CX 0 1])).
    unfold bind at 1. unfold from_instruction. simpl num_qubits. simpl data.
    rewrite bell_phi_minus_statevector. unfold bind. f_equal. print_bell. }
  apply for_each_cons.
  { change (create_bell_state "psi_plus")
      with (Ok (mkQC 2 2 [Gate.H 0; Gate.CX 0 1; Gate.X 1])).
    unfold bind at 1. unfold from_instruction. simpl num_qubits. simpl data.
    rewrite bell_psi_plus_statevector. unfold bind. f_equal. print_bell. }
  apply for_each_cons; [| reflexivity].
  change (create_bell_state "psi_minus")
    with (Ok (mkQC 2 2 [Gate.H 0; Gate.Z 0; Gate.CX 0 1; Gate.X 1])).
  unfold bind at 1. unfold from_instruction. simpl num_qubits. simpl data.
  rewrite bell_psi_minus_statevector. unfold bind. f_equal. print_bell.
Qed.

Lemma Cabs_real_abs (r : R) : Cabs (r, 0) = Rabs r.
Proof.
  unfold Cabs, Cnorm2; simpl.
  replace (r * r + 0 * 0) with (Rsqr r) by (unfold Rsqr; ring).
  apply sqrt_Rsqr_abs.
Qed.

Lemma Forall2_map_self {A B : Type} (P : A -> B -> Prop) (f : A -> B) (l : list A) :
  (forall a, In a l -> P a (f a)) -> Forall2 P l (map f l).
Proof.
  induction l as [| a l IH]; simpl; intros Hl; constructor.
  - apply Hl. now left.
  - apply IH. intros b Hb. apply Hl. now right.
Qed.

(** X22: on a statevector with real amplitudes, as the circuits of H, X,
    Z, CX and CZ gates give, [print_statevector] with a threshold in (0, pi]
    lists the amplitudes of absolute value above the threshold, the positive
    ones with no phase and the negative ones with a phase of absolute value
    pi (the sign of that phase is left open: NumPy takes it from the sign of
    the zero imaginary part).  So [example_3_custom_bell_state] prints two
    lines of magnitude 1/sqrt 2 for each Bell state, with no phase for the
    plus variants and such a phase on one line of the minus variants
    ([phi_minus] on |11>, [psi_minus] on |01>). *)
Theorem print_statevector_real_amplitudes (n : nat) (sv : Statevector)
    (threshold : R) :
  List.length sv = (2 ^ n)%nat ->
  0 < threshold <= PI ->
  (forall i, snd (amp sv i) = 0) ->
  (exists lines,
      print_statevector sv threshold = (n, lines) /\
      Forall2
        (fun i line =>
           basis line = basis_label n i /\
           magnitude line = Rabs (fst (amp sv i)) /\
           threshold < Rabs (fst (amp sv i)) /\
           (0 < fst (amp sv i) -> phase line = None) /\
           (fst (amp sv i) < 0 -> exists p, phase line = Some p /\ Rabs p = PI))
        (filter (above threshold sv) (seq 0 (2 ^ n))) lines) /\
  exists p1 p2,
    Rabs p1 = PI /\ Rabs p2 = PI /\
    example_3_custom_bell_state
    = Ok [(2%nat, [mkLine "|00⟩" (1 / sqrt 2) None; mkLine "|11⟩" (1 / sqrt 2) None]);
          (2%nat, [mkLine "|00⟩" (1 / sqrt 2) None;
                   mkLine "|11⟩" (1 / sqrt 2) (Some p1)]);
          (2%nat, [mkLine "|01⟩" (1 / sqrt 2) None; mkLine "|10⟩" (1 / sqrt 2) None]);
          (2%nat, [mkLine "|01⟩" (1 / sqrt 2) (Some p2);
                   mkLine "|10⟩" (1 / sqrt 2) None])].
Proof.
  intros Hlen [Hpos Hpi] Hreal.
  pose proof PI_RGT_0 as Hpi0.
  split.
  2:{ exists PI, PI. rewrite Rabs_pos_eq by lra.
      split; [reflexivity |]. split; [reflexivity |]. exact example_3_output. }
  exists (map (line_of n threshold sv) (filter (above threshold sv) (seq 0 (2 ^ n)))).
  split; [now apply print_statevector_lines |].
  assert (Hamp : forall i, amp sv i = (fst (amp sv i), 0)).
  { intros i. specialize (Hreal i). destruct (amp sv i) as [re im].
    simpl in *. now subst im. }
  assert (Habs : forall i, Cabs (amp sv i) = Rabs (fst (amp sv i))).
  { intros i. rewrite (Hamp i) at 1. apply Cabs_real_abs. }
  apply Forall2_map_self. intros i Hi.
  apply filter_In in Hi. destruct Hi as [_ Hi]. unfold above in Hi.
  destruct (Rlt_dec threshold (Cabs (amp sv i))) as [Hgt |]; [| discriminate].
  rewrite Habs in Hgt.
  unfold line_of. cbn [basis magnitude phase].
  split; [reflexivity |]. split; [apply Habs |]. split; [exact Hgt |].
  rewrite (Hamp i). simpl fst. split.
  - intros Hre. rewrite Cangle_positive_real by assumption. rewrite Rabs_R0.
    destruct (Rlt_dec 0 threshold); [reflexivity | lra].
  - intros Hre.
    replace (fst (amp sv i)) with (- - fst (amp sv i)) by ring.
    rewrite Cangle_negative_real by lra.
    rewrite Rabs_pos_eq by lra.
    destruct (Rlt_dec PI threshold); [lra |].
    exists PI. split; [reflexivity |]. apply Rabs_pos_eq. lra.
Qed.

Lemma print_statevector_real_amplitudes_witness :
  exists lines, print_statevector [(0, 0); (-1, 0)] (1 / 2) = (1%nat, lines).
Proof.
  destruct (proj1 (print_statevector_real_amplitudes 1 [(0, 0); (-1, 0)] (1 / 2)
                     eq_refl
                     ltac:(pose proof PI_RGT_0; pose proof PI2_3_2; lra)
                     ltac:(intros [| [| [| i]]]; reflexivity)))
    as (lines & Hlines & _).
  exists lines. exact Hlines.
Defined.
